(** * txbuilder: fee estimation and change reconciliation

    A shallow embedding of the Go packages [txbuilder], [fees],
    [unlocking_data] and [unlocking_size] of tokenized/txbuilder, and the
    properties of the size estimator, the fee arithmetic, the declaration
    codecs and [AdjustFee].

    Conventions.
    - Go's [uint64], [int64] ([int] on a 64-bit platform) and [uint32] are
      [Z] with the wrap-around written out ([u64], [i64], [u32]).
    - Go's [float64] is IEEE-754 binary64, modelled by the standard
      library's [spec_float] with [prec = 53] and [emax = 1024].
    - A Go function that may panic (slice index out of range, nil
      dereference) or recurse returns an [outcome]; a Go multiple return
      [(v, err)] is a pair whose second component is [option error].
    - Packages the repository imports but does not contain (script
      templates, the channels protocol parser, script number items) are
      interfaces: type classes whose fields are the functions called.
      [agent_bitcoin_transfer.MatchScript] and [channels.Protocols.Parse]
      walk a script of any shape and may panic on it: they give a
      [result]. *)

From Stdlib Require Import ZArith List Bool Lia String Ascii QArith Qpower Qround.
From Stdlib Require Import DecimalString.
From Stdlib Require Import Floats.SpecFloat.
From stdpp Require Import base list.

Local Open Scope Z_scope.

(** ** Machine integers *)

Definition u64 (z : Z) : Z := z mod 2 ^ 64.
Definition u32 (z : Z) : Z := z mod 2 ^ 32.
Definition i64 (z : Z) : Z := (z + 2 ^ 63) mod 2 ^ 64 - 2 ^ 63.

Definition is_u64 (z : Z) : Prop := 0 <= z < 2 ^ 64.
Definition is_i64 (z : Z) : Prop := - 2 ^ 63 <= z < 2 ^ 63.

(** ** Outcomes of a call *)

Inductive outcome (A : Type) : Type :=
| Returns (a : A)
| Panics
| OutOfFuel.

Arguments Returns {A} a.
Arguments Panics {A}.
Arguments OutOfFuel {A}.

Definition bind {A B : Type} (c : outcome A) (k : A -> outcome B) : outcome B :=
  match c with
  | Returns a => k a
  | Panics => Panics
  | OutOfFuel => OutOfFuel
  end.

Notation "'let*' x ':=' c 'in' k" := (bind c (fun x => k))
  (at level 10, x name, c at level 100, k at level 200).

(** A call into a package outside the repository returns or panics. *)
Inductive result (A : Type) : Type :=
| Result (a : A)
| Panic.

Arguments Result {A} a.
Arguments Panic {A}.

Definition call {A : Type} (r : result A) : outcome A :=
  match r with
  | Result a => Returns a
  | Panic => Panics
  end.

(** [l[i]] on a Go slice: a run-time panic when [i] is out of range. *)
Definition index {A : Type} (l : list A) (i : Z) : outcome A :=
  if (i <? 0) then Panics
  else match l !! Z.to_nat i with
       | Some a => Returns a
       | None => Panics
       end.

(** ** Errors *)

Inductive error : Type :=
| ErrInsufficientValue
| ErrChangeAddressNeeded
| ErrUnknownScriptTemplate
| ErrWrongScriptTemplate
| MissingUnlockingData
| ErrInvalidMessage
| ErrUnsupportedVersion
| ErrBelowDustValue
| ErrExternal (name : string)
| Wrap (cause : error) (msg : string).

(** [errors.Cause]: the error a chain of [errors.Wrap] started from. *)
Fixpoint Cause (e : error) : error :=
  match e with
  | Wrap c _ => Cause c
  | _ => e
  end.

Definition is_nil {A : Type} (e : option A) : bool :=
  match e with None => true | Some _ => false end.

(** ** IEEE-754 binary64 *)

Module Float64.

Definition prec : Z := 53.
Definition emax : Z := 1024.

Definition float64 : Type := spec_float.
Definition float32 : Type := spec_float.

(** What the platform gives for a float-to-integer conversion whose value
    the integer type cannot hold: the Go specification leaves it to the
    implementation. *)
Class Platform : Type := {
  unrepresentable_uint64 : float64 -> Z
}.

(** [float64(n)] for an integer [n]: round to nearest, ties to even. *)
Definition of_int (n : Z) : float64 := binary_normalize prec emax n 0 false.

(** [float64(x)] for a [float32] [x]: every binary32 value is a binary64
    value; the mantissa is re-aligned. *)
Definition of_float32 (x : float32) : float64 :=
  match x with
  | S754_finite s m e => binary_normalize prec emax (cond_Zopp s (Zpos m)) e s
  | _ => x
  end.

Definition mul (x y : float64) : float64 := SFmul prec emax x y.

(** The least integer not below [m * 2^e], for [e < 0]. *)
Definition ceil_shift (m e : Z) : Z := - ((- m) / 2 ^ (- e)).
(** The greatest integer not above [m * 2^e], for [e < 0]. *)
Definition floor_shift (m e : Z) : Z := m / 2 ^ (- e).

(** [math.Ceil]. *)
Definition Ceil (x : float64) : float64 :=
  match x with
  | S754_finite s m e =>
      if 0 <=? e then x
      else let c := ceil_shift (cond_Zopp s (Zpos m)) e in
           if c =? 0 then S754_zero s else binary_normalize prec emax c 0 s
  | _ => x
  end.

(** [math.Floor]. *)
Definition Floor (x : float64) : float64 :=
  match x with
  | S754_finite s m e =>
      if 0 <=? e then x
      else let c := floor_shift (cond_Zopp s (Zpos m)) e in
           if c =? 0 then S754_zero s else binary_normalize prec emax c 0 s
  | _ => x
  end.

(** The integer part of a finite float, towards zero. *)
Definition trunc (x : float64) : option Z :=
  match x with
  | S754_zero _ => Some 0
  | S754_finite s m e =>
      Some (cond_Zopp s (if 0 <=? e then Zpos m * 2 ^ e else Zpos m / 2 ^ (- e)))
  | _ => None
  end.

(** [uint64(x)]: the truncation when it is a [uint64]. *)
Definition to_uint64 `{Platform} (x : float64) : Z :=
  match trunc x with
  | Some t => if (0 <=? t) && (t <? 2 ^ 64) then t else u64 (unrepresentable_uint64 x)
  | None => u64 (unrepresentable_uint64 x)
  end.

(** The floats whose conversion to [uint64] the language defines: the
    truncation is a [uint64]. *)
Definition representable (x : float64) : Prop :=
  exists t, trunc x = Some t /\ 0 <= t < 2 ^ 64.

(** The rational a float stands for (0 for infinities and NaN). *)
Definition to_Q (x : float64) : Q :=
  match x with
  | S754_finite s m e => inject_Z (cond_Zopp s (Zpos m)) * Qpower 2 e
  | _ => 0%Q
  end.

Definition is_finite (x : float64) : bool :=
  match x with
  | S754_zero _ | S754_finite _ _ _ => true
  | _ => false
  end.

(** Finite and not negative: [+0], [-0] or a positive number. *)
Definition nonneg (x : float64) : bool :=
  match x with
  | S754_zero _ => true
  | S754_finite s _ _ => negb s
  | _ => false
  end.

End Float64.

Import Float64.

(** ** Scripts, script items and envelopes (packages bitcoin, envelope) *)

Definition Script : Type := list Byte.byte.

Definition len {A : Type} (l : list A) : Z := Z.of_nat (length l).

(** [fmt.Sprintf("%d", n)]. *)
Definition decimal (n : Z) : string := NilZero.string_of_int (Z.to_int n).

(** [bitcoin.ScriptItem]: an op code or a push of data. *)
Inductive ScriptItemType : Type := ScriptItemTypeOpCode | ScriptItemTypePushData.

Record ScriptItem : Type := {
  Type_ : ScriptItemType;
  OpCode : Byte.byte;
  Data_ : list Byte.byte
}.

(** The script number functions of package bitcoin the codecs call;
    [PushNumberScriptItem] takes an [int64], the unsigned one a [uint64],
    the readers return [(n, err)]. *)
Class ScriptNumbers : Type := {
  PushNumberScriptItem : Z -> ScriptItem;
  PushNumberScriptItemUnsigned : Z -> ScriptItem;
  ScriptNumberValue : ScriptItem -> Z * option error;
  ScriptNumberValueUnsigned : ScriptItem -> Z * option error
}.

Module envelope.

Definition ProtocolID : Type := list Byte.byte.

Record Data : Type := {
  ProtocolIDs : list ProtocolID;
  Payload : list ScriptItem
}.

End envelope.

(** [bytes.Equal]. *)
Fixpoint bytes_Equal (a b : list Byte.byte) : bool :=
  match a, b with
  | [], [] => true
  | x :: a', y :: b' => Byte.eqb x y && bytes_Equal a' b'
  | _, _ => false
  end.

(** ** Package unlocking_data *)

Module unlocking_data.

(** ["UL"] *)
Definition ProtocolID : envelope.ProtocolID := [Byte.x55; Byte.x4c].
Definition Version : Z := 0.

Record UnlockingData : Type := { Size : Z; Value : Z }.

Section Codec.
Context {SN : ScriptNumbers}.

Definition Write (m : UnlockingData) : envelope.Data * option error :=
  let payload := [PushNumberScriptItem Version] in
  let payload := payload ++ [PushNumberScriptItemUnsigned (Size m)] in
  let payload := payload ++ [PushNumberScriptItemUnsigned (Value m)] in
  ({| envelope.ProtocolIDs := [ProtocolID]; envelope.Payload := payload |}, None).

Definition Parse (payload : envelope.Data)
  : option UnlockingData * envelope.Data * option error :=
  match envelope.ProtocolIDs payload with
  | [] => (None, payload, None)
  | id0 :: ids =>
    if negb (bytes_Equal id0 ProtocolID) then (None, payload, None)
    else
      let payload := {| envelope.ProtocolIDs := ids;
                        envelope.Payload := envelope.Payload payload |} in
      match envelope.Payload payload with
      | p0 :: p1 :: p2 :: rest =>
        let '(version, err) := ScriptNumberValue p0 in
        match err with
        | Some e => (None, payload, Some (Wrap e "version"))
        | None =>
          if negb (version =? 0)
          then (None, payload, Some (Wrap ErrUnsupportedVersion (decimal version)))
          else
            let '(size, err) := ScriptNumberValueUnsigned p1 in
            match err with
            | Some e => (None, payload, Some (Wrap e "size script number"))
            | None =>
              let '(value, err) := ScriptNumberValueUnsigned p2 in
              match err with
              | Some e => (None, payload, Some (Wrap e "value script number"))
              | None =>
                let payload := {| envelope.ProtocolIDs := envelope.ProtocolIDs payload;
                                  envelope.Payload := rest |} in
                (Some {| Size := size; Value := value |}, payload, None)
              end
            end
        end
      | _ => (None, payload, Some (Wrap ErrInvalidMessage "3 push datas needed"))
      end
  end.

End Codec.

End unlocking_data.

(** ** Package unlocking_size *)

Module unlocking_size.

(** ["UL_S"] *)
Definition ProtocolID : envelope.ProtocolID :=
  [Byte.x55; Byte.x4c; Byte.x5f; Byte.x53].
Definition Version : Z := 0.

Record UnlockingSize : Type := { UnlockingSize_ : Z }.

Section Codec.
Context {SN : ScriptNumbers}.

Definition Write (m : UnlockingSize) : envelope.Data * option error :=
  let payload := [PushNumberScriptItem Version] in
  let payload := payload ++ [PushNumberScriptItemUnsigned (UnlockingSize_ m)] in
  ({| envelope.ProtocolIDs := [ProtocolID]; envelope.Payload := payload |}, None).

Definition Parse (payload : envelope.Data)
  : option UnlockingSize * envelope.Data * option error :=
  match envelope.ProtocolIDs payload with
  | [] => (None, payload, None)
  | id0 :: ids =>
    if negb (bytes_Equal id0 ProtocolID) then (None, payload, None)
    else
      let payload := {| envelope.ProtocolIDs := ids;
                        envelope.Payload := envelope.Payload payload |} in
      match envelope.Payload payload with
      | p0 :: p1 :: rest =>
        let '(version, err) := ScriptNumberValue p0 in
        match err with
        | Some e => (None, payload, Some (Wrap e "version"))
        | None =>
          if negb (version =? 0)
          then (None, payload, Some (Wrap ErrUnsupportedVersion (decimal version)))
          else
            let '(size, err) := ScriptNumberValueUnsigned p1 in
            match err with
            | Some e => (None, payload, Some (Wrap e "script number"))
            | None =>
              let payload := {| envelope.ProtocolIDs := envelope.ProtocolIDs payload;
                                envelope.Payload := rest |} in
              (Some {| UnlockingSize_ := size |}, payload, None)
            end
        end
      | _ => (None, payload, Some (Wrap ErrInvalidMessage "2 push datas needed"))
      end
  end.

End Codec.

End unlocking_size.

(** ** Script templates and the protocol parser (packages bitcoin,
    agent_bitcoin_transfer, channels) *)

(** [agent_bitcoin_transfer.Info], the field the estimators read. *)
Record AgentInfo : Type := { AgentLockingScript : Script }.

(** A [channels.Message] as the callers inspect it: an [*UnlockingData] or
    a message of another protocol. *)
Inductive Message : Type :=
| MsgUnlockingData (d : unlocking_data.UnlockingData)
| MsgOther.

(** Methods of [bitcoin.Script], [agent_bitcoin_transfer] and
    [channels.Protocols] the estimators call.  The matcher of agent
    scripts and the protocol parser return or panic. *)
Class ScriptTemplates : Type := {
  IsP2PK : Script -> bool;
  IsP2PKH : Script -> bool;
  (** [(required, total, err)], the counts being [uint32]. *)
  MultiPKHCounts : Script -> (Z * Z) * option error;
  (** [(info, err)], [info] a pointer. *)
  MatchScript : Script -> result (option AgentInfo * option error);
  RemoveHardVerify : Script -> Script;
  ApproveUnlockingSize : Z -> Z;
  IsFalseOpReturn : Script -> bool;
  (** [channels.NewProtocols(unlocking_data.NewProtocol()).Parse]:
      [(msg, err)], [msg] a nil interface when no protocol matched. *)
  ProtocolsParse : Script -> result (option Message * option error)
}.

(** ** Package wire *)

Module wire.

Record TxIn : Type := {
  PreviousOutPoint : list Byte.byte * Z;
  UnlockingScript : Script;
  Sequence : Z
}.

Record TxOut : Type := {
  Value : Z;
  LockingScript : Script
}.

Record MsgTx : Type := {
  Version : Z;
  TxIn_ : list TxIn;
  TxOut_ : list TxOut;
  LockTime : Z
}.

Definition VarIntSerializeSize (val : Z) : Z :=
  if val <? 0xfd then 1
  else if val <=? 0xffff then 3
  else if val <=? 0xffffffff then 5
  else 9.

(** [TxOut.SerializeSize]: 8 bytes of value, the script length as a
    varint, the script. *)
Definition TxOut_SerializeSize (t : TxOut) : Z :=
  i64 (8 + VarIntSerializeSize (u64 (len (LockingScript t))) + len (LockingScript t)).

End wire.

(** ** Package txbuilder *)

Module txbuilder.

Definition BaseTxSize : Z := 8.
Definition PublicKeyHashPushDataSize : Z := 21.
Definition PublicKeyPushDataSize : Z := 34.
Definition MaxSignatureSize : Z := 73.
Definition MaxSignaturesPushDataSize : Z := 1 + MaxSignatureSize.
(** [bitcoin.Hash32Size + 4 + 4] *)
Definition InputBaseSize : Z := 32 + 4 + 4.
Definition MaximumP2PKHSigScriptSize : Z :=
  MaxSignaturesPushDataSize + PublicKeyPushDataSize.
Definition MaximumP2PKHInputSize : Z := InputBaseSize + 1 + MaximumP2PKHSigScriptSize.
Definition OutputBaseSize : Z := 8.
Definition P2PKHOutputScriptSize : Z := PublicKeyHashPushDataSize + 4.
Definition P2PKHOutputSize : Z := OutputBaseSize + 1 + P2PKHOutputScriptSize.

Definition VarIntSerializeSize (val : Z) : Z :=
  if val <? 0xfd then 1
  else if val <=? 0xffff then 3
  else if val <=? 0xffffffff then 5
  else 9.

(** The supplements the builder keeps beside [MsgTx.TxIn] and
    [MsgTx.TxOut], with the fields this code reads and writes. *)
Record InputSupplement : Type := {
  LockingScript : Script;
  Value : Z
}.

Record OutputSupplement : Type := {
  IsRemainder : bool;
  IsDust : bool;
  KeyID : string;
  addedForFee : bool
}.

Record TxBuilder : Type := {
  MsgTx : wire.MsgTx;
  Inputs : list InputSupplement;
  Outputs : list OutputSupplement;
  ChangeScript : Script;
  ChangeKeyID : string;
  FeeRate : float32;
  DustFeeRate : float32
}.

Definition set_TxOut (tx : TxBuilder) (outs : list wire.TxOut) : TxBuilder :=
  {| MsgTx := {| wire.Version := wire.Version (MsgTx tx);
                 wire.TxIn_ := wire.TxIn_ (MsgTx tx);
                 wire.TxOut_ := outs;
                 wire.LockTime := wire.LockTime (MsgTx tx) |};
     Inputs := Inputs tx;
     Outputs := Outputs tx;
     ChangeScript := ChangeScript tx;
     ChangeKeyID := ChangeKeyID tx;
     FeeRate := FeeRate tx;
     DustFeeRate := DustFeeRate tx |}.

Definition set_Outputs (tx : TxBuilder) (sups : list OutputSupplement) : TxBuilder :=
  {| MsgTx := MsgTx tx;
     Inputs := Inputs tx;
     Outputs := sups;
     ChangeScript := ChangeScript tx;
     ChangeKeyID := ChangeKeyID tx;
     FeeRate := FeeRate tx;
     DustFeeRate := DustFeeRate tx |}.

Definition set_Value (o : wire.TxOut) (v : Z) : wire.TxOut :=
  {| wire.Value := v; wire.LockingScript := wire.LockingScript o |}.

(** Functions of package txbuilder whose source is not among the files:
    [OutputTotalCost] returns [(outputFee, inputFee, err)], [AddOutput]
    updates the builder and returns an error or nil. *)
Class Builder : Type := {
  OutputTotalCost : Script -> float32 -> (Z * Z) * option error;
  AddOutput : TxBuilder -> Script -> Z -> bool -> bool -> TxBuilder * option error
}.

Section Estimator.
Context {ST : ScriptTemplates}.

Fixpoint UnlockingScriptSize (fuel : nat) (lockingScript : Script)
  : outcome (Z * option error) :=
  match fuel with
  | O => OutOfFuel
  | S fuel =>
    if IsP2PK lockingScript then Returns (MaxSignaturesPushDataSize, None)
    else if IsP2PKH lockingScript
    then Returns (MaxSignaturesPushDataSize + PublicKeyPushDataSize, None)
    else
      let '(required, total, err) := MultiPKHCounts lockingScript in
      if is_nil err then
        let scriptSize := i64 (u32 (total - required)) in
        let scriptSize :=
          i64 (scriptSize + i64 (i64 required
                 * (MaxSignaturesPushDataSize + PublicKeyPushDataSize + 1))) in
        Returns (scriptSize, None)
      else
        let* matched := call (MatchScript lockingScript) in
        match matched with
        | (Some info, None) =>
          let agentUnlockingScript := AgentLockingScript info in
          let agentUnlockingScript := RemoveHardVerify agentUnlockingScript in
          let* r := UnlockingScriptSize fuel agentUnlockingScript in
          match r with
          | (_, Some err) => Returns (0, Some (Wrap err "agent unlocking size"))
          | (agentUnlockingSize, None) =>
            Returns (ApproveUnlockingSize agentUnlockingSize, None)
          end
        | _ => Returns (0, Some ErrUnknownScriptTemplate)
        end
  end.

Definition InputSize (fuel : nat) (lockingScript : Script)
  : outcome (Z * option error) :=
  let* r := UnlockingScriptSize fuel lockingScript in
  match r with
  | (_, Some err) => Returns (0, Some err)
  | (scriptSize, None) =>
    Returns (i64 (InputBaseSize + VarIntSerializeSize (u64 scriptSize) + scriptSize),
             None)
  end.

Definition OutputSize (lockingScript : Script) : Z :=
  let scriptSize := len lockingScript in
  i64 (OutputBaseSize + VarIntSerializeSize (u64 scriptSize) + scriptSize).

(** The declaration a placeholder unlocking script carries, as the two
    loops below read it: [IsFalseOpReturn], a parse without error, and a
    message that is an [*UnlockingData].  The parser is called only on a
    false-op-return script. *)
Definition declaration (unlockingScript : Script)
  : outcome (option unlocking_data.UnlockingData) :=
  if IsFalseOpReturn unlockingScript then
    let* parsed := call (ProtocolsParse unlockingScript) in
    match parsed with
    | (Some (MsgUnlockingData unlockData), None) => Returns (Some unlockData)
    | _ => Returns None
    end
  else Returns None.

(** One iteration of the loop over [tx.Inputs] in [EstimatedSize]. *)
Definition EstimatedSize_input (fuel : nat) (tx : TxBuilder) (i : Z)
  (input : InputSupplement) (result : Z) : outcome Z :=
  let rest :=
    let* r := InputSize fuel (LockingScript input) in
    match r with
    | (_, Some _) => Returns (i64 (result + MaximumP2PKHInputSize))
    | (size, None) => Returns (i64 (result + size))
    end in
  if len (LockingScript input) =? 0 then
    let* txin := index (wire.TxIn_ (MsgTx tx)) i in
    let* declared := declaration (wire.UnlockingScript txin) in
    match declared with
    | Some unlockData =>
      Returns (i64 (result + i64 (InputBaseSize
                 + VarIntSerializeSize (unlocking_data.Size unlockData)
                 + i64 (unlocking_data.Size unlockData))))
    | None => rest
    end
  else rest.

Fixpoint EstimatedSize_inputs (fuel : nat) (tx : TxBuilder) (i : Z)
  (inputs : list InputSupplement) (result : Z) : outcome Z :=
  match inputs with
  | [] => Returns result
  | input :: inputs =>
    let* result := EstimatedSize_input fuel tx i input result in
    EstimatedSize_inputs fuel tx (i + 1) inputs result
  end.

Definition EstimatedSize (fuel : nat) (tx : TxBuilder) : outcome Z :=
  let result :=
    i64 (BaseTxSize + wire.VarIntSerializeSize (u64 (len (wire.TxIn_ (MsgTx tx))))
         + wire.VarIntSerializeSize (u64 (len (wire.TxOut_ (MsgTx tx))))) in
  let* result := EstimatedSize_inputs fuel tx 0 (Inputs tx) result in
  Returns (fold_left (fun result output => i64 (result + wire.TxOut_SerializeSize output))
             (wire.TxOut_ (MsgTx tx)) result).

(** One iteration of the loop in [InputValue]. *)
Definition InputValue_input (tx : TxBuilder) (i : Z) (input : InputSupplement)
  (inputValue : Z) : outcome Z :=
  let rest := Returns (u64 (inputValue + Value input)) in
  if Value input =? 0 then
    let* txin := index (wire.TxIn_ (MsgTx tx)) i in
    let* declared := declaration (wire.UnlockingScript txin) in
    match declared with
    | Some unlockData => Returns (u64 (inputValue + unlocking_data.Value unlockData))
    | None => rest
    end
  else rest.

Fixpoint InputValue_inputs (tx : TxBuilder) (i : Z) (inputs : list InputSupplement)
  (inputValue : Z) : outcome Z :=
  match inputs with
  | [] => Returns inputValue
  | input :: inputs =>
    let* inputValue := InputValue_input tx i input inputValue in
    InputValue_inputs tx (i + 1) inputs inputValue
  end.

Definition InputValue (tx : TxBuilder) : outcome Z :=
  InputValue_inputs tx 0 (Inputs tx) 0.

End Estimator.

Section Fees.
Context {PF : Platform}.

Definition EstimatedFeeValue (size : Z) (feeRate : float64) : Z :=
  to_uint64 (Ceil (mul (of_int size) feeRate)).

Definition EstimatedFeeValueDown (size : Z) (feeRate : float64) : Z :=
  to_uint64 (Floor (mul (of_int size) feeRate)).

End Fees.

Section Reconciler.
Context {ST : ScriptTemplates} {PF : Platform} {BD : Builder}.

(** The loop that looks for the change output: the index of the first
    supplement with [IsRemainder], else the initial value. *)
Fixpoint findChange (i : Z) (outputs : list OutputSupplement) (changeOutputIndex : Z) : Z :=
  match outputs with
  | [] => changeOutputIndex
  | output :: outputs =>
    if IsRemainder output then i else findChange (i + 1) outputs changeOutputIndex
  end.

Definition AdjustFee (fuel : nat) (tx : TxBuilder) (amount : Z)
  : outcome (TxBuilder * (bool * option error)) :=
  if amount =? 0 then Returns (tx, (true, None))
  else
    let done := false in
    let changeOutputIndex := findChange 0 (Outputs tx) 0xffffffff in
    if amount >? 0 then
      if changeOutputIndex =? 0xffffffff
      then Returns (tx, (false, Some (Wrap ErrInsufficientValue
                                        "No existing change for tx fee")))
      else
        let* out := index (wire.TxOut_ (MsgTx tx)) changeOutputIndex in
        if wire.Value out <? u64 amount
        then Returns (tx, (false, Some (Wrap ErrInsufficientValue
                                          "Not enough change for tx fee")))
        else
          let out := set_Value out (u64 (wire.Value out - u64 amount)) in
          let tx := set_TxOut tx (<[Z.to_nat changeOutputIndex := out]>
                                    (wire.TxOut_ (MsgTx tx))) in
          let '(outputFee, inputFee, _) :=
            OutputTotalCost (wire.LockingScript out) (FeeRate tx) in
          if wire.Value out <? u64 (outputFee + inputFee) then
            let* sup := index (Outputs tx) changeOutputIndex in
            if negb (addedForFee sup)
            then Returns (tx, (false, Some (Wrap ErrInsufficientValue
                                              "Not enough change for tx fee")))
            else
              let n := Z.to_nat changeOutputIndex in
              let tx := set_TxOut tx (take n (wire.TxOut_ (MsgTx tx))
                                      ++ drop (S n) (wire.TxOut_ (MsgTx tx))) in
              let tx := set_Outputs tx (take n (Outputs tx) ++ drop (S n) (Outputs tx)) in
              let done := true in
              Returns (tx, (done, None))
          else Returns (tx, (done, None))
    else
      if changeOutputIndex =? 0xffffffff then
        let* size := EstimatedSize fuel tx in
        let currentSize := u64 size in
        let currentFee := EstimatedFeeValue currentSize (of_float32 (FeeRate tx)) in
        let newSize :=
          if len (ChangeScript tx) =? 0
          then u64 (currentSize + P2PKHOutputSize)
          else u64 (currentSize + u64 (OutputSize (ChangeScript tx))) in
        let newFee := EstimatedFeeValue newSize (of_float32 (FeeRate tx)) in
        let changeOutputFee := u64 (newFee - currentFee) in
        if changeOutputFee >? u64 (i64 (- amount)) then Returns (tx, (true, None))
        else
          let adjustment := u64 (u64 (i64 (- amount)) - changeOutputFee) in
          let '(outputFee, inputFee) :=
            if len (ChangeScript tx) =? 0
            then (EstimatedFeeValue (P2PKHOutputSize * 2) (of_float32 (FeeRate tx)),
                  EstimatedFeeValue (u64 (MaximumP2PKHInputSize * 2))
                    (of_float32 (FeeRate tx)))
            else let '(outputFee, inputFee, _) :=
                   OutputTotalCost (ChangeScript tx) (FeeRate tx) in
                 (outputFee, inputFee) in
          if adjustment >? u64 (outputFee + inputFee) then
            if len (ChangeScript tx) =? 0
            then Returns (tx, (false, Some (Wrap ErrChangeAddressNeeded
                     ("Remaining: " ++ decimal (u64 (i64 (- amount)))))))
            else
              let '(tx, err) := AddOutput tx (ChangeScript tx) adjustment true false in
              match err with
              | Some err => Returns (tx, (false, Some err))
              | None =>
                let last := len (Outputs tx) - 1 in
                let* sup := index (Outputs tx) last in
                let sup := {| IsRemainder := IsRemainder sup;
                              IsDust := IsDust sup;
                              KeyID := ChangeKeyID tx;
                              addedForFee := true |} in
                let tx := set_Outputs tx (<[Z.to_nat last := sup]> (Outputs tx)) in
                Returns (tx, (done, None))
              end
          else
            let done := true in
            Returns (tx, (done, None))
      else
        let* out := index (wire.TxOut_ (MsgTx tx)) changeOutputIndex in
        let out := set_Value out (u64 (wire.Value out + u64 (i64 (- amount)))) in
        let tx := set_TxOut tx (<[Z.to_nat changeOutputIndex := out]>
                                  (wire.TxOut_ (MsgTx tx))) in
        Returns (tx, (done, None)).

End Reconciler.

(** The size constants of the other templates. *)
Definition MaximumP2RPHSigScriptSize : Z :=
  PublicKeyPushDataSize + MaxSignaturesPushDataSize.
Definition MaximumP2RPHInputSize : Z := InputBaseSize + 1 + MaximumP2RPHSigScriptSize.
Definition MaximumP2PKSigScriptSize : Z := MaxSignaturesPushDataSize.
Definition MaximumP2PKInputSize : Z := InputBaseSize + 1 + MaximumP2PKSigScriptSize.
Definition P2PKOutputScriptSize : Z := PublicKeyPushDataSize + 1.
Definition P2PKOutputSize : Z := OutputBaseSize + 1 + P2PKOutputScriptSize.
Definition DustInputSize : Z := 148.

Section Accounting.
Context {ST : ScriptTemplates} {PF : Platform} {BD : Builder}.

(** The loop of [OutputValue], from output [i] on.  [tx.Outputs[i]] is
    the right operand of [||]: it is read only when [includeChange] is
    false. *)
Fixpoint OutputValue_outputs (tx : TxBuilder) (includeChange : bool) (i : Z)
  (outputs : list wire.TxOut) (outputValue : Z) : outcome Z :=
  match outputs with
  | [] => Returns outputValue
  | output :: outputs =>
    let* counted :=
      (if includeChange then Returns true
       else let* sup := index (Outputs tx) i in Returns (negb (IsRemainder sup))) in
    OutputValue_outputs tx includeChange (i + 1) outputs
      (if counted then u64 (outputValue + wire.Value output) else outputValue)
  end.

Definition OutputValue (tx : TxBuilder) (includeChange : bool) : outcome Z :=
  OutputValue_outputs tx includeChange 0 (wire.TxOut_ (MsgTx tx)) 0.

(** The loop of [Remainder], from output [i] on. *)
Fixpoint Remainder_outputs (tx : TxBuilder) (i : Z) (outputs : list wire.TxOut)
  (value : Z) : outcome Z :=
  match outputs with
  | [] => Returns value
  | output :: outputs =>
    let* sup := index (Outputs tx) i in
    Remainder_outputs tx (i + 1) outputs
      (if IsRemainder sup
       then
         let value :=
           u64 (value + EstimatedFeeValueDown (u64 (wire.TxOut_SerializeSize output))
                          (of_float32 (FeeRate tx))) in
         u64 (value + wire.Value output)
       else value)
  end.

Definition Remainder (tx : TxBuilder) : outcome Z :=
  Remainder_outputs tx 0 (wire.TxOut_ (MsgTx tx)) 0.

(** The loop of [changeSum], from output [i] on. *)
Fixpoint changeSum_outputs (tx : TxBuilder) (i : Z) (outputs : list wire.TxOut)
  (value : Z) : outcome Z :=
  match outputs with
  | [] => Returns value
  | output :: outputs =>
    let* sup := index (Outputs tx) i in
    changeSum_outputs tx (i + 1) outputs
      (if IsRemainder sup then u64 (value + wire.Value output) else value)
  end.

Definition changeSum (tx : TxBuilder) : outcome Z :=
  changeSum_outputs tx 0 (wire.TxOut_ (MsgTx tx)) 0.

Definition Fee (tx : TxBuilder) : outcome Z :=
  let* o := OutputValue tx true in
  let* i := InputValue tx in
  if o >? i then Returns 0 else Returns (u64 (i - o)).

Definition ActualFee (tx : TxBuilder) : outcome Z :=
  let* o := OutputValue tx true in
  let o := i64 o in
  let* i := InputValue tx in
  let i := i64 i in
  Returns (i64 (i - o)).

Definition EstimatedFee (fuel : nat) (tx : TxBuilder) : outcome Z :=
  let* size := EstimatedSize fuel tx in
  Returns (EstimatedFeeValue (u64 size) (of_float32 (FeeRate tx))).

(** [AdjustFee]'s first result is dropped. *)
Definition CalculateFee (fuel : nat) (tx : TxBuilder)
  : outcome (TxBuilder * option error) :=
  let* estimated := EstimatedFee fuel tx in
  let* actual := ActualFee tx in
  let* r := AdjustFee fuel tx (i64 (i64 estimated - actual)) in
  Returns (fst r, snd (snd r)).

Definition ZeroizeFee (fuel : nat) (tx : TxBuilder)
  : outcome (TxBuilder * option error) :=
  let* actual := ActualFee tx in
  let* r := AdjustFee fuel tx (i64 (- actual)) in
  Returns (fst r, snd (snd r)).

End Accounting.

End txbuilder.

(** ** Package fees *)

Module fees.

Definition PublicKeyPushDataSize : Z := 34.
Definition MaxSignatureSize : Z := 73.
Definition MaxSignaturesPushDataSize : Z := 1 + MaxSignatureSize.

(** [bitcoin_interpreter.TransactionWithOutputs], the two methods the
    package calls; [InputOutput] returns [(txout, err)], [txout] a
    pointer. *)
Record TransactionWithOutputs : Type := {
  GetMsgTx : wire.MsgTx;
  InputOutput : Z -> option wire.TxOut * option error
}.

Section Fees.
Context {PF : Platform}.

(** [size] is an [int]. *)
Definition EstimateFeeValue (size : Z) (feeRate : float64) : Z :=
  to_uint64 (Ceil (mul (of_int size) feeRate)).

End Fees.

Section Estimator.
Context {ST : ScriptTemplates}.

Fixpoint EstimateUnlockingSize (fuel : nat) (lockingScript : Script)
  : outcome (Z * option error) :=
  match fuel with
  | O => OutOfFuel
  | S fuel =>
    if IsP2PK lockingScript then Returns (MaxSignaturesPushDataSize, None)
    else if IsP2PKH lockingScript
    then Returns (MaxSignaturesPushDataSize + PublicKeyPushDataSize, None)
    else
      let '(required, total, err) := MultiPKHCounts lockingScript in
      if is_nil err then
        Returns (i64 (i64 (u32 (total - required))
                      + i64 (i64 required
                             * (MaxSignaturesPushDataSize + PublicKeyPushDataSize + 1))),
                 None)
      else
        let* matched := call (MatchScript lockingScript) in
        let '(info, err) := matched in
        if negb (is_nil err) then
          match info with
          | None => Panics
          | Some info =>
            let* r := EstimateUnlockingSize fuel (AgentLockingScript info) in
            match r with
            | (_, Some err) => Returns (0, Some (Wrap err "agent"))
            | (agentUnlockingSize, None) =>
              Returns (ApproveUnlockingSize agentUnlockingSize, None)
            end
          end
        else Returns (0, Some ErrWrongScriptTemplate)
  end.

Definition InputValue (txin : wire.TxIn) (inputOutput : wire.TxOut)
  : outcome (Z * option error) :=
  if negb (wire.Value inputOutput =? 0) then Returns (wire.Value inputOutput, None)
  else if negb (IsFalseOpReturn (wire.UnlockingScript txin))
  then Returns (0, Some MissingUnlockingData)
  else
    let* parsed := call (ProtocolsParse (wire.UnlockingScript txin)) in
    let '(msg, err) := parsed in
    if negb (is_nil err) then Returns (0, Some MissingUnlockingData)
    else
      match msg with
      | Some (MsgUnlockingData unlockingData) =>
        Returns (unlocking_data.Size unlockingData, None)
      | _ => Returns (0, Some MissingUnlockingData)
      end.

(** The loop of [InputsValue], from input [inputIndex] on. *)
Fixpoint InputsValue_inputs (tx : TransactionWithOutputs) (inputIndex : Z)
  (txins : list wire.TxIn) (result : Z) : outcome (Z * option error) :=
  match txins with
  | [] => Returns (result, None)
  | txin :: txins =>
    let '(inputOutput, err) := InputOutput tx inputIndex in
    match err with
    | Some err => Returns (0, Some (Wrap err ("input " ++ decimal inputIndex ++ " output")))
    | None =>
      match inputOutput with
      | None => Panics
      | Some inputOutput =>
        let* value := InputValue txin inputOutput in
        let '(inputValue, err) := value in
        match err with
        | Some err =>
          Returns (0, Some (Wrap err ("input " ++ decimal inputIndex ++ " value")))
        | None =>
          InputsValue_inputs tx (inputIndex + 1) txins (u64 (result + inputValue))
        end
      end
    end
  end.

Definition InputsValue (tx : TransactionWithOutputs) : outcome (Z * option error) :=
  InputsValue_inputs tx 0 (wire.TxIn_ (GetMsgTx tx)) 0.

End Estimator.

Definition BaseTxSize : Z := 8.
(** [bitcoin.Hash32Size + 4 + 4] *)
Definition InputBaseSize : Z := 32 + 4 + 4.
Definition OutputBaseSize : Z := 8.
Definition DustInputSize : Z := 148.
Definition PublicKeyHashPushDataSize : Z := 21.

(** [bitcoin_interpreter.Unlocker], the method the package calls:
    [(size, err)]. *)
Record Unlocker : Type := {
  UnlockingSize : Script -> Z * option error
}.

Section Sizes.
Context {ST : ScriptTemplates} {PF : Platform}.

Definition EstimateInputSize (txin : wire.TxIn) (lockingScript : Script)
  (unlocker : Unlocker) : outcome (Z * option error) :=
  if negb (len lockingScript =? 0) then
    let '(unlockingSize, err) := UnlockingSize unlocker lockingScript in
    match err with
    | Some err => Returns (0, Some (Wrap err "unlocking size"))
    | None =>
      Returns
        (i64 (InputBaseSize + wire.VarIntSerializeSize (u64 unlockingSize) + unlockingSize),
         None)
    end
  else if negb (IsFalseOpReturn (wire.UnlockingScript txin))
  then Returns (0, Some MissingUnlockingData)
  else
    let* parsed := call (ProtocolsParse (wire.UnlockingScript txin)) in
    let '(msg, err) := parsed in
    if negb (is_nil err) then Returns (0, Some MissingUnlockingData)
    else
      match msg with
      | Some (MsgUnlockingData unlockingData) =>
        Returns
          (i64 (InputBaseSize + wire.VarIntSerializeSize (unlocking_data.Size unlockingData)
                + i64 (unlocking_data.Size unlockingData)),
           None)
      | _ => Returns (0, Some MissingUnlockingData)
      end.

(** The loop over [msgTx.TxIn] in [EstimateSize], from input [inputIndex] on. *)
Fixpoint EstimateSize_inputs (tx : TransactionWithOutputs) (unlocker : Unlocker)
  (inputIndex : Z) (txins : list wire.TxIn) (result : Z) : outcome (Z * option error) :=
  match txins with
  | [] => Returns (result, None)
  | txin :: txins =>
    let '(inputOutput, err) := InputOutput tx inputIndex in
    match err with
    | Some err => Returns (0, Some (Wrap err ("input " ++ decimal inputIndex ++ " output")))
    | None =>
      match inputOutput with
      | None => Panics
      | Some inputOutput =>
        let* estimated :=
          EstimateInputSize txin (wire.LockingScript inputOutput) unlocker in
        let '(inputSize, err) := estimated in
        match err with
        | Some err =>
          Returns (0, Some (Wrap err ("input " ++ decimal inputIndex ++ " size")))
        | None =>
          EstimateSize_inputs tx unlocker (inputIndex + 1) txins (i64 (result + inputSize))
        end
      end
    end
  end.

Definition EstimateSize (tx : TransactionWithOutputs) (unlocker : Unlocker)
  : outcome (Z * option error) :=
  let msgTx := GetMsgTx tx in
  let result :=
    i64 (BaseTxSize + wire.VarIntSerializeSize (u64 (len (wire.TxIn_ msgTx)))
         + wire.VarIntSerializeSize (u64 (len (wire.TxOut_ msgTx)))) in
  let* r := EstimateSize_inputs tx unlocker 0 (wire.TxIn_ msgTx) result in
  match r with
  | (_, Some err) => Returns (0, Some err)
  | (result, None) =>
    Returns (fold_left (fun result txout => i64 (result + wire.TxOut_SerializeSize txout))
               (wire.TxOut_ msgTx) result,
             None)
  end.

Definition EstimateFee (tx : TransactionWithOutputs) (unlocker : Unlocker)
  (feeRate : float64) : outcome (Z * option error) :=
  let* r := EstimateSize tx unlocker in
  match r with
  | (_, Some err) => Returns (0, Some (Wrap err "estimate size"))
  | (size, None) => Returns (EstimateFeeValue size feeRate, None)
  end.

Definition OutputsValue (tx : TransactionWithOutputs) : Z :=
  let msgTx := GetMsgTx tx in
  fold_left (fun result txout => u64 (result + wire.Value txout)) (wire.TxOut_ msgTx) 0.

Definition Fee (tx : TransactionWithOutputs) : outcome (Z * option error) :=
  let* r := InputsValue tx in
  match r with
  | (_, Some err) => Returns (0, Some err)
  | (inputsValue, None) =>
    let outputsValue := OutputsValue tx in
    Returns (i64 (i64 inputsValue - i64 outputsValue), None)
  end.

Definition InputSizeForUnlockingScriptSize (unlockingScriptSize : Z) : Z :=
  i64 (InputBaseSize + wire.VarIntSerializeSize (u64 unlockingScriptSize)
       + unlockingScriptSize).

Definition OutputSize (lockingScript : Script) : Z :=
  let scriptSize := len lockingScript in
  i64 (OutputBaseSize + wire.VarIntSerializeSize (u64 scriptSize) + scriptSize).

Definition OutputSizeForLockingScriptSize (lockingScriptSize : Z) : Z :=
  i64 (OutputBaseSize + wire.VarIntSerializeSize (u64 lockingScriptSize)
       + lockingScriptSize).

(** [dustFeeRate == 0] is the comparison of IEEE-754: true of both zeros,
    false of NaN. *)
Definition DustLimit (outputSize : Z) (dustFeeRate : float64) : Z :=
  if SFeqb dustFeeRate (S754_zero false) then 1
  else
    let dust := EstimateFeeValue (i64 (i64 (outputSize + DustInputSize) * 3)) dustFeeRate in
    if dust <? 1 then 1 else dust.

Definition DustLimitForOutput (output : wire.TxOut) (feeRate : float64) : Z :=
  DustLimit (wire.TxOut_SerializeSize output) feeRate.

(** The [TxOut] literal leaves [Value] at zero. *)
Definition DustLimitForLockingScript (lockingScript : Script) (feeRate : float64) : Z :=
  let output := {| wire.Value := 0; wire.LockingScript := lockingScript |} in
  DustLimitForOutput output feeRate.

Definition DustLimitForLockingScriptSize (lockingScriptSize : Z) (feeRate : float64) : Z :=
  DustLimit (OutputSizeForLockingScriptSize lockingScriptSize) feeRate.

Definition OutputFeeForLockingScript (lockingScript : Script) (feeRate : float64) : Z :=
  let output := {| wire.Value := 0; wire.LockingScript := lockingScript |} in
  let outputSize := wire.TxOut_SerializeSize output in
  EstimateFeeValue outputSize feeRate.

Definition OutputFeeAndDustForLockingScript (lockingScript : Script)
  (dustFeeRate feeRate : float64) : Z * Z :=
  let output := {| wire.Value := 0; wire.LockingScript := lockingScript |} in
  let outputSize := wire.TxOut_SerializeSize output in
  (EstimateFeeValue outputSize feeRate, DustLimit outputSize dustFeeRate).

Definition OutputSizeAndDustForLockingScript (lockingScript : Script)
  (dustFeeRate : float64) : Z * Z :=
  let output := {| wire.Value := 0; wire.LockingScript := lockingScript |} in
  let outputSize := wire.TxOut_SerializeSize output in
  (outputSize, DustLimit outputSize dustFeeRate).

End Sizes.

End fees.

(** ** A reference instance of the interfaces

    Standard Bitcoin templates and script numbers, a toy agent wrapper and
    a toy declaration parser: enough to run the definitions above.  The
    agent matcher panics on a conditional that is cut short ([OP_NOTIF]
    and one more byte), a script the estimators can be handed. *)

Module Reference.

Definition byte_of_Z (z : Z) : Byte.byte :=
  match Byte.of_N (Z.to_N (z mod 256)) with
  | Some b => b
  | None => Byte.x00
  end.

Definition Z_of_byte (b : Byte.byte) : Z := Z.of_N (Byte.to_N b).

(** Every unrepresentable conversion gives [0x8000000000000000]. *)
Instance platform : Platform := {|
  unrepresentable_uint64 := fun _ => 2 ^ 63
|}.

(** [OP_DUP OP_HASH160 <20 bytes> OP_EQUALVERIFY OP_CHECKSIG] *)
Definition is_p2pkh (s : Script) : bool :=
  match s with
  | Byte.x76 :: Byte.xa9 :: Byte.x14 :: rest =>
    (length rest =? 22)%nat && bytes_Equal (drop 20 rest) [Byte.x88; Byte.xac]
  | _ => false
  end.

(** [<33 bytes> OP_CHECKSIG] *)
Definition is_p2pk (s : Script) : bool :=
  match s with
  | Byte.x21 :: rest => (length rest =? 34)%nat && bytes_Equal (drop 33 rest) [Byte.xac]
  | _ => false
  end.

(** A trailing [OP_CHECKSIGVERIFY] becomes [OP_CHECKSIG], a trailing
    [OP_VERIFY] is dropped. *)
Fixpoint remove_hard_verify (s : Script) : Script :=
  match s with
  | [] => []
  | [Byte.xad] => [Byte.xac]
  | [Byte.x69] => []
  | b :: rest => b :: remove_hard_verify rest
  end.

Instance templates : ScriptTemplates := {|
  IsP2PK := is_p2pk;
  IsP2PKH := is_p2pkh;
  MultiPKHCounts := fun _ => ((0, 0), Some (ErrExternal "not multi-pkh"));
  MatchScript := fun s =>
    match s with
    | Byte.xc0 :: inner => Result (Some {| AgentLockingScript := inner |}, None)
    | [Byte.x64; _] => Panic
    | _ => Result (None, Some (ErrExternal "script not matching"))
    end;
  RemoveHardVerify := remove_hard_verify;
  ApproveUnlockingSize := fun n => i64 (n + 75);
  IsFalseOpReturn := fun s =>
    match s with
    | Byte.x00 :: Byte.x6a :: _ => true
    | _ => false
    end;
  ProtocolsParse := fun s =>
    match s with
    | [Byte.x00; Byte.x6a; size; value] =>
      Result
        (Some (MsgUnlockingData {| unlocking_data.Size := Z_of_byte size;
                                   unlocking_data.Value := 100 * Z_of_byte value |}), None)
    | _ => Result (None, None)
    end
|}.

(** Little-endian bytes of a non-negative number, at most [n] of them. *)
Fixpoint le_bytes (n : nat) (z : Z) : list Byte.byte :=
  match n with
  | O => []
  | S n => if z =? 0 then [] else byte_of_Z z :: le_bytes n (z / 256)
  end.

Fixpoint le_value (l : list Byte.byte) : Z :=
  match l with
  | [] => 0
  | b :: l => Z_of_byte b + 256 * le_value l
  end.

Definition top_bit_set (l : list Byte.byte) : bool :=
  match last l with
  | Some b => 128 <=? Z_of_byte b
  | None => false
  end.

Definition op_item (op : Z) : ScriptItem :=
  {| Type_ := ScriptItemTypeOpCode; OpCode := byte_of_Z op; Data_ := [] |}.

Definition push_item (data : list Byte.byte) : ScriptItem :=
  {| Type_ := ScriptItemTypePushData; OpCode := Byte.x00; Data_ := data |}.

(** Script numbers: [OP_0], [OP_1NEGATE], [OP_1] .. [OP_16], or a push of
    the magnitude in little-endian bytes, the top bit of the last byte
    being the sign: a magnitude of [2^63] or more takes 8 bytes and a
    ninth for the sign.  The unsigned reader takes at most 8 bytes, the
    width of a [uint64]. *)
Definition push_number (n : Z) : ScriptItem :=
  if n =? 0 then op_item 0x00
  else if n =? -1 then op_item 0x4f
  else if (0 <? n) && (n <=? 16) then op_item (0x50 + n)
  else
    let mag := le_bytes 8 (Z.abs n) in
    if top_bit_set mag
    then push_item (mag ++ [if n <? 0 then Byte.x80 else Byte.x00])
    else if n <? 0
         then push_item (removelast mag
                ++ [byte_of_Z (128 + match last mag with
                                     | Some b => Z_of_byte b
                                     | None => 0
                                     end)])
         else push_item mag.

Definition number_value (item : ScriptItem) : Z * option error :=
  match Type_ item with
  | ScriptItemTypeOpCode =>
    let op := Z_of_byte (OpCode item) in
    if op =? 0x00 then (0, None)
    else if op =? 0x4f then (-1, None)
    else if (0x51 <=? op) && (op <=? 0x60) then (op - 0x50, None)
    else (0, Some (ErrExternal "not a number"))
  | ScriptItemTypePushData =>
    let data := Data_ item in
    if (9 <? len data) then (0, Some (ErrExternal "number too large"))
    else if top_bit_set data
    then (i64 (- (le_value data - 128 * 256 ^ (len data - 1))), None)
    else (i64 (le_value data), None)
  end.

Definition number_value_unsigned (item : ScriptItem) : Z * option error :=
  match Type_ item with
  | ScriptItemTypeOpCode =>
    let op := Z_of_byte (OpCode item) in
    if op =? 0x00 then (0, None)
    else if (0x51 <=? op) && (op <=? 0x60) then (op - 0x50, None)
    else (0, Some (ErrExternal "not an unsigned number"))
  | ScriptItemTypePushData =>
    let data := Data_ item in
    if (8 <? len data) then (0, Some (ErrExternal "more than 8 bytes"))
    else if top_bit_set data then (0, Some (ErrExternal "negative number"))
    else (u64 (le_value data), None)
  end.

Instance numbers : ScriptNumbers := {|
  PushNumberScriptItem := push_number;
  PushNumberScriptItemUnsigned := push_number;
  ScriptNumberValue := number_value;
  ScriptNumberValueUnsigned := number_value_unsigned
|}.

Import txbuilder.

(** Modelled from the spec: [AddOutput] and [OutputTotalCost], whose
    source is not among the files. [AddOutput] appends an output with the
    script, the value and the remainder flag it is given, and refuses a
    value below the dust limit ("dustLimit(outputSize, dustRate)", at the
    builder's dust rate) with [ErrBelowDustValue], the builder left as it
    is; [OutputTotalCost] is "outputFee =
    feeForSize(outputSize(lockingScript), rate); inputFee =
    feeForSize(inputSize(lockingScript), rate)", and zeros with the error
    when the template is not recognised. *)
Definition add_output (tx : TxBuilder) (lockingScript : Script) (value : Z)
  (isRemainder isDust : bool) : TxBuilder * option error :=
  let dust := fees.DustLimitForLockingScript lockingScript (of_float32 (DustFeeRate tx)) in
  if value <? dust
  then (tx, Some (Wrap ErrBelowDustValue (decimal value ++ " < " ++ decimal dust)))
  else
    let tx := set_TxOut tx (wire.TxOut_ (MsgTx tx)
                ++ [{| wire.Value := value; wire.LockingScript := lockingScript |}]) in
    let tx := set_Outputs tx (Outputs tx
                ++ [{| IsRemainder := isRemainder; IsDust := isDust;
                       KeyID := ""; addedForFee := false |}]) in
    (tx, None).

Definition output_total_cost (lockingScript : Script) (feeRate : float32)
  : (Z * Z) * option error :=
  match InputSize (S (length lockingScript)) lockingScript with
  | Returns (inputSize, None) =>
    ((EstimatedFeeValue (u64 (OutputSize lockingScript)) (of_float32 feeRate),
      EstimatedFeeValue (u64 inputSize) (of_float32 feeRate)), None)
  | Returns (_, Some err) => ((0, 0), Some err)
  | _ => ((0, 0), Some (ErrExternal "input size"))
  end.

Instance builder : Builder := {|
  OutputTotalCost := output_total_cost;
  AddOutput := add_output
|}.

(** 0.05 and 0.5 as [float32] and 0.1, 1/3, 4 and 1.5 as [float64]. *)
Definition rate_0_05 : float32 := S754_finite false 13421773 (-28).
Definition rate_0_5 : float32 := S754_finite false 8388608 (-24).
Definition f64_0_1 : float64 := S754_finite false 7205759403792794 (-56).
Definition f64_third : float64 := S754_finite false 6004799503160661 (-54).
Definition f64_4 : float64 := S754_finite false 4503599627370496 (-50).
Definition f64_1_5 : float64 := S754_finite false 6755399441055744 (-52).

Definition zeros (n : nat) : list Byte.byte := repeat Byte.x00 n.

Definition p2pkh_script : Script :=
  [Byte.x76; Byte.xa9; Byte.x14] ++ zeros 20 ++ [Byte.x88; Byte.xac].

(** A key-hash script that ends in [OP_CHECKSIGVERIFY], wrapped. *)
Definition agent_script : Script :=
  Byte.xc0 :: [Byte.x76; Byte.xa9; Byte.x14] ++ zeros 20 ++ [Byte.x88; Byte.xad].

Definition change_supplement (added : bool) : OutputSupplement :=
  {| IsRemainder := true; IsDust := false; KeyID := ""; addedForFee := added |}.

Definition payment_supplement : OutputSupplement :=
  {| IsRemainder := false; IsDust := false; KeyID := ""; addedForFee := false |}.

Definition p2pkh_output (value : Z) : wire.TxOut :=
  {| wire.Value := value; wire.LockingScript := p2pkh_script |}.

(** A builder at fee rate 0.5 with the given outputs and change script. *)
Definition builder_of (outs : list wire.TxOut) (sups : list OutputSupplement)
  (changeScript : Script) : TxBuilder :=
  {| MsgTx := {| wire.Version := 1; wire.TxIn_ := []; wire.TxOut_ := outs;
                 wire.LockTime := 0 |};
     Inputs := [];
     Outputs := sups;
     ChangeScript := changeScript;
     ChangeKeyID := "change";
     FeeRate := rate_0_5;
     DustFeeRate := rate_0_5 |}.

(** A payment of 5000 followed by a change output of [value]. *)
Definition tx_with_change (value : Z) (added : bool) : TxBuilder :=
  builder_of [p2pkh_output 5000; p2pkh_output value]
    [payment_supplement; change_supplement added] p2pkh_script.

(** A payment of 5000 and no change output. *)
Definition tx_without_change (changeScript : Script) : TxBuilder :=
  builder_of [p2pkh_output 5000] [payment_supplement] changeScript.

(** An input whose output is not known and whose unlocking script
    declares a size of 108 and a value of 5000. *)
Definition declared_txin : wire.TxIn :=
  {| wire.PreviousOutPoint := ([], 0);
     wire.UnlockingScript := [Byte.x00; Byte.x6a; Byte.x6c; Byte.x32];
     wire.Sequence := 0 |}.

Definition unknown_input : InputSupplement := {| LockingScript := []; Value := 0 |}.

Definition tx_with_declared_input : TxBuilder :=
  {| MsgTx := {| wire.Version := 1; wire.TxIn_ := [declared_txin];
                 wire.TxOut_ := []; wire.LockTime := 0 |};
     Inputs := [unknown_input];
     Outputs := [];
     ChangeScript := [];
     ChangeKeyID := "";
     FeeRate := rate_0_5;
     DustFeeRate := rate_0_5 |}.

(** The templates above, and scripts [0xc1 required total] taken as
    multi-PKH scripts with these counts. *)
Definition multi_templates : ScriptTemplates := {|
  IsP2PK := is_p2pk;
  IsP2PKH := is_p2pkh;
  MultiPKHCounts := fun s =>
    match s with
    | [Byte.xc1; required; total] => ((Z_of_byte required, Z_of_byte total), None)
    | _ => ((0, 0), Some (ErrExternal "not multi-pkh"))
    end;
  MatchScript := MatchScript;
  RemoveHardVerify := RemoveHardVerify;
  ApproveUnlockingSize := ApproveUnlockingSize;
  IsFalseOpReturn := IsFalseOpReturn;
  ProtocolsParse := ProtocolsParse
|}.

(** [<33 bytes> OP_CHECKSIG] *)
Definition p2pk_script : Script := Byte.x21 :: zeros 33 ++ [Byte.xac].

(** An input of 6000 locked by a key hash, and its wire input. *)
Definition funded_input : InputSupplement :=
  {| LockingScript := p2pkh_script; Value := 6000 |}.

Definition plain_txin : wire.TxIn :=
  {| wire.PreviousOutPoint := ([], 0); wire.UnlockingScript := []; wire.Sequence := 0 |}.

(** A builder at fee rate 0.5 that spends [funded_input]. *)
Definition funded_builder (outs : list wire.TxOut) (sups : list OutputSupplement)
  (changeScript : Script) : TxBuilder :=
  {| MsgTx := {| wire.Version := 1; wire.TxIn_ := [plain_txin]; wire.TxOut_ := outs;
                 wire.LockTime := 0 |};
     Inputs := [funded_input];
     Outputs := sups;
     ChangeScript := changeScript;
     ChangeKeyID := "change";
     FeeRate := rate_0_5;
     DustFeeRate := rate_0_5 |}.

(** A payment of 5000 followed by a change output of [value], and the
    payment alone. *)
Definition funded_with_change (value : Z) (added : bool) : TxBuilder :=
  funded_builder [p2pkh_output 5000; p2pkh_output value]
    [payment_supplement; change_supplement added] p2pkh_script.

Definition funded_without_change : TxBuilder :=
  funded_builder [p2pkh_output 5000] [payment_supplement] p2pkh_script.

(** A builder with the given supplements for two wire inputs. *)
Definition two_input_builder (inputs : list InputSupplement) : TxBuilder :=
  {| MsgTx := {| wire.Version := 1; wire.TxIn_ := [plain_txin; plain_txin];
                 wire.TxOut_ := [p2pkh_output 5000]; wire.LockTime := 0 |};
     Inputs := inputs;
     Outputs := [payment_supplement];
     ChangeScript := p2pkh_script;
     ChangeKeyID := "change";
     FeeRate := rate_0_5;
     DustFeeRate := rate_0_5 |}.

(** An input whose locking script the agent matcher panics on. *)
Definition hostile_input : InputSupplement :=
  {| LockingScript := [Byte.x64; Byte.x51]; Value := 6000 |}.

(** A builder whose only supplement has no wire input. *)
Definition orphan_builder : TxBuilder :=
  {| MsgTx := {| wire.Version := 1; wire.TxIn_ := []; wire.TxOut_ := [];
                 wire.LockTime := 0 |};
     Inputs := [unknown_input];
     Outputs := [];
     ChangeScript := [];
     ChangeKeyID := "change";
     FeeRate := rate_0_5;
     DustFeeRate := rate_0_5 |}.

(** A builder as package fees sees it: the output spent by input [i] is
    the one supplement [i] describes. *)
Definition spent_tx (b : TxBuilder) : fees.TransactionWithOutputs :=
  {| fees.GetMsgTx := MsgTx b;
     fees.InputOutput := fun i =>
       match (if i <? 0 then None else Inputs b !! Z.to_nat i) with
       | Some input =>
         (Some {| wire.Value := Value input; wire.LockingScript := LockingScript input |},
          None)
       | None => (None, Some (ErrExternal "missing input"))
       end |}.

(** An unlocker that answers as [UnlockingScriptSize] does. *)
Definition unlocker : fees.Unlocker :=
  {| fees.UnlockingSize := fun s =>
       match UnlockingScriptSize (S (length s)) s with
       | Returns r => r
       | _ => (0, Some (ErrExternal "unlocking size"))
       end |}.

Definition f64_1 : float64 := S754_finite false 4503599627370496 (-52).

End Reference.

(** ** Vocabulary of the statements *)

Import txbuilder.

(** [k] is the position of the first output flagged [IsRemainder]. *)
Definition first_change (outputs : list OutputSupplement) (k : nat) : Prop :=
  (exists sup, outputs !! k = Some sup /\ IsRemainder sup = true) /\
  forall j sup, (j < k)%nat -> outputs !! j = Some sup -> IsRemainder sup = false.

(** No output is flagged [IsRemainder]. *)
Definition no_change (outputs : list OutputSupplement) : Prop :=
  forall j sup, outputs !! j = Some sup -> IsRemainder sup = false.

(** The builder after [AdjustFee] lowered or raised the value of output [k]. *)
Definition with_value (tx : TxBuilder) (k : nat) (out : wire.TxOut) (v : Z) : TxBuilder :=
  set_TxOut tx (<[k := set_Value out v]> (wire.TxOut_ (MsgTx tx))).

(** The builder without output [k]. *)
Definition without_output (tx : TxBuilder) (k : nat) : TxBuilder :=
  set_Outputs (set_TxOut tx (delete k (wire.TxOut_ (MsgTx tx))))
    (delete k (Outputs tx)).

(** The builder with one more output at the end. *)
Definition with_output (tx : TxBuilder) (o : wire.TxOut) (sup : OutputSupplement)
  : TxBuilder :=
  set_Outputs (set_TxOut tx (wire.TxOut_ (MsgTx tx) ++ [o])) (Outputs tx ++ [sup]).

(** The supplement of the change output [AdjustFee] creates. *)
Definition reconciler_change (tx : TxBuilder) (sup : OutputSupplement) : OutputSupplement :=
  {| IsRemainder := IsRemainder sup; IsDust := IsDust sup;
     KeyID := ChangeKeyID tx; addedForFee := true |}.

(** The quantities [AdjustFee] computes when it considers adding a change
    output to a transaction of estimated size [size]: the fee now, the
    fee with one more output, their difference, and the cost of the change
    output (to create it now and to spend it later). *)
Section Quantities.
Context {PF : Platform} {BD : Builder}.

Definition currentFee (tx : TxBuilder) (size : Z) : Z :=
  EstimatedFeeValue (u64 size) (of_float32 (FeeRate tx)).

Definition hypotheticalFee (tx : TxBuilder) (size : Z) : Z :=
  EstimatedFeeValue
    (if len (ChangeScript tx) =? 0
     then u64 (u64 size + P2PKHOutputSize)
     else u64 (u64 size + u64 (OutputSize (ChangeScript tx))))
    (of_float32 (FeeRate tx)).

Definition inducedCost (tx : TxBuilder) (size : Z) : Z :=
  u64 (hypotheticalFee tx size - currentFee tx size).

Definition changeCost (tx : TxBuilder) : Z :=
  if len (ChangeScript tx) =? 0
  then u64 (EstimatedFeeValue (P2PKHOutputSize * 2) (of_float32 (FeeRate tx))
            + EstimatedFeeValue (u64 (MaximumP2PKHInputSize * 2))
                (of_float32 (FeeRate tx)))
  else u64 (fst (fst (OutputTotalCost (ChangeScript tx) (FeeRate tx)))
            + snd (fst (OutputTotalCost (ChangeScript tx) (FeeRate tx)))).

End Quantities.

(** [AddOutput] appends the output it is given, with the remainder flag
    it is given, or fails and leaves the builder as it is. *)
Definition AddOutput_appends {BD : Builder} : Prop :=
  forall tx lockingScript value isRemainder isDust,
    match AddOutput tx lockingScript value isRemainder isDust with
    | (tx1, Some _) => tx1 = tx
    | (tx1, None) =>
      exists sup,
        tx1 = with_output tx {| wire.Value := value; wire.LockingScript := lockingScript |} sup
        /\ IsRemainder sup = isRemainder
    end.

(** What a call of [AdjustFee] may have done to the builder: nothing, a
    new value for the first change output, the removal of the first change
    output when the reconciler had added it, or one more output. *)
Inductive adjusted (tx tx' : TxBuilder) : Prop :=
| adjusted_none :
    tx' = tx -> adjusted tx tx'
| adjusted_value (k : nat) (out : wire.TxOut) (v : Z) :
    first_change (Outputs tx) k ->
    wire.TxOut_ (MsgTx tx) !! k = Some out ->
    tx' = with_value tx k out v -> adjusted tx tx'
| adjusted_deleted (k : nat) (out : wire.TxOut) (sup : OutputSupplement) :
    first_change (Outputs tx) k ->
    wire.TxOut_ (MsgTx tx) !! k = Some out ->
    Outputs tx !! k = Some sup ->
    addedForFee sup = true ->
    tx' = without_output tx k -> adjusted tx tx'
| adjusted_created (o : wire.TxOut) (sup : OutputSupplement) :
    tx' = with_output tx o sup -> adjusted tx tx'.

(** Every output of [tx] is still at its position in [tx'], with its
    locking script and its supplement, and no list is shorter. *)
Definition keeps_outputs (tx tx' : TxBuilder) : Prop :=
  (length (wire.TxOut_ (MsgTx tx)) <= length (wire.TxOut_ (MsgTx tx')))%nat
  /\ (length (Outputs tx) <= length (Outputs tx'))%nat
  /\ (forall j o,
        wire.TxOut_ (MsgTx tx) !! j = Some o ->
        exists o', wire.TxOut_ (MsgTx tx') !! j = Some o'
                   /\ wire.LockingScript o' = wire.LockingScript o)
  /\ (forall j s, Outputs tx !! j = Some s -> Outputs tx' !! j = Some s).

(** [tx'] is [tx] without its first change output, which the reconciler
    had added. *)
Definition deletes_reconciler_change (tx tx' : TxBuilder) : Prop :=
  exists k out sup,
    first_change (Outputs tx) k
    /\ wire.TxOut_ (MsgTx tx) !! k = Some out
    /\ Outputs tx !! k = Some sup
    /\ addedForFee sup = true
    /\ tx' = without_output tx k.

(** What [AdjustFee] does after [AddOutput] succeeded: the supplement at
    the end gets the change key and the [addedForFee] flag. *)
Definition mark_last (tx1 : TxBuilder) : outcome TxBuilder :=
  let* sup := index (Outputs tx1) (len (Outputs tx1) - 1) in
  Returns (set_Outputs tx1 (<[Z.to_nat (len (Outputs tx1) - 1) := reconciler_change tx1 sup]>
                              (Outputs tx1))).

(** The unsigned script number functions read [v] back from the item
    they push for it. *)
Definition reads_back {SN : ScriptNumbers} (v : Z) : Prop :=
  ScriptNumberValueUnsigned (PushNumberScriptItemUnsigned v) = (v, None).

(** ** Vocabulary of the statements about sums, sizes and package fees *)

(** Congruence modulo [2^64], the arithmetic of [uint64] and [int64]. *)
Definition eqm64 (a b : Z) : Prop := a mod 2 ^ 64 = b mod 2 ^ 64.

(** The sum of the values of the outputs. *)
Definition total_value (outs : list wire.TxOut) : Z :=
  fold_right (fun o a => wire.Value o + a) 0 outs.

(** The sum of [f] over the outputs whose supplement satisfies [keep],
    outputs and supplements being paired by position. *)
Fixpoint flagged_sum (f : wire.TxOut -> Z) (keep : OutputSupplement -> bool)
  (sups : list OutputSupplement) (outs : list wire.TxOut) {struct outs} : Z :=
  match outs, sups with
  | o :: outs, s :: sups => (if keep s then f o else 0) + flagged_sum f keep sups outs
  | _, _ => 0
  end.

Section FeeTerms.
Context {PF : Platform}.

(** What [Remainder] adds for an output: the floored fee of its bytes. *)
Definition fee_down_of (tx : TxBuilder) (o : wire.TxOut) : Z :=
  EstimatedFeeValueDown (u64 (wire.TxOut_SerializeSize o)) (of_float32 (FeeRate tx)).

Definition remainder_of (tx : TxBuilder) (o : wire.TxOut) : Z :=
  fee_down_of tx o + wire.Value o.

End FeeTerms.

(** The sum of the values of the input supplements. *)
Definition total_input_value (inputs : list InputSupplement) : Z :=
  fold_right (fun input a => Value input + a) 0 inputs.

(** The fuel is enough for the recursion of [UnlockingScriptSize] on the
    locking scripts of these inputs. *)
Definition enough_fuel {ST : ScriptTemplates} (fuel : nat) (inputs : list InputSupplement)
  : Prop :=
  Forall (fun input => InputSize fuel (LockingScript input) <> OutOfFuel) inputs.

(** The protocol parser returns on the unlocking scripts of these wire
    inputs, where the loops call it. *)
Definition parses {ST : ScriptTemplates} (txins : list wire.TxIn) : Prop :=
  Forall (fun txin => declaration (wire.UnlockingScript txin) <> Panics) txins.

(** [InputSize] returns on the locking scripts of these inputs: the fuel
    is enough and the matcher of agent scripts does not panic. *)
Definition sizes_return {ST : ScriptTemplates} (fuel : nat) (inputs : list InputSupplement)
  : Prop :=
  Forall (fun input => exists r, InputSize fuel (LockingScript input) = Returns r) inputs.

(** The builder [b] and the transaction [tx] of package fees describe
    the same inputs: the same [MsgTx], a supplement for every wire input,
    and [InputOutput] giving the locking script of the supplement. *)
Definition same_inputs (b : TxBuilder) (tx : fees.TransactionWithOutputs) : Prop :=
  MsgTx b = fees.GetMsgTx tx
  /\ length (Inputs b) = length (wire.TxIn_ (MsgTx b))
  /\ forall i input,
       Inputs b !! i = Some input ->
       exists o, fees.InputOutput tx (Z.of_nat i) = (Some o, None)
                 /\ wire.LockingScript o = LockingScript input.

(** The unlocker answers on the locking scripts of the builder as
    [UnlockingScriptSize] does. *)
Definition unlocker_agrees {ST : ScriptTemplates} (fuel : nat) (b : TxBuilder)
  (unlocker : fees.Unlocker) : Prop :=
  forall i input,
    Inputs b !! i = Some input ->
    UnlockingScriptSize fuel (LockingScript input)
    = Returns (fees.UnlockingSize unlocker (LockingScript input)).

(** [InputOutput] knows the outputs [outs] spent by the first inputs, in
    order. *)
Definition spends_first (tx : fees.TransactionWithOutputs) (outs : list wire.TxOut) : Prop :=
  forall i o, outs !! i = Some o -> fees.InputOutput tx (Z.of_nat i) = (Some o, None).

(** ** Vocabulary of rounding

    The terms in which the binary64 operations are described: the shift
    [binary_round_aux] applies to a mantissa [m] with exponent [e], the
    mantissa rounded to nearest (ties to even) after a shift by [k] bits,
    and the rational value of a mantissa and an exponent. *)

(** The record after [S k] steps of [shr_1] from [m]. *)
Definition shifted (m : Z) (k : nat) : shr_record :=
  {| shr_m := m / 2 ^ Z.of_nat (S k);
     shr_r := Z.odd (m / 2 ^ Z.of_nat k);
     shr_s := negb (m mod 2 ^ Z.of_nat k =? 0) |}.

(** Round to nearest, ties to even, of [m / 2^k]. *)
Definition rne (m k : Z) : Z :=
  let q := m / 2 ^ k in
  let low := m mod 2 ^ k in
  if 2 * low <? 2 ^ k then q
  else if 2 ^ k <? 2 * low then q + 1
  else if Z.even q then q else q + 1.

Definition raw_shift (m e : Z) : Z := fexp prec emax (Zdigits2 m + e) - e.
Definition shift_of (m e : Z) : Z := Z.max 0 (raw_shift m e).

(** [m * 2^e], and that value rounded to binary64. *)
Definition val (m e : Z) : Q := (inject_Z m * 2 ^ e)%Q.

Definition RNval (m e : Z) : Q :=
  val (rne m (shift_of m e)) (e + shift_of m e).

(** [2^-53], the largest relative change of a rounding to 53 bits. *)
Definition unit_roundoff : Q := (1 # 9007199254740992)%Q.

(** The floats the fee functions meet: zero or positive with a mantissa
    of at most 53 bits. *)
Definition small_nonneg (x : float64) : Prop :=
  match x with
  | S754_zero _ => True
  | S754_finite s q _ => s = false /\ Zpos q < 2 ^ 53
  | _ => False
  end.

(** ** Basic facts *)

Lemma u64_id (z : Z) : is_u64 z -> u64 z = z.
Proof. unfold is_u64, u64. intros H. apply Z.mod_small. lia. Qed.

Lemma u64_range (z : Z) : is_u64 (u64 z).
Proof. unfold is_u64, u64. apply Z.mod_pos_bound. lia. Qed.

Lemma i64_id (z : Z) : is_i64 z -> i64 z = z.
Proof.
  unfold is_i64, i64. intros H.
  rewrite Z.mod_small by lia. lia.
Qed.

(** [uint64(-amount)] for a negative [int64] is the magnitude, also at
    the least [int64]. *)
Lemma u64_neg_amount (amount : Z) :
  is_i64 amount -> amount < 0 -> u64 (i64 (- amount)) = - amount.
Proof.
  unfold is_i64, u64, i64. intros H Hneg.
  destruct (Z.eq_dec amount (- 2 ^ 63)) as [-> | Hne].
  - reflexivity.
  - rewrite (Z.mod_small (- amount + 2 ^ 63)) by lia.
    rewrite Z.mod_small; lia.
Qed.

Lemma index_lookup {A : Type} (l : list A) (k : nat) (a : A) :
  l !! k = Some a -> index l (Z.of_nat k) = Returns a.
Proof.
  intros H. unfold index.
  destruct (Z.ltb_spec (Z.of_nat k) 0) as [Hlt | _]; [lia |].
  rewrite Nat2Z.id, H. reflexivity.
Qed.

Lemma findChange_first (outputs : list OutputSupplement) :
  forall (k : nat) (i d : Z),
    first_change outputs k -> findChange i outputs d = i + Z.of_nat k.
Proof.
  induction outputs as [| o outputs IH]; intros k i d [[sup [Hk Hrem]] Hbefore].
  - discriminate Hk.
  - destruct k as [| k]; simpl.
    + injection Hk as ->. rewrite Hrem. lia.
    + rewrite (Hbefore 0%nat o) by (simpl; auto || lia).
      rewrite (IH k (i + 1) d).
      * lia.
      * split; [exists sup; auto |].
        intros j s Hj Hs. apply (Hbefore (S j) s); [lia | exact Hs].
Qed.

Lemma findChange_none (outputs : list OutputSupplement) :
  forall (i d : Z), no_change outputs -> findChange i outputs d = d.
Proof.
  induction outputs as [| o outputs IH]; intros i d Hnone; simpl; [reflexivity |].
  rewrite (Hnone 0%nat o) by reflexivity.
  apply IH. intros j s Hs. apply (Hnone (S j) s). exact Hs.
Qed.

(** What the loop returns is the default or a position in the list. *)
Lemma findChange_cases (outputs : list OutputSupplement) (d : Z) :
  (no_change outputs /\ findChange 0 outputs d = d)
  \/ exists k, first_change outputs k /\ findChange 0 outputs d = Z.of_nat k.
Proof.
  assert (H : forall i, (no_change outputs /\ findChange i outputs d = d)
            \/ exists k, first_change outputs k
                         /\ findChange i outputs d = i + Z.of_nat k).
  { induction outputs as [| o outputs IH]; intros i.
    - left. split; [intros j s Hs; discriminate Hs | reflexivity].
    - simpl. destruct (IsRemainder o) eqn:Ho.
      + right. exists 0%nat. split; [| lia].
        split; [exists o; auto | intros j s Hj; lia].
      + destruct (IH (i + 1)) as [[Hn He] | [k [Hk He]]].
        * left. split; [| exact He].
          intros [| j] s Hs; [injection Hs as <-; exact Ho | exact (Hn j s Hs)].
        * right. exists (S k). split; [| lia].
          destruct Hk as [[sup [Hs Hr]] Hb].
          split; [exists sup; auto |].
          intros [| j] s Hj Hjs; [injection Hjs as <-; exact Ho |].
          apply (Hb j s); [lia | exact Hjs]. }
  destruct (H 0) as [Hn | [k [Hk He]]]; [left; exact Hn | right; exists k; auto].
Qed.

Lemma delete_take_drop_S {A : Type} (l : list A) (k : nat) :
  take k l ++ drop (S k) l = delete k l.
Proof. symmetry. apply delete_take_drop. Qed.

(** ** AdjustFee: raising the fee *)

Section Increase.
Context {ST : ScriptTemplates} {PF : Platform} {BD : Builder}.
Variables (fuel : nat) (tx : TxBuilder) (amount : Z) (k : nat).
Variables (out : wire.TxOut) (sup : OutputSupplement).
Hypothesis Hpos : 0 < amount.
Hypothesis Hamount : is_i64 amount.
Hypothesis Hfirst : first_change (Outputs tx) k.
Hypothesis Hsentinel : Z.of_nat k <> 0xffffffff.
Hypothesis Hsup : Outputs tx !! k = Some sup.
Hypothesis Hout : wire.TxOut_ (MsgTx tx) !! k = Some out.
Hypothesis Hvalue : is_u64 (wire.Value out).

(** Not enough change: an error and no mutation. *)
Lemma AdjustFee_increase_short :
  wire.Value out < amount ->
  AdjustFee fuel tx amount
  = Returns (tx, (false, Some (Wrap ErrInsufficientValue "Not enough change for tx fee"))).
Proof.
  intros Hlt. unfold AdjustFee.
  destruct (Z.eqb_spec amount 0) as [? | _]; [lia |].
  rewrite (findChange_first _ k 0 _ Hfirst), Z.add_0_l.
  destruct (Z.gtb_spec amount 0) as [_ | ?]; [| lia].
  destruct (Z.eqb_spec (Z.of_nat k) 0xffffffff) as [? | _]; [contradiction |].
  rewrite (index_lookup _ _ _ Hout). simpl bind.
  rewrite (u64_id amount) by (unfold is_u64, is_i64 in *; lia).
  destruct (Z.ltb_spec (wire.Value out) amount) as [_ | ?]; [reflexivity | lia].
Qed.

(** Enough change: the value is lowered first, then compared with the
    cost of the output. *)
Lemma AdjustFee_increase (outputFee inputFee : Z) (err : option error) :
  amount <= wire.Value out ->
  OutputTotalCost (wire.LockingScript out) (FeeRate tx) = (outputFee, inputFee, err) ->
  AdjustFee fuel tx amount
  = Returns
      (if wire.Value out - amount <? u64 (outputFee + inputFee)
       then if addedForFee sup
            then (without_output tx k, (true, None))
            else (with_value tx k out (wire.Value out - amount),
                  (false, Some (Wrap ErrInsufficientValue "Not enough change for tx fee")))
       else (with_value tx k out (wire.Value out - amount), (false, None))).
Proof.
  intros Hle Hcost. unfold AdjustFee.
  destruct (Z.eqb_spec amount 0) as [? | _]; [lia |].
  rewrite (findChange_first _ k 0 _ Hfirst), Z.add_0_l.
  destruct (Z.gtb_spec amount 0) as [_ | ?]; [| lia].
  destruct (Z.eqb_spec (Z.of_nat k) 0xffffffff) as [? | _]; [contradiction |].
  rewrite (index_lookup _ _ _ Hout). simpl bind.
  rewrite (u64_id amount) by (unfold is_u64, is_i64 in *; lia).
  destruct (Z.ltb_spec (wire.Value out) amount) as [? | _]; [lia |].
  rewrite (u64_id (wire.Value out - amount)) by (unfold is_u64 in *; lia).
  rewrite Nat2Z.id. simpl. rewrite Hcost.
  destruct (wire.Value out - amount <? u64 (outputFee + inputFee)); [| reflexivity].
  rewrite (index_lookup _ _ _ Hsup). simpl bind.
  destruct (addedForFee sup); simpl; [| reflexivity].
  unfold without_output, set_Outputs, set_TxOut. simpl.
  rewrite !delete_take_drop_S.
  assert (Hdel : delete k (<[k:=set_Value out (wire.Value out - amount)]>
                             (wire.TxOut_ (MsgTx tx)))
                 = delete k (wire.TxOut_ (MsgTx tx))).
  { rewrite !delete_take_drop. rewrite take_insert_ge by lia.
    rewrite drop_insert_lt by lia. reflexivity. }
  rewrite Hdel. reflexivity.
Qed.

End Increase.

(** ** AdjustFee: lowering the fee *)

Section Decrease.
Context {ST : ScriptTemplates} {PF : Platform} {BD : Builder}.
Variables (fuel : nat) (tx : TxBuilder) (amount : Z).
Hypothesis Hneg : amount < 0.
Hypothesis Hamount : is_i64 amount.

(** There is a change output: its value grows. *)
Lemma AdjustFee_decrease_change (k : nat) (out : wire.TxOut) :
  first_change (Outputs tx) k ->
  Z.of_nat k <> 0xffffffff ->
  wire.TxOut_ (MsgTx tx) !! k = Some out ->
  AdjustFee fuel tx amount
  = Returns (with_value tx k out (u64 (wire.Value out - amount)), (false, None)).
Proof.
  intros Hfirst Hsentinel Hout. unfold AdjustFee.
  destruct (Z.eqb_spec amount 0) as [? | _]; [lia |].
  rewrite (findChange_first _ k 0 _ Hfirst), Z.add_0_l.
  destruct (Z.gtb_spec amount 0) as [? | _]; [lia |].
  destruct (Z.eqb_spec (Z.of_nat k) 0xffffffff) as [? | _]; [contradiction |].
  rewrite (index_lookup _ _ _ Hout). simpl bind.
  rewrite u64_neg_amount by assumption.
  rewrite Nat2Z.id. unfold with_value.
  replace (wire.Value out + - amount) with (wire.Value out - amount) by lia.
  reflexivity.
Qed.

(** There is no change output (the loop leaves the default index). *)
Lemma AdjustFee_decrease_no_change (size : Z) :
  findChange 0 (Outputs tx) 0xffffffff = 0xffffffff ->
  EstimatedSize fuel tx = Returns size ->
  AdjustFee fuel tx amount
  = if inducedCost tx size >? - amount then Returns (tx, (true, None))
    else if - amount - inducedCost tx size >? changeCost tx
         then if len (ChangeScript tx) =? 0
              then Returns (tx, (false, Some (Wrap ErrChangeAddressNeeded
                                   ("Remaining: " ++ decimal (- amount)))))
              else match AddOutput tx (ChangeScript tx)
                           (- amount - inducedCost tx size) true false with
                   | (tx1, Some err) => Returns (tx1, (false, Some err))
                   | (tx1, None) =>
                     let* tx2 := mark_last tx1 in Returns (tx2, (false, None))
                   end
         else Returns (tx, (true, None)).
Proof.
  intros Hnone Hsize. unfold AdjustFee.
  destruct (Z.eqb_spec amount 0) as [? | _]; [lia |].
  rewrite Hnone.
  destruct (Z.gtb_spec amount 0) as [? | _]; [lia |].
  rewrite Z.eqb_refl, Hsize. simpl bind.
  rewrite u64_neg_amount by assumption.
  fold (currentFee tx size). fold (hypotheticalFee tx size).
  fold (inducedCost tx size).
  destruct (Z.gtb_spec (inducedCost tx size) (- amount)) as [? | Hle]; [reflexivity |].
  assert (Hind : is_u64 (inducedCost tx size)) by apply u64_range.
  rewrite (u64_id (- amount - inducedCost tx size))
    by (unfold is_u64, is_i64 in *; lia).
  assert (Hcost :
    (let '(outputFee, inputFee) :=
       if len (ChangeScript tx) =? 0
       then (EstimatedFeeValue (P2PKHOutputSize * 2) (of_float32 (FeeRate tx)),
             EstimatedFeeValue (u64 (MaximumP2PKHInputSize * 2))
               (of_float32 (FeeRate tx)))
       else let '(outputFee, inputFee, _) :=
              OutputTotalCost (ChangeScript tx) (FeeRate tx) in
            (outputFee, inputFee) in
     u64 (outputFee + inputFee)) = changeCost tx).
  { unfold changeCost. destruct (len (ChangeScript tx) =? 0); [reflexivity |].
    destruct (OutputTotalCost (ChangeScript tx) (FeeRate tx)) as [[o i] e].
    reflexivity. }
  destruct (if len (ChangeScript tx) =? 0
            then (EstimatedFeeValue (P2PKHOutputSize * 2) (of_float32 (FeeRate tx)),
                  EstimatedFeeValue (u64 (MaximumP2PKHInputSize * 2))
                    (of_float32 (FeeRate tx)))
            else let '(outputFee, inputFee, _) :=
                   OutputTotalCost (ChangeScript tx) (FeeRate tx) in
                 (outputFee, inputFee)) as [outputFee inputFee].
  rewrite Hcost.
  destruct (- amount - inducedCost tx size >? changeCost tx); [| reflexivity].
  destruct (len (ChangeScript tx) =? 0); [reflexivity |].
  destruct (AddOutput tx (ChangeScript tx) (- amount - inducedCost tx size) true false)
    as [tx1 [err |]]; [reflexivity |].
  unfold mark_last, reconciler_change.
  destruct (index (Outputs tx1) (len (Outputs tx1) - 1)); reflexivity.
Qed.

End Decrease.

(** ** AdjustFee: the frame *)

Lemma mark_last_with_output (tx : TxBuilder) (o : wire.TxOut) (sup : OutputSupplement) :
  mark_last (with_output tx o sup)
  = Returns (with_output tx o (reconciler_change tx sup)).
Proof.
  unfold mark_last, with_output, set_Outputs, set_TxOut, len. simpl.
  rewrite length_app. simpl length.
  replace (Z.of_nat (length (Outputs tx) + 1) - 1) with (Z.of_nat (length (Outputs tx)))
    by lia.
  rewrite (index_lookup _ _ sup).
  - simpl. rewrite Nat2Z.id.
    rewrite insert_app_r_alt by lia. rewrite Nat.sub_diag. reflexivity.
  - rewrite lookup_app_r by lia. rewrite Nat.sub_diag. reflexivity.
Qed.

Section Frame.
Context {ST : ScriptTemplates} {PF : Platform} {BD : Builder}.
Hypothesis Happends : AddOutput_appends.

Lemma AdjustFee_adjusted (fuel : nat) (tx : TxBuilder) (amount : Z)
  (tx' : TxBuilder) (r : bool * option error) :
  is_i64 amount ->
  AdjustFee fuel tx amount = Returns (tx', r) ->
  adjusted tx tx'.
Proof.
  intros Hamount H.
  destruct (Z.eq_dec amount 0) as [-> | Hnz].
  { unfold AdjustFee in H. simpl in H. injection H as <- _. apply adjusted_none; reflexivity. }
  assert (Hcreate : amount < 0 ->
            findChange 0 (Outputs tx) 0xffffffff = 0xffffffff -> adjusted tx tx').
  { intros Hneg Hnone.
    destruct (EstimatedSize fuel tx) as [size | |] eqn:Hsize.
    - rewrite (AdjustFee_decrease_no_change fuel tx amount Hneg Hamount size Hnone Hsize) in H.
      destruct (inducedCost tx size >? - amount).
      { injection H as <- _. apply adjusted_none; reflexivity. }
      destruct (- amount - inducedCost tx size >? changeCost tx).
      2:{ injection H as <- _. apply adjusted_none; reflexivity. }
      destruct (len (ChangeScript tx) =? 0).
      { injection H as <- _. apply adjusted_none; reflexivity. }
      pose proof (Happends tx (ChangeScript tx) (- amount - inducedCost tx size) true false)
        as Hadd.
      destruct (AddOutput tx (ChangeScript tx) (- amount - inducedCost tx size) true false)
        as [tx1 [err |]].
      + injection H as <- _. subst tx1. apply adjusted_none; reflexivity.
      + destruct Hadd as [sup [-> _]].
        rewrite mark_last_with_output in H. simpl in H. injection H as <- _.
        eapply adjusted_created; reflexivity.
    - unfold AdjustFee in H.
      destruct (Z.eqb_spec amount 0) as [? | _]; [lia |].
      rewrite Hnone in H.
      destruct (Z.gtb_spec amount 0) as [? | _]; [lia |].
      rewrite Z.eqb_refl, Hsize in H. discriminate H.
    - unfold AdjustFee in H.
      destruct (Z.eqb_spec amount 0) as [? | _]; [lia |].
      rewrite Hnone in H.
      destruct (Z.gtb_spec amount 0) as [? | _]; [lia |].
      rewrite Z.eqb_refl, Hsize in H. discriminate H. }
  assert (Hnochange : 0 < amount ->
            findChange 0 (Outputs tx) 0xffffffff = 0xffffffff -> adjusted tx tx').
  { intros Hpos Hnone. unfold AdjustFee in H.
    destruct (Z.eqb_spec amount 0) as [? | _]; [lia |].
    rewrite Hnone in H.
    destruct (Z.gtb_spec amount 0) as [_ | ?]; [| lia].
    rewrite Z.eqb_refl in H. injection H as <- _. apply adjusted_none; reflexivity. }
  destruct (findChange_cases (Outputs tx) 0xffffffff) as [[_ He] | [k [Hk He]]].
  { destruct (Z.lt_trichotomy amount 0) as [? | [? | ?]]; [auto | lia | auto]. }
  destruct (Z.eq_dec (Z.of_nat k) 0xffffffff) as [Hs | Hs].
  { rewrite Hs in He.
    destruct (Z.lt_trichotomy amount 0) as [? | [? | ?]]; [auto | lia | auto]. }
  unfold AdjustFee in H.
  destruct (Z.eqb_spec amount 0) as [? | _]; [lia |].
  rewrite He in H.
  destruct (Z.eqb_spec (Z.of_nat k) 0xffffffff) as [? | _]; [contradiction |].
  destruct (index (wire.TxOut_ (MsgTx tx)) (Z.of_nat k)) as [out | |] eqn:Hidx;
    [| destruct (amount >? 0); discriminate H | destruct (amount >? 0); discriminate H].
  assert (Hout : wire.TxOut_ (MsgTx tx) !! k = Some out).
  { unfold index in Hidx. destruct (Z.of_nat k <? 0); [discriminate Hidx |].
    rewrite Nat2Z.id in Hidx.
    destruct (wire.TxOut_ (MsgTx tx) !! k); [injection Hidx as ->; reflexivity
                                             | discriminate Hidx]. }
  simpl bind in H. rewrite Nat2Z.id in H.
  destruct (amount >? 0).
  - destruct (wire.Value out <? u64 amount).
    { injection H as <- _. apply adjusted_none; reflexivity. }
    simpl in H.
    destruct (OutputTotalCost (wire.LockingScript out) (FeeRate tx)) as [[outputFee inputFee] e].
    destruct (u64 (wire.Value out - u64 amount) <? u64 (outputFee + inputFee)).
    + destruct (index (Outputs tx) (Z.of_nat k)) as [sup | |] eqn:Hsi;
        simpl in H; try discriminate H.
      assert (Hsup : Outputs tx !! k = Some sup).
      { unfold index in Hsi. destruct (Z.of_nat k <? 0); [discriminate Hsi |].
        rewrite Nat2Z.id in Hsi.
        destruct (Outputs tx !! k); [injection Hsi as ->; reflexivity | discriminate Hsi]. }
      destruct (addedForFee sup) eqn:Hadded; simpl in H.
      * injection H as <- _.
        apply (adjusted_deleted tx _ k out sup); auto.
        unfold without_output, set_Outputs, set_TxOut. simpl.
        rewrite !delete_take_drop_S.
        rewrite !delete_take_drop. rewrite take_insert_ge by lia.
        rewrite drop_insert_lt by lia. reflexivity.
      * injection H as <- _.
        apply (adjusted_value tx _ k out (u64 (wire.Value out - u64 amount))); auto.
    + injection H as <- _.
      apply (adjusted_value tx _ k out (u64 (wire.Value out - u64 amount))); auto.
  - injection H as <- _.
    apply (adjusted_value tx _ k out (u64 (wire.Value out + u64 (i64 (- amount))))); auto.
Qed.

End Frame.

Lemma adjusted_inputs (tx tx' : TxBuilder) :
  adjusted tx tx' ->
  Inputs tx' = Inputs tx /\ wire.TxIn_ (MsgTx tx') = wire.TxIn_ (MsgTx tx).
Proof. intros [-> | k out v _ _ -> | k out sup _ _ _ _ -> | o sup ->]; split; reflexivity. Qed.

(** An output that is not a change output is found again, as it was. *)
Lemma adjusted_keeps_payments (tx tx' : TxBuilder) :
  adjusted tx tx' ->
  forall j o s,
    wire.TxOut_ (MsgTx tx) !! j = Some o -> Outputs tx !! j = Some s ->
    IsRemainder s = false ->
    exists j', wire.TxOut_ (MsgTx tx') !! j' = Some o /\ Outputs tx' !! j' = Some s.
Proof.
  intros [-> | k out v Hk _ -> | k out sup Hk _ _ _ -> | o' sup ->] j o s Ho Hs Hrem.
  - exists j; auto.
  - assert (j <> k).
    { intros ->. destruct Hk as [[s' [Hs' Hr]] _]. congruence. }
    exists j. unfold with_value, set_TxOut; simpl.
    rewrite list_lookup_insert_ne by auto. auto.
  - assert (j <> k).
    { intros ->. destruct Hk as [[s' [Hs' Hr]] _]. congruence. }
    unfold without_output, set_Outputs, set_TxOut; simpl.
    destruct (Nat.lt_ge_cases j k) as [Hlt | Hge].
    + exists j. rewrite !list_lookup_delete_lt by lia. auto.
    + exists (j - 1)%nat. rewrite !list_lookup_delete_ge by lia.
      replace (S (j - 1)) with j by lia. auto.
  - exists j. unfold with_output, set_Outputs, set_TxOut; simpl.
    rewrite !lookup_app_l by (eapply lookup_lt_Some; eauto). auto.
Qed.

(** Outputs stay where they are, or the one output that goes is the
    first change output and carries the reconciler's flag. *)
Lemma adjusted_keeps_or_deletes (tx tx' : TxBuilder) :
  adjusted tx tx' -> keeps_outputs tx tx' \/ deletes_reconciler_change tx tx'.
Proof.
  intros [-> | k out v Hk Hout -> | k out sup Hk Hout Hsup Hadded -> | o' sup ->].
  - left. repeat split; try lia; eauto.
  - left. unfold keeps_outputs, with_value, set_TxOut; simpl.
    rewrite length_insert. repeat split; try lia; [| auto].
    intros j o Ho. destruct (Nat.eq_dec j k) as [-> | Hne].
    + exists (set_Value out v).
      rewrite list_lookup_insert_eq by (eapply lookup_lt_Some; eauto).
      split; [reflexivity |]. simpl. congruence.
    + exists o. rewrite list_lookup_insert_ne by auto. auto.
  - right. exists k, out, sup. auto.
  - left. unfold keeps_outputs, with_output, set_Outputs, set_TxOut; simpl.
    rewrite !length_app. repeat split; try lia.
    + intros j o Ho. exists o.
      rewrite lookup_app_l by (eapply lookup_lt_Some; eauto). auto.
    + intros j s Hs. rewrite lookup_app_l by (eapply lookup_lt_Some; eauto). exact Hs.
Qed.

Lemma first_change_at (s : OutputSupplement) (before after : list OutputSupplement) :
  IsRemainder s = true ->
  Forall (fun x => IsRemainder x = false) before ->
  first_change (before ++ s :: after) (length before).
Proof.
  intros Hs Hb. split.
  - exists s. split; [| exact Hs].
    rewrite lookup_app_r by lia. rewrite Nat.sub_diag. reflexivity.
  - intros j x Hj Hx. rewrite lookup_app_l in Hx by exact Hj.
    exact (Forall_lookup_1 _ _ _ _ Hb Hx).
Qed.

(** ** AdjustFee: the claims *)

(** C1. When [AdjustFee] runs with a positive amount and the first
    [IsRemainder] output, once the amount is subtracted, is worth less
    than [outputFee + inputFee]: an output flagged [addedForFee] is removed
    and the call returns [(true, nil)]; an output without the flag stays
    and the call returns an [ErrInsufficientValue] error.  Whatever the
    amount and whatever the call returns, either every output is still at
    its position with its locking script and its supplement and no list
    is shorter, or the builder is the old one without its first
    [IsRemainder] output, which carried the flag; so an output without the
    flag is found again with its script and its supplement.
    ([AddOutput] is taken to append or to fail without change.) *)
Theorem AdjustFee_deletes_only_reconciler_change
  {ST : ScriptTemplates} {PF : Platform} {BD : Builder} :
  (forall (fuel : nat) (tx : TxBuilder) (amount : Z) (k : nat)
          (out : wire.TxOut) (sup : OutputSupplement)
          (outputFee inputFee : Z) (err : option error),
      0 < amount -> is_i64 amount ->
      first_change (Outputs tx) k -> Z.of_nat k <> 0xffffffff ->
      Outputs tx !! k = Some sup ->
      wire.TxOut_ (MsgTx tx) !! k = Some out ->
      is_u64 (wire.Value out) ->
      amount <= wire.Value out ->
      OutputTotalCost (wire.LockingScript out) (FeeRate tx) = (outputFee, inputFee, err) ->
      wire.Value out - amount < u64 (outputFee + inputFee) ->
      (addedForFee sup = true ->
       AdjustFee fuel tx amount = Returns (without_output tx k, (true, None)))
      /\ (addedForFee sup = false ->
          exists e,
            AdjustFee fuel tx amount
            = Returns (with_value tx k out (wire.Value out - amount), (false, Some e))
            /\ Cause e = ErrInsufficientValue))
  /\ (AddOutput_appends ->
      forall (fuel : nat) (tx : TxBuilder) (amount : Z)
             (tx' : TxBuilder) (r : bool * option error),
        is_i64 amount ->
        AdjustFee fuel tx amount = Returns (tx', r) ->
        (keeps_outputs tx tx' \/ deletes_reconciler_change tx tx')
        /\ forall j o s,
             wire.TxOut_ (MsgTx tx) !! j = Some o -> Outputs tx !! j = Some s ->
             addedForFee s = false ->
             exists j' o', wire.TxOut_ (MsgTx tx') !! j' = Some o'
                           /\ wire.LockingScript o' = wire.LockingScript o
                           /\ Outputs tx' !! j' = Some s
                           /\ (j' = j \/ S j' = j)).
Proof.
  split.
  - intros fuel tx amount k out sup outputFee inputFee err
      Hpos Hamount Hfirst Hsentinel Hsup Hout Hvalue Hle Hcost Hbelow.
    pose proof (AdjustFee_increase fuel tx amount k out sup Hpos Hamount Hfirst
                  Hsentinel Hsup Hout Hvalue outputFee inputFee err Hle Hcost) as H.
    destruct (Z.ltb_spec (wire.Value out - amount) (u64 (outputFee + inputFee)))
      as [_ | ?]; [| lia].
    split; intros Hflag; rewrite Hflag in H.
    + exact H.
    + eexists. split; [exact H | reflexivity].
  - intros Happends fuel tx amount tx' r Hamount H.
    pose proof (AdjustFee_adjusted Happends fuel tx amount tx' r Hamount H) as Hadj.
    pose proof (adjusted_keeps_or_deletes tx tx' Hadj) as Hshape.
    split; [exact Hshape |].
    intros j o s Ho Hs Hflag.
    destruct Hshape as [[_ [_ [Houts Hsups]]] | [k [out [sup [_ [_ [Hsup [Hadded ->]]]]]]]].
    + destruct (Houts j o Ho) as [o' [Ho' Hscript]].
      exists j, o'. auto.
    + assert (j <> k) by (intros ->; congruence).
      unfold without_output, set_Outputs, set_TxOut; simpl.
      destruct (Nat.lt_ge_cases j k) as [Hlt | Hge].
      * exists j, o. rewrite !list_lookup_delete_lt by lia. auto.
      * exists (j - 1)%nat, o. rewrite !list_lookup_delete_ge by lia.
        replace (S (j - 1)) with j by lia. repeat split; auto.
Qed.

(** C10. With a positive amount, a first [IsRemainder] output worth at
    least the amount and not flagged [addedForFee], and a value after the
    subtraction below [outputFee + inputFee], [AdjustFee] returns an
    [ErrInsufficientValue] error and the builder it leaves has the change
    output already lowered by the amount. *)
Theorem AdjustFee_failure_not_atomic
  {ST : ScriptTemplates} {PF : Platform} {BD : Builder}
  (fuel : nat) (tx : TxBuilder) (amount : Z) (k : nat)
  (out : wire.TxOut) (sup : OutputSupplement)
  (outputFee inputFee : Z) (err : option error) :
  0 < amount -> is_i64 amount ->
  first_change (Outputs tx) k -> Z.of_nat k <> 0xffffffff ->
  Outputs tx !! k = Some sup ->
  addedForFee sup = false ->
  wire.TxOut_ (MsgTx tx) !! k = Some out ->
  is_u64 (wire.Value out) ->
  amount <= wire.Value out ->
  OutputTotalCost (wire.LockingScript out) (FeeRate tx) = (outputFee, inputFee, err) ->
  wire.Value out - amount < u64 (outputFee + inputFee) ->
  exists tx' e,
    AdjustFee fuel tx amount = Returns (tx', (false, Some e))
    /\ Cause e = ErrInsufficientValue
    /\ wire.TxOut_ (MsgTx tx') !! k = Some (set_Value out (wire.Value out - amount))
    /\ tx' <> tx.
Proof.
  intros Hpos Hamount Hfirst Hsentinel Hsup Hflag Hout Hvalue Hle Hcost Hbelow.
  pose proof (AdjustFee_increase fuel tx amount k out sup Hpos Hamount Hfirst
                Hsentinel Hsup Hout Hvalue outputFee inputFee err Hle Hcost) as H.
  destruct (Z.ltb_spec (wire.Value out - amount) (u64 (outputFee + inputFee)))
    as [_ | ?]; [| lia].
  rewrite Hflag in H.
  assert (Hnew : wire.TxOut_ (MsgTx (with_value tx k out (wire.Value out - amount))) !! k
                 = Some (set_Value out (wire.Value out - amount))).
  { unfold with_value, set_TxOut; simpl.
    apply list_lookup_insert_eq. eapply lookup_lt_Some; eauto. }
  eexists _, _. split; [exact H |]. split; [reflexivity |]. split; [exact Hnew |].
  intros Heq. rewrite Heq in Hnew. rewrite Hout in Hnew.
  injection Hnew as Hnew. apply (f_equal wire.Value) in Hnew. simpl in Hnew. lia.
Qed.

(** C2, as the code has it. With a first [IsRemainder] output worth 1000
    whose value after the subtraction, 800, is at least
    [outputFee + inputFee], [AdjustFee] with amount 200 sets the value to
    800, removes nothing, and returns [(false, nil)]: [done] stays false
    when the value is adjusted in place. *)
Theorem AdjustFee_scenario_A
  {ST : ScriptTemplates} {PF : Platform} {BD : Builder}
  (fuel : nat) (tx : TxBuilder) (k : nat)
  (out : wire.TxOut) (sup : OutputSupplement)
  (outputFee inputFee : Z) (err : option error) :
  first_change (Outputs tx) k -> Z.of_nat k <> 0xffffffff ->
  Outputs tx !! k = Some sup ->
  wire.TxOut_ (MsgTx tx) !! k = Some out ->
  wire.Value out = 1000 ->
  OutputTotalCost (wire.LockingScript out) (FeeRate tx) = (outputFee, inputFee, err) ->
  u64 (outputFee + inputFee) <= 800 ->
  exists tx',
    AdjustFee fuel tx 200 = Returns (tx', (false, None))
    /\ wire.TxOut_ (MsgTx tx') = <[k := set_Value out 800]> (wire.TxOut_ (MsgTx tx))
    /\ length (wire.TxOut_ (MsgTx tx')) = length (wire.TxOut_ (MsgTx tx))
    /\ Outputs tx' = Outputs tx.
Proof.
  intros Hfirst Hsentinel Hsup Hout Hvalue Hcost Henough.
  assert (Hpos : 0 < 200) by lia.
  assert (Hamount : is_i64 200) by (unfold is_i64; lia).
  assert (Hu : is_u64 (wire.Value out)) by (rewrite Hvalue; unfold is_u64; lia).
  assert (Hle : 200 <= wire.Value out) by lia.
  pose proof (AdjustFee_increase fuel tx 200 k out sup Hpos Hamount Hfirst
                Hsentinel Hsup Hout Hu outputFee inputFee err Hle Hcost) as H.
  rewrite Hvalue in H. change (1000 - 200) with 800 in H.
  destruct (Z.ltb_spec 800 (u64 (outputFee + inputFee))) as [? | _]; [lia |].
  exists (with_value tx k out 800). split; [exact H |].
  unfold with_value, set_TxOut; simpl.
  split; [reflexivity |]. split; [apply length_insert | reflexivity].
Qed.


(** C8. Whatever [AdjustFee] returns, the builder it leaves has the
    inputs it had, and its outputs are the old ones except for one of:
    nothing; a new value for the first [IsRemainder] output; the removal
    of the first [IsRemainder] output; one appended output. Every output
    that is not flagged [IsRemainder] is found again unchanged.
    ([AddOutput] is taken to append.) *)
Theorem AdjustFee_frame
  {ST : ScriptTemplates} {PF : Platform} {BD : Builder}
  (fuel : nat) (tx : TxBuilder) (amount : Z)
  (tx' : TxBuilder) (r : bool * option error) :
  AddOutput_appends ->
  is_i64 amount ->
  AdjustFee fuel tx amount = Returns (tx', r) ->
  Inputs tx' = Inputs tx
  /\ wire.TxIn_ (MsgTx tx') = wire.TxIn_ (MsgTx tx)
  /\ adjusted tx tx'
  /\ forall j o s,
       wire.TxOut_ (MsgTx tx) !! j = Some o -> Outputs tx !! j = Some s ->
       IsRemainder s = false ->
       exists j', wire.TxOut_ (MsgTx tx') !! j' = Some o /\ Outputs tx' !! j' = Some s.
Proof.
  intros Happends Hamount H.
  pose proof (AdjustFee_adjusted Happends fuel tx amount tx' r Hamount H) as Hadj.
  destruct (adjusted_inputs tx tx' Hadj) as [Hin Htxin].
  split; [exact Hin |]. split; [exact Htxin |]. split; [exact Hadj |].
  apply adjusted_keeps_payments. exact Hadj.
Qed.

(** *** The claims at concrete transactions *)

Import Reference.

Lemma first_change_1 (added : bool) (v : Z) :
  first_change (Outputs (tx_with_change v added)) 1.
Proof.
  apply (first_change_at (change_supplement added) [payment_supplement] []);
    [reflexivity | repeat constructor].
Qed.

Lemma reference_AddOutput_appends : AddOutput_appends.
Proof.
  intros tx lockingScript value isRemainder isDust. simpl. unfold add_output.
  destruct (value <? fees.DustLimitForLockingScript lockingScript
                       (of_float32 (DustFeeRate tx))); [reflexivity |].
  eexists. split; reflexivity.
Qed.

Lemma i64_small (z : Z) : - 1000000 <= z <= 1000000 -> is_i64 z.
Proof. unfold is_i64. lia. Qed.

Lemma u64_small (z : Z) : 0 <= z <= 1000000 -> is_u64 z.
Proof. unfold is_u64. lia. Qed.

(** A change output of 100 at rate 0.5, where a key-hash output costs
    17 + 75, and an amount of 45: removed when the reconciler added it,
    kept at 55 with an error otherwise, every output where it was. *)
Lemma AdjustFee_deletes_only_reconciler_change_witness :
  AdjustFee 1 (tx_with_change 100 true) 45
  = Returns (without_output (tx_with_change 100 true) 1, (true, None))
  /\ (exists e,
        AdjustFee 1 (tx_with_change 100 false) 45
        = Returns (with_value (tx_with_change 100 false) 1 (p2pkh_output 100) (100 - 45),
                   (false, Some e))
        /\ Cause e = ErrInsufficientValue)
  /\ keeps_outputs (tx_with_change 100 false)
       (with_value (tx_with_change 100 false) 1 (p2pkh_output 100) (100 - 45))
  /\ deletes_reconciler_change (tx_with_change 100 true)
       (without_output (tx_with_change 100 true) 1).
Proof.
  destruct (AdjustFee_deletes_only_reconciler_change
              (ST := templates) (PF := platform) (BD := builder)) as [Hbelow Hkeeps].
  destruct (Hbelow 1%nat (tx_with_change 100 true) 45 1%nat (p2pkh_output 100)
              (change_supplement true) 17 75 None
              ltac:(lia) (i64_small 45 ltac:(lia)) (first_change_1 true 100)
              ltac:(discriminate) eq_refl eq_refl (u64_small 100 ltac:(lia))
              ltac:(simpl; lia) ltac:(vm_compute; reflexivity)
              ltac:(vm_compute; reflexivity)) as [Hflagged _].
  destruct (Hbelow 1%nat (tx_with_change 100 false) 45 1%nat (p2pkh_output 100)
              (change_supplement false) 17 75 None
              ltac:(lia) (i64_small 45 ltac:(lia)) (first_change_1 false 100)
              ltac:(discriminate) eq_refl eq_refl (u64_small 100 ltac:(lia))
              ltac:(simpl; lia) ltac:(vm_compute; reflexivity)
              ltac:(vm_compute; reflexivity)) as [_ Hplain].
  pose proof (Hflagged eq_refl) as Hdeleted.
  destruct (Hplain eq_refl) as [e [Hkept Hcause]].
  split; [exact Hdeleted |].
  split; [exists e; split; [exact Hkept | exact Hcause] |].
  split.
  - destruct (Hkeeps reference_AddOutput_appends 1%nat (tx_with_change 100 false) 45
                _ _ (i64_small 45 ltac:(lia)) Hkept) as [[Hk | Hd] _]; [exact Hk |].
    exfalso. destruct Hd as [k [out [sup [_ [Hout [_ [_ Heq]]]]]]].
    apply (f_equal (fun t => length (wire.TxOut_ (MsgTx t)))) in Heq.
    simpl in Heq. rewrite length_delete in Heq by (simpl in Hout; eauto).
    simpl in Heq. lia.
  - destruct (Hkeeps reference_AddOutput_appends 1%nat (tx_with_change 100 true) 45
                _ _ (i64_small 45 ltac:(lia)) Hdeleted) as [[Hk | Hd] _]; [| exact Hd].
    exfalso. destruct Hk as [Hlen _]. simpl in Hlen. lia.
Defined.

Lemma AdjustFee_failure_not_atomic_witness :
  exists tx' e,
    AdjustFee 1 (tx_with_change 100 false) 45 = Returns (tx', (false, Some e))
    /\ Cause e = ErrInsufficientValue
    /\ wire.TxOut_ (MsgTx tx') !! 1%nat = Some (set_Value (p2pkh_output 100) (100 - 45))
    /\ tx' <> tx_with_change 100 false.
Proof.
  exact (AdjustFee_failure_not_atomic
           1%nat (tx_with_change 100 false) 45 1%nat (p2pkh_output 100)
           (change_supplement false) 17 75 None
           ltac:(lia) (i64_small 45 ltac:(lia)) (first_change_1 false 100)
           ltac:(discriminate) eq_refl eq_refl eq_refl (u64_small 100 ltac:(lia))
           ltac:(simpl; lia) ltac:(vm_compute; reflexivity)
           ltac:(vm_compute; reflexivity)).
Defined.

(** C2 as stated fails: with a change output of 1000, a cost of 17 + 75
    and an amount of 200 the value becomes 800 and the call returns
    [false], not [true]. *)
Lemma scenario_A_is_not_settled :
  first_change (Outputs (tx_with_change 1000 false)) 1
  /\ wire.TxOut_ (MsgTx (tx_with_change 1000 false)) !! 1%nat = Some (p2pkh_output 1000)
  /\ OutputTotalCost p2pkh_script (FeeRate (tx_with_change 1000 false)) = (17, 75, None)
  /\ AdjustFee 1 (tx_with_change 1000 false) 200
     = Returns (with_value (tx_with_change 1000 false) 1 (p2pkh_output 1000) 800,
                (false, None)).
Proof.
  split; [apply first_change_1 |].
  split; [reflexivity |].
  split; vm_compute; reflexivity.
Qed.

Lemma AdjustFee_scenario_A_witness :
  exists tx',
    AdjustFee 1 (tx_with_change 1000 false) 200 = Returns (tx', (false, None))
    /\ wire.TxOut_ (MsgTx tx')
       = <[1%nat := set_Value (p2pkh_output 1000) 800]>
           (wire.TxOut_ (MsgTx (tx_with_change 1000 false)))
    /\ length (wire.TxOut_ (MsgTx tx'))
       = length (wire.TxOut_ (MsgTx (tx_with_change 1000 false)))
    /\ Outputs tx' = Outputs (tx_with_change 1000 false).
Proof.
  exact (AdjustFee_scenario_A
           1%nat (tx_with_change 1000 false) 1%nat (p2pkh_output 1000)
           (change_supplement false) 17 75 None
           (first_change_1 false 1000) ltac:(discriminate) eq_refl eq_refl eq_refl
           ltac:(vm_compute; reflexivity) ltac:(vm_compute; discriminate)).
Defined.

Lemma no_change_payment (changeScript : Script) :
  no_change (Outputs (tx_without_change changeScript)).
Proof.
  intros [| j] s Hs; simpl in Hs; [injection Hs as <-; reflexivity | discriminate Hs].
Qed.



Lemma AdjustFee_frame_witness :
  Inputs (without_output (tx_with_change 100 true) 1) = Inputs (tx_with_change 100 true)
  /\ wire.TxIn_ (MsgTx (without_output (tx_with_change 100 true) 1))
     = wire.TxIn_ (MsgTx (tx_with_change 100 true))
  /\ adjusted (tx_with_change 100 true) (without_output (tx_with_change 100 true) 1)
  /\ forall j o s,
       wire.TxOut_ (MsgTx (tx_with_change 100 true)) !! j = Some o ->
       Outputs (tx_with_change 100 true) !! j = Some s ->
       IsRemainder s = false ->
       exists j', wire.TxOut_ (MsgTx (without_output (tx_with_change 100 true) 1)) !! j'
                  = Some o
                  /\ Outputs (without_output (tx_with_change 100 true) 1) !! j' = Some s.
Proof.
  exact (AdjustFee_frame 1%nat (tx_with_change 100 true) 45
           (without_output (tx_with_change 100 true) 1) (true, None)
           reference_AddOutput_appends (i64_small 45 ltac:(lia))
           ltac:(vm_compute; reflexivity)).
Defined.

(** ** The unlocking size of an agent script *)

Lemma UnlockingScriptSize_step {ST : ScriptTemplates} (fuel : nat) (s : Script) :
  UnlockingScriptSize (S fuel) s
  = if IsP2PK s then Returns (MaxSignaturesPushDataSize, None)
    else if IsP2PKH s
    then Returns (MaxSignaturesPushDataSize + PublicKeyPushDataSize, None)
    else
      let '(required, total, err) := MultiPKHCounts s in
      if is_nil err then
        Returns (i64 (i64 (u32 (total - required))
                      + i64 (i64 required
                             * (MaxSignaturesPushDataSize + PublicKeyPushDataSize + 1))),
                 None)
      else
        let* matched := call (MatchScript s) in
        match matched with
        | (Some info, None) =>
          let* r := UnlockingScriptSize fuel (RemoveHardVerify (AgentLockingScript info)) in
          match r with
          | (_, Some err) => Returns (0, Some (Wrap err "agent unlocking size"))
          | (agentUnlockingSize, None) =>
            Returns (ApproveUnlockingSize agentUnlockingSize, None)
          end
        | _ => Returns (0, Some ErrUnknownScriptTemplate)
        end.
Proof. reflexivity. Qed.

(** More fuel does not change a result. *)
Lemma UnlockingScriptSize_fuel {ST : ScriptTemplates} (fuel : nat) :
  forall (s : Script) (r : Z * option error),
    UnlockingScriptSize fuel s = Returns r ->
    UnlockingScriptSize (S fuel) s = Returns r.
Proof.
  induction fuel as [| fuel IH]; intros s r H; [discriminate H |].
  rewrite UnlockingScriptSize_step in H. rewrite UnlockingScriptSize_step.
  destruct (IsP2PK s); [exact H |].
  destruct (IsP2PKH s); [exact H |].
  destruct (MultiPKHCounts s) as [[required total] err].
  destruct (is_nil err); [exact H |].
  destruct (MatchScript s) as [[[info |] [e |]] |]; try exact H.
  cbn [bind call] in *.
  destruct (UnlockingScriptSize fuel (RemoveHardVerify (AgentLockingScript info)))
    as [r' | |] eqn:Hinner; try discriminate H.
  rewrite (IH _ _ Hinner). exact H.
Qed.

(** C4. For a script that is neither P2PK nor P2PKH nor multi-PKH and
    that [MatchScript] recognises as an agent script,
    [txbuilder.UnlockingScriptSize] removes the hard verify from the
    agent's locking script, sizes the result and returns
    [ApproveUnlockingSize] of that size; [fees.EstimateUnlockingSize]
    enters its agent branch only when [MatchScript] fails ([err != nil]),
    so for the same script it returns [ErrWrongScriptTemplate]. *)
Theorem EstimateUnlockingSize_misses_agent_scripts
  {ST : ScriptTemplates} (fuel : nat) (s : Script) (info : AgentInfo) (n : Z) :
  IsP2PK s = false -> IsP2PKH s = false ->
  is_nil (snd (MultiPKHCounts s)) = false ->
  MatchScript s = Result (Some info, None) ->
  UnlockingScriptSize fuel (RemoveHardVerify (AgentLockingScript info))
  = Returns (n, None) ->
  UnlockingScriptSize (S fuel) s = Returns (ApproveUnlockingSize n, None)
  /\ fees.EstimateUnlockingSize (S fuel) s = Returns (0, Some ErrWrongScriptTemplate).
Proof.
  intros Hpk Hpkh Hmulti Hmatch Hinner. simpl.
  rewrite Hpk, Hpkh.
  destruct (MultiPKHCounts s) as [[required total] err]. simpl in Hmulti.
  rewrite Hmulti, Hmatch. simpl. rewrite Hinner. split; reflexivity.
Qed.

(** The wrapped key-hash script of the reference instance: 183 bytes for
    the builder (108 for the key-hash script, plus the approval), an
    error for package fees. *)
Lemma EstimateUnlockingSize_misses_agent_scripts_witness :
  UnlockingScriptSize 2 agent_script = Returns (ApproveUnlockingSize 108, None)
  /\ fees.EstimateUnlockingSize 2 agent_script = Returns (0, Some ErrWrongScriptTemplate).
Proof.
  exact (EstimateUnlockingSize_misses_agent_scripts 1%nat agent_script
           {| AgentLockingScript := tl agent_script |} 108
           eq_refl eq_refl eq_refl eq_refl eq_refl).
Defined.

(** A script of no known template makes package fees dereference the nil
    [info]. *)
Lemma EstimateUnlockingSize_panics {ST : ScriptTemplates} (fuel : nat) (s : Script)
  (e : error) :
  IsP2PK s = false -> IsP2PKH s = false ->
  is_nil (snd (MultiPKHCounts s)) = false ->
  MatchScript s = Result (None, Some e) ->
  fees.EstimateUnlockingSize (S fuel) s = Panics.
Proof.
  intros Hpk Hpkh Hmulti Hmatch. simpl. rewrite Hpk, Hpkh.
  destruct (MultiPKHCounts s) as [[required total] err]. simpl in Hmulti.
  rewrite Hmulti, Hmatch. reflexivity.
Qed.

(** ** The value of an input with a declaration *)

Lemma InputValue_inputs_app {ST : ScriptTemplates} (tx : TxBuilder)
  (before after : list InputSupplement) :
  forall (i acc : Z),
    InputValue_inputs tx i (before ++ after) acc
    = let* a := InputValue_inputs tx i before acc in
      InputValue_inputs tx (i + len before) after a.
Proof.
  induction before as [| input before IH]; intros i acc; simpl.
  - unfold len. simpl. rewrite Z.add_0_r. reflexivity.
  - destruct (InputValue_input tx i input acc) as [a | |]; simpl; try reflexivity.
    rewrite IH. unfold len. simpl length.
    replace (i + 1 + Z.of_nat (length before)) with (i + Z.of_nat (S (length before)))
      by lia.
    reflexivity.
Qed.

(** C5. An input whose value is recorded as 0 and whose unlocking script
    carries a declaration [d]: the loop of [TxBuilder.InputValue] adds
    [d.Value], so does the sum over all inputs; [fees.InputValue] returns
    [d.Size], and the loop of [fees.InputsValue] adds that. *)
Theorem InputValue_of_declaration
  {ST : ScriptTemplates} (d : unlocking_data.UnlockingData) (txin : wire.TxIn) :
  IsFalseOpReturn (wire.UnlockingScript txin) = true ->
  ProtocolsParse (wire.UnlockingScript txin) = Result (Some (MsgUnlockingData d), None) ->
  (forall (tx : TxBuilder) (before after : list InputSupplement) (input : InputSupplement),
      Inputs tx = before ++ input :: after ->
      Value input = 0 ->
      wire.TxIn_ (MsgTx tx) !! length before = Some txin ->
      InputValue tx
      = let* a := InputValue_inputs tx 0 before 0 in
        InputValue_inputs tx (len before + 1) after (u64 (a + unlocking_data.Value d)))
  /\ (forall (inputOutput : wire.TxOut),
         wire.Value inputOutput = 0 ->
         fees.InputValue txin inputOutput = Returns (unlocking_data.Size d, None))
  /\ (forall (tx : fees.TransactionWithOutputs) (inputOutput : wire.TxOut)
             (i result : Z) (txins : list wire.TxIn),
         fees.InputOutput tx i = (Some inputOutput, None) ->
         wire.Value inputOutput = 0 ->
         fees.InputsValue_inputs tx i (txin :: txins) result
         = fees.InputsValue_inputs tx (i + 1) txins (u64 (result + unlocking_data.Size d))).
Proof.
  intros Hfalse Hparse.
  assert (Hfees : forall inputOutput, wire.Value inputOutput = 0 ->
            fees.InputValue txin inputOutput = Returns (unlocking_data.Size d, None)).
  { intros inputOutput Hzero. unfold fees.InputValue.
    rewrite Hzero, Hfalse, Hparse. reflexivity. }
  split; [| split; [exact Hfees |]].
  - intros tx before after input Hinputs Hzero Htxin.
    unfold InputValue. rewrite Hinputs, InputValue_inputs_app, Z.add_0_l.
    destruct (InputValue_inputs tx 0 before 0) as [a | |]; [| reflexivity | reflexivity].
    cbn [bind InputValue_inputs].
    unfold InputValue_input. rewrite Hzero, Z.eqb_refl.
    unfold len. rewrite (index_lookup _ _ _ Htxin). cbn [bind].
    unfold declaration. rewrite Hfalse, Hparse. reflexivity.
  - intros tx inputOutput i result txins Hio Hzero. simpl.
    rewrite Hio, (Hfees _ Hzero). reflexivity.
Qed.

(** An input that declares a size of 108 and a value of 5000: the builder
    counts 5000, package fees 108. *)
Lemma InputValue_of_declaration_witness :
  InputValue tx_with_declared_input = Returns 5000
  /\ fees.InputValue declared_txin {| wire.Value := 0; wire.LockingScript := [] |}
     = Returns (108, None).
Proof.
  pose proof (InputValue_of_declaration
                {| unlocking_data.Size := 108; unlocking_data.Value := 5000 |}
                declared_txin eq_refl eq_refl) as [Hbuilder [Hfees _]].
  split.
  - rewrite (Hbuilder tx_with_declared_input [] [] unknown_input eq_refl eq_refl eq_refl).
    reflexivity.
  - exact (Hfees {| wire.Value := 0; wire.LockingScript := [] |} eq_refl).
Defined.

(** ** The declaration codecs *)

Lemma bytes_Equal_eq (a : list Byte.byte) :
  forall b, bytes_Equal a b = true <-> a = b.
Proof.
  induction a as [| x a IH]; intros [| y b]; simpl; split; intros H;
    try reflexivity; try discriminate H.
  - apply andb_true_iff in H as [Hxy Hab].
    apply Byte.byte_dec_bl in Hxy. apply IH in Hab. congruence.
  - injection H as -> ->. apply andb_true_iff. split.
    + apply Byte.byte_dec_lb. reflexivity.
    + apply IH. reflexivity.
Qed.

Lemma bytes_Equal_neq (a b : list Byte.byte) :
  a <> b -> bytes_Equal a b = false.
Proof.
  intros Hne. destruct (bytes_Equal a b) eqn:H; [| reflexivity].
  apply bytes_Equal_eq in H. contradiction.
Qed.


(** C9. A payload with no protocol ID, or whose first protocol ID is not
    the codec's, is returned as it came, with no message and no error.
    Under the codec's protocol ID, fewer push datas than the message
    needs (3 for [UnlockingData], 2 for [UnlockingSize]) give an error
    caused by [ErrInvalidMessage], and a version that reads as a number
    other than 0 gives an error caused by [ErrUnsupportedVersion]. *)
Theorem Parse_failures {SN : ScriptNumbers} :
  (forall p, envelope.ProtocolIDs p = [] -> unlocking_data.Parse p = (None, p, None))
  /\ (forall p id ids,
         envelope.ProtocolIDs p = id :: ids -> id <> unlocking_data.ProtocolID ->
         unlocking_data.Parse p = (None, p, None))
  /\ (forall p ids,
         envelope.ProtocolIDs p = unlocking_data.ProtocolID :: ids ->
         (length (envelope.Payload p) < 3)%nat ->
         exists e, unlocking_data.Parse p
                   = (None, {| envelope.ProtocolIDs := ids;
                               envelope.Payload := envelope.Payload p |}, Some e)
                        /\ Cause e = ErrInvalidMessage)
  /\ (forall p ids p0 p1 p2 items version,
         envelope.ProtocolIDs p = unlocking_data.ProtocolID :: ids ->
         envelope.Payload p = p0 :: p1 :: p2 :: items ->
         ScriptNumberValue p0 = (version, None) -> version <> 0 ->
         exists e, unlocking_data.Parse p
                   = (None, {| envelope.ProtocolIDs := ids;
                               envelope.Payload := envelope.Payload p |}, Some e)
                        /\ Cause e = ErrUnsupportedVersion)
  /\ (forall p, envelope.ProtocolIDs p = [] -> unlocking_size.Parse p = (None, p, None))
  /\ (forall p id ids,
         envelope.ProtocolIDs p = id :: ids -> id <> unlocking_size.ProtocolID ->
         unlocking_size.Parse p = (None, p, None))
  /\ (forall p ids,
         envelope.ProtocolIDs p = unlocking_size.ProtocolID :: ids ->
         (length (envelope.Payload p) < 2)%nat ->
         exists e, unlocking_size.Parse p
                   = (None, {| envelope.ProtocolIDs := ids;
                               envelope.Payload := envelope.Payload p |}, Some e)
                        /\ Cause e = ErrInvalidMessage)
  /\ (forall p ids p0 p1 items version,
         envelope.ProtocolIDs p = unlocking_size.ProtocolID :: ids ->
         envelope.Payload p = p0 :: p1 :: items ->
         ScriptNumberValue p0 = (version, None) -> version <> 0 ->
         exists e, unlocking_size.Parse p
                   = (None, {| envelope.ProtocolIDs := ids;
                               envelope.Payload := envelope.Payload p |}, Some e)
                        /\ Cause e = ErrUnsupportedVersion).
Proof.
  repeat apply conj.
  - intros p Hids. unfold unlocking_data.Parse. rewrite Hids. reflexivity.
  - intros p id ids Hids Hne. unfold unlocking_data.Parse.
    rewrite Hids, (bytes_Equal_neq _ _ Hne). reflexivity.
  - intros p ids Hids Hshort. unfold unlocking_data.Parse. rewrite Hids.
    destruct (envelope.Payload p) as [| p0 [| p1 [| p2 items]]] eqn:Hp;
      simpl in Hshort; try lia; simpl; eexists; split; reflexivity.
  - intros p ids p0 p1 p2 items version Hids Hp Hv Hnz.
    unfold unlocking_data.Parse. rewrite Hids. simpl. rewrite Hp, Hv.
    destruct (Z.eqb_spec version 0) as [? | _]; [contradiction |].
    rewrite <- Hp. eexists; split; reflexivity.
  - intros p Hids. unfold unlocking_size.Parse. rewrite Hids. reflexivity.
  - intros p id ids Hids Hne. unfold unlocking_size.Parse.
    rewrite Hids, (bytes_Equal_neq _ _ Hne). reflexivity.
  - intros p ids Hids Hshort. unfold unlocking_size.Parse. rewrite Hids.
    destruct (envelope.Payload p) as [| p0 [| p1 items]] eqn:Hp;
      simpl in Hshort; try lia; simpl; eexists; split; reflexivity.
  - intros p ids p0 p1 items version Hids Hp Hv Hnz.
    unfold unlocking_size.Parse. rewrite Hids. simpl. rewrite Hp, Hv.
    destruct (Z.eqb_spec version 0) as [? | _]; [contradiction |].
    rewrite <- Hp. eexists; split; reflexivity.
Qed.

(** *** The reference script numbers read back what they push *)

Lemma Z_of_byte_of_Z (z : Z) : Z_of_byte (byte_of_Z z) = z mod 256.
Proof.
  unfold Z_of_byte, byte_of_Z.
  assert (Hr : 0 <= z mod 256 < 256) by (apply Z.mod_pos_bound; lia).
  destruct (Byte.of_N (Z.to_N (z mod 256))) as [b |] eqn:Hb.
  - apply Byte.to_of_N in Hb. rewrite Hb. apply Z2N.id. lia.
  - apply Byte.of_N_None_iff in Hb. lia.
Qed.

Lemma Z_of_byte_range (b : Byte.byte) : 0 <= Z_of_byte b < 256.
Proof.
  unfold Z_of_byte. pose proof (Byte.to_N_bounded b). lia.
Qed.

Lemma le_value_le_bytes (n : nat) :
  forall z, 0 <= z < 256 ^ Z.of_nat n -> le_value (le_bytes n z) = z.
Proof.
  induction n as [| n IH]; intros z Hz.
  - simpl in *. lia.
  - simpl le_bytes. destruct (Z.eqb_spec z 0) as [-> | Hnz]; [reflexivity |].
    simpl le_value. rewrite Z_of_byte_of_Z, IH.
    + pose proof (Z.div_mod z 256 ltac:(lia)). lia.
    + rewrite Nat2Z.inj_succ, Z.pow_succ_r in Hz by lia.
      split; [apply Z.div_pos; lia | apply Z.div_lt_upper_bound; lia].
Qed.

Lemma length_le_bytes (n : nat) : forall z, (length (le_bytes n z) <= n)%nat.
Proof.
  induction n as [| n IH]; intros z; simpl; [lia |].
  destruct (z =? 0); simpl; [lia |]. specialize (IH (z / 256)). lia.
Qed.

Lemma le_value_snoc_zero (l : list Byte.byte) : le_value (l ++ [Byte.x00]) = le_value l.
Proof.
  induction l as [| b l IH]; simpl; [reflexivity |]. rewrite IH. reflexivity.
Qed.

Lemma top_bit_set_snoc_zero (l : list Byte.byte) : top_bit_set (l ++ [Byte.x00]) = false.
Proof. unfold top_bit_set. rewrite last_snoc. reflexivity. Qed.

Lemma number_value_unsigned_push (data : list Byte.byte) (v : Z) :
  (length data <= 8)%nat -> top_bit_set data = false ->
  le_value data = v -> is_u64 v ->
  number_value_unsigned (push_item data) = (v, None).
Proof.
  intros Hlen Htop Hval Hv. unfold number_value_unsigned, push_item. simpl.
  destruct (Z.ltb_spec 8 (len data)) as [Hgt | _]; [unfold len in Hgt; lia |].
  rewrite Htop, Hval, (u64_id v Hv). reflexivity.
Qed.

(** The little-endian bytes of a number of full width: as many as the
    width, the last one the most significant. *)
Lemma le_bytes_full (n : nat) :
  forall z, 256 ^ Z.of_nat n <= z < 256 ^ Z.of_nat (S n) ->
    length (le_bytes (S n) z) = S n
    /\ last (le_bytes (S n) z) = Some (byte_of_Z (z / 256 ^ Z.of_nat n)).
Proof.
  induction n as [| n IH]; intros z Hz.
  - change (256 ^ Z.of_nat 0) with 1 in *. change (256 ^ Z.of_nat 1) with 256 in Hz.
    simpl le_bytes. destruct (Z.eqb_spec z 0) as [? | _]; [lia |].
    rewrite Z.div_1_r. split; reflexivity.
  - assert (Hpow : 0 < 256 ^ Z.of_nat n) by (apply Z.pow_pos_nonneg; lia).
    assert (Hs : 256 ^ Z.of_nat (S n) = 256 * 256 ^ Z.of_nat n)
      by (rewrite Nat2Z.inj_succ, Z.pow_succ_r; lia).
    assert (Hss : 256 ^ Z.of_nat (S (S n)) = 256 * 256 ^ Z.of_nat (S n))
      by (rewrite (Nat2Z.inj_succ (S n)), Z.pow_succ_r; lia).
    change (le_bytes (S (S n)) z)
      with (if z =? 0 then [] else byte_of_Z z :: le_bytes (S n) (z / 256)).
    destruct (Z.eqb_spec z 0) as [? | _]; [lia |].
    destruct (IH (z / 256)) as [Hlen Hlast].
    { split; [apply Z.div_le_lower_bound; lia | apply Z.div_lt_upper_bound; lia]. }
    split; [cbn [length]; rewrite Hlen; reflexivity |].
    rewrite last_cons, Hlast. f_equal. f_equal.
    rewrite Hs, Z.div_div by lia. reflexivity.
Qed.

Lemma le_bytes_more (n : nat) :
  forall z, 0 <= z < 256 ^ Z.of_nat n -> le_bytes (S n) z = le_bytes n z.
Proof.
  induction n as [| n IH]; intros z Hz.
  - simpl in Hz. assert (z = 0) by lia. subst z. reflexivity.
  - change (le_bytes (S (S n)) z)
      with (if z =? 0 then [] else byte_of_Z z :: le_bytes (S n) (z / 256)).
    change (le_bytes (S n) z)
      with (if z =? 0 then [] else byte_of_Z z :: le_bytes n (z / 256)).
    destruct (z =? 0); [reflexivity |]. f_equal. apply IH.
    rewrite Nat2Z.inj_succ, Z.pow_succ_r in Hz by lia.
    split; [apply Z.div_pos; lia | apply Z.div_lt_upper_bound; lia].
Qed.

(** The reference script numbers read back every number below [2^63]
    and refuse the others: a [uint64] of [2^63] or more is pushed as 8
    bytes and a sign byte. *)
Lemma reference_unsigned_roundtrip (v : Z) :
  0 <= v < 2 ^ 63 -> reads_back (SN := numbers) v.
Proof.
  intros Hv. unfold reads_back. simpl. unfold push_number.
  assert (Hu : is_u64 v) by (unfold is_u64; lia).
  destruct (Z.eqb_spec v 0) as [-> | Hnz]; [reflexivity |].
  destruct (Z.eqb_spec v (-1)) as [-> | _]; [lia |].
  destruct (Z.ltb_spec 0 v) as [Hpos | ?]; [| lia].
  destruct (Z.leb_spec v 16) as [Hsmall | Hbig]; simpl andb; cbv iota.
  - unfold number_value_unsigned, op_item. simpl.
    rewrite Z_of_byte_of_Z, Z.mod_small by lia.
    destruct (Z.eqb_spec (80 + v) 0) as [? | _]; [lia |].
    destruct (Z.leb_spec 81 (80 + v)) as [_ | ?]; [| lia].
    destruct (Z.leb_spec (80 + v) 96) as [_ | ?]; [| lia].
    simpl. f_equal. lia.
  - rewrite Z.abs_eq by lia.
    destruct (Z.ltb_spec v 0) as [? | _]; [lia |].
    assert (Hval : le_value (le_bytes 8 v) = v).
    { apply le_value_le_bytes. simpl. lia. }
    pose proof (length_le_bytes 8 v) as Hlen.
    destruct (top_bit_set (le_bytes 8 v)) eqn:Htop.
    + destruct (Z.lt_ge_cases v (256 ^ 7)) as [Hlow | Hhigh].
      * assert (H7 : le_bytes 8 v = le_bytes 7 v)
          by (apply (le_bytes_more 7); simpl; lia).
        pose proof (length_le_bytes 7 v) as Hlen7.
        apply number_value_unsigned_push; auto.
        -- rewrite length_app, H7. change (length [Byte.x00]) with 1%nat. lia.
        -- apply top_bit_set_snoc_zero.
        -- rewrite le_value_snoc_zero. exact Hval.
      * exfalso. destruct (le_bytes_full 7 v) as [_ Hlast]; [simpl; lia |].
        unfold top_bit_set in Htop. rewrite Hlast in Htop.
        rewrite Z_of_byte_of_Z in Htop.
        assert (Hq : 0 <= v / 256 ^ Z.of_nat 7 < 128).
        { split; [apply Z.div_pos; simpl; lia | apply Z.div_lt_upper_bound; simpl; lia]. }
        rewrite Z.mod_small in Htop by lia.
        destruct (Z.leb_spec 128 (v / 256 ^ Z.of_nat 7)); [lia | discriminate Htop].
    + apply number_value_unsigned_push; auto.
Qed.




(** A payload of another protocol, a payload that is too short, and a
    payload of version 1, through the reference script numbers. *)
Lemma Parse_failures_witness :
  unlocking_data.Parse {| envelope.ProtocolIDs := [unlocking_size.ProtocolID];
                          envelope.Payload := [] |}
  = (None, {| envelope.ProtocolIDs := [unlocking_size.ProtocolID];
              envelope.Payload := [] |}, None)
  /\ (exists e,
        unlocking_data.Parse {| envelope.ProtocolIDs := [unlocking_data.ProtocolID];
                                envelope.Payload := [push_number 0; push_number 108] |}
        = (None, {| envelope.ProtocolIDs := [];
                    envelope.Payload := [push_number 0; push_number 108] |}, Some e)
        /\ Cause e = ErrInvalidMessage)
  /\ (exists e,
        unlocking_size.Parse {| envelope.ProtocolIDs := [unlocking_size.ProtocolID];
                                envelope.Payload := [push_number 1; push_number 108] |}
        = (None, {| envelope.ProtocolIDs := [];
                    envelope.Payload := [push_number 1; push_number 108] |}, Some e)
        /\ Cause e = ErrUnsupportedVersion).
Proof.
  destruct (Parse_failures (SN := numbers))
    as [_ [Hother [Hshort [_ [_ [_ [_ Hversion]]]]]]].
  split; [| split].
  - apply (Hother _ unlocking_size.ProtocolID []); [reflexivity | discriminate].
  - apply (Hshort {| envelope.ProtocolIDs := [unlocking_data.ProtocolID];
                     envelope.Payload := [push_number 0; push_number 108] |} []);
      [reflexivity | simpl; lia].
  - apply (Hversion {| envelope.ProtocolIDs := [unlocking_size.ProtocolID];
                       envelope.Payload := [push_number 1; push_number 108] |}
             [] (push_number 1) (push_number 108) [] 1);
      [reflexivity | reflexivity | reflexivity | discriminate].
Defined.

(** ** Binary64 rounding and the fee for a size *)

(** The number of binary digits of a mantissa. *)
Lemma digits2_pos_bounds (p : positive) :
  2 ^ (Zpos (digits2_pos p) - 1) <= Zpos p < 2 ^ Zpos (digits2_pos p).
Proof.
  induction p as [p IH | p IH |]; simpl digits2_pos.
  - rewrite Pos2Z.inj_succ.
    replace (Z.succ (Zpos (digits2_pos p)) - 1) with (Z.succ (Zpos (digits2_pos p) - 1)) by lia.
    rewrite !Z.pow_succ_r by lia. lia.
  - rewrite Pos2Z.inj_succ.
    replace (Z.succ (Zpos (digits2_pos p)) - 1) with (Z.succ (Zpos (digits2_pos p) - 1)) by lia.
    rewrite !Z.pow_succ_r by lia. lia.
  - simpl. lia.
Qed.

Lemma Zdigits2_bounds (m : Z) :
  0 < m -> 0 < Zdigits2 m /\ 2 ^ (Zdigits2 m - 1) <= m < 2 ^ Zdigits2 m.
Proof.
  destruct m as [| p | p]; try lia. intros _. simpl.
  split; [lia | apply digits2_pos_bounds].
Qed.

Lemma Zdigits2_unique (m n : Z) :
  0 < m -> 2 ^ (n - 1) <= m < 2 ^ n -> Zdigits2 m = n.
Proof.
  intros Hm [Hlo Hhi].
  destruct (Zdigits2_bounds m Hm) as [Hd [Hdlo Hdhi]].
  assert (0 < n).
  { destruct (Z.le_gt_cases n 0) as [Hle | ?]; [| assumption].
    assert (2 ^ n <= 2 ^ 0) by (destruct (Z.eq_dec n 0) as [-> | ?];
      [lia | rewrite Z.pow_neg_r by lia; simpl; lia]).
    simpl in *. lia. }
  destruct (Z.lt_trichotomy (Zdigits2 m) n) as [Hlt | [Heq | Hgt]]; [| exact Heq |].
  - assert (2 ^ Zdigits2 m <= 2 ^ (n - 1)) by (apply Z.pow_le_mono_r; lia). lia.
  - assert (2 ^ n <= 2 ^ (Zdigits2 m - 1)) by (apply Z.pow_le_mono_r; lia). lia.
Qed.

(** Right shifts, one bit at a time. *)
Lemma iter_pos_nat {A : Type} (f : A -> A) (p : positive) :
  forall x, SpecFloat.iter_pos f p x = Nat.iter (Pos.to_nat p) f x.
Proof.
  induction p as [p IH | p IH |]; intros x; simpl SpecFloat.iter_pos.
  - rewrite !IH, Pos2Nat.inj_xI.
    rewrite <- Nat.iter_add, <- Nat.iter_succ_r.
    replace (S (2 * Pos.to_nat p)) with (S (Pos.to_nat p + Pos.to_nat p)) by lia.
    reflexivity.
  - rewrite !IH, Pos2Nat.inj_xO. rewrite <- Nat.iter_add.
    replace (2 * Pos.to_nat p)%nat with (Pos.to_nat p + Pos.to_nat p)%nat by lia.
    reflexivity.
  - reflexivity.
Qed.

Lemma shr_1_nonneg (m : Z) (r s : bool) :
  0 <= m ->
  shr_1 {| shr_m := m; shr_r := r; shr_s := s |}
  = {| shr_m := m / 2; shr_r := Z.odd m; shr_s := r || s |}.
Proof.
  intros Hm. rewrite <- Z.div2_div.
  destruct m as [| [p | p |] | p]; try lia; reflexivity.
Qed.


Lemma iter_shr_1 (m : Z) (k : nat) :
  0 <= m ->
  Nat.iter (S k) shr_1 {| shr_m := m; shr_r := false; shr_s := false |} = shifted m k.
Proof.
  intros Hm. induction k as [| k IH].
  - rewrite Nat.iter_succ. change (Nat.iter 0 shr_1 ?x) with x.
    rewrite shr_1_nonneg by lia.
    unfold shifted. simpl Z.of_nat.
    rewrite Z.pow_0_r, Z.pow_1_r, Z.div_1_r, Z.mod_1_r. reflexivity.
  - rewrite Nat.iter_succ, IH. unfold shifted.
    rewrite shr_1_nonneg by (apply Z.div_pos; lia).
    assert (Hp : 0 < 2 ^ Z.of_nat k) by (apply Z.pow_pos_nonneg; lia).
    assert (Hs : 2 ^ Z.of_nat (S k) = 2 ^ Z.of_nat k * 2)
      by (rewrite Nat2Z.inj_succ, Z.pow_succ_r; lia).
    assert (Hss : 2 ^ Z.of_nat (S (S k)) = 2 ^ Z.of_nat (S k) * 2)
      by (rewrite (Nat2Z.inj_succ (S k)), Z.pow_succ_r; lia).
    f_equal.
    + rewrite Hss, Z.div_div by lia. reflexivity.
    + rewrite Hs, Z.rem_mul_r by lia. rewrite Zmod_odd.
      pose proof (Z.mod_pos_bound m (2 ^ Z.of_nat k) Hp) as Hlow.
      destruct (Z.odd (m / 2 ^ Z.of_nat k)); simpl.
      * destruct (Z.eqb_spec (m mod 2 ^ Z.of_nat k + 2 ^ Z.of_nat k * 1) 0); [lia | reflexivity].
      * rewrite Z.mul_0_r, Z.add_0_r. reflexivity.
Qed.


Lemma round_shifted (m : Z) (k : nat) :
  0 <= m ->
  round_nearest_even (shr_m (shifted m k)) (loc_of_shr_record (shifted m k))
  = rne m (Z.of_nat (S k)).
Proof.
  intros Hm. unfold shifted, rne. simpl shr_m.
  assert (Hp : 0 < 2 ^ Z.of_nat k) by (apply Z.pow_pos_nonneg; lia).
  assert (Hs : 2 ^ Z.of_nat (S k) = 2 ^ Z.of_nat k * 2)
    by (rewrite Nat2Z.inj_succ, Z.pow_succ_r; lia).
  pose proof (Z.mod_pos_bound m (2 ^ Z.of_nat k) Hp) as Hlow.
  assert (Hmod : m mod 2 ^ Z.of_nat (S k)
                 = m mod 2 ^ Z.of_nat k
                   + 2 ^ Z.of_nat k * (if Z.odd (m / 2 ^ Z.of_nat k) then 1 else 0)).
  { rewrite Hs, Z.rem_mul_r by lia. rewrite Zmod_odd. reflexivity. }
  rewrite Hmod. rewrite Hs.
  destruct (Z.odd (m / 2 ^ Z.of_nat k)); simpl loc_of_shr_record.
  - destruct (Z.eqb_spec (m mod 2 ^ Z.of_nat k) 0) as [Hz | Hnz]; simpl.
    + destruct (Z.ltb_spec (2 * (m mod 2 ^ Z.of_nat k + 2 ^ Z.of_nat k * 1))
                  (2 ^ Z.of_nat k * 2)); [lia |].
      destruct (Z.ltb_spec (2 ^ Z.of_nat k * 2)
                  (2 * (m mod 2 ^ Z.of_nat k + 2 ^ Z.of_nat k * 1))); [lia |].
      reflexivity.
    + destruct (Z.ltb_spec (2 * (m mod 2 ^ Z.of_nat k + 2 ^ Z.of_nat k * 1))
                  (2 ^ Z.of_nat k * 2)); [lia |].
      destruct (Z.ltb_spec (2 ^ Z.of_nat k * 2)
                  (2 * (m mod 2 ^ Z.of_nat k + 2 ^ Z.of_nat k * 1))); [| lia].
      reflexivity.
  - destruct (Z.eqb_spec (m mod 2 ^ Z.of_nat k) 0) as [Hz | Hnz]; simpl;
      (destruct (Z.ltb_spec (2 * (m mod 2 ^ Z.of_nat k + 2 ^ Z.of_nat k * 0))
                  (2 ^ Z.of_nat k * 2)); [reflexivity | lia]).
Qed.

(** ** Properties of rne *)

Lemma rne_0 (m : Z) : rne m 0 = m.
Proof.
  unfold rne. rewrite Z.pow_0_r, Z.div_1_r, Z.mod_1_r. reflexivity.
Qed.

Lemma rne_bounds (m k : Z) :
  0 <= k -> m / 2 ^ k <= rne m k <= m / 2 ^ k + 1.
Proof.
  intros Hk. unfold rne.
  destruct (2 * (m mod 2 ^ k) <? 2 ^ k); [lia |].
  destruct (2 ^ k <? 2 * (m mod 2 ^ k)); [lia |].
  destruct (Z.even (m / 2 ^ k)); lia.
Qed.

Lemma rne_exact (m k : Z) :
  0 <= k -> m mod 2 ^ k = 0 -> rne m k = m / 2 ^ k.
Proof.
  intros Hk Hmod. unfold rne. rewrite Hmod.
  assert (0 < 2 ^ k) by (apply Z.pow_pos_nonneg; lia).
  destruct (Z.ltb_spec (2 * 0) (2 ^ k)); [reflexivity | lia].
Qed.

Lemma rne_mul_pow (n k : Z) : 0 <= k -> rne (n * 2 ^ k) k = n.
Proof.
  intros Hk.
  assert (0 < 2 ^ k) by (apply Z.pow_pos_nonneg; lia).
  rewrite rne_exact by (try apply Z.mod_mul; lia).
  apply Z.div_mul. lia.
Qed.

Lemma rne_mono (m1 m2 k : Z) :
  0 <= k -> m1 <= m2 -> rne m1 k <= rne m2 k.
Proof.
  intros Hk Hle.
  assert (Hp : 0 < 2 ^ k) by (apply Z.pow_pos_nonneg; lia).
  pose proof (Z.div_le_mono m1 m2 (2 ^ k) Hp Hle) as Hq.
  destruct (Z.eq_dec (m1 / 2 ^ k) (m2 / 2 ^ k)) as [Heq | Hne].
  - pose proof (Z.div_mod m1 (2 ^ k) ltac:(lia)) as H1.
    pose proof (Z.div_mod m2 (2 ^ k) ltac:(lia)) as H2.
    assert (Hlow : m1 mod 2 ^ k <= m2 mod 2 ^ k) by (rewrite Heq in H1; nia).
    unfold rne. rewrite Heq.
    destruct (Z.ltb_spec (2 * (m1 mod 2 ^ k)) (2 ^ k));
      destruct (Z.ltb_spec (2 * (m2 mod 2 ^ k)) (2 ^ k));
      destruct (Z.ltb_spec (2 ^ k) (2 * (m1 mod 2 ^ k)));
      destruct (Z.ltb_spec (2 ^ k) (2 * (m2 mod 2 ^ k)));
      destruct (Z.even (m2 / 2 ^ k)); lia.
  - pose proof (rne_bounds m1 k Hk). pose proof (rne_bounds m2 k Hk). lia.
Qed.

Lemma rne_scale (m k j : Z) :
  0 <= k -> 0 <= j -> rne (m * 2 ^ j) (k + j) = rne m k.
Proof.
  intros Hk Hj. unfold rne.
  assert (Hpk : 0 < 2 ^ k) by (apply Z.pow_pos_nonneg; lia).
  assert (Hpj : 0 < 2 ^ j) by (apply Z.pow_pos_nonneg; lia).
  rewrite Z.pow_add_r by lia.
  rewrite Z.div_mul_cancel_r by lia.
  rewrite Z.mul_mod_distr_r by lia.
  destruct (Z.ltb_spec (2 * (m mod 2 ^ k)) (2 ^ k));
    destruct (Z.ltb_spec (2 * (m mod 2 ^ k * 2 ^ j)) (2 ^ k * 2 ^ j));
    destruct (Z.ltb_spec (2 ^ k) (2 * (m mod 2 ^ k)));
    destruct (Z.ltb_spec (2 ^ k * 2 ^ j) (2 * (m mod 2 ^ k * 2 ^ j)));
    try reflexivity; exfalso; nia.
Qed.

(** ** shr_fexp *)

Lemma fexp_eq (x : Z) : fexp prec emax x = Z.max (x - 53) (-1074).
Proof. reflexivity. Qed.


Lemma shr_fexp_spec (m e : Z) :
  0 <= m ->
  exists mrs,
    shr_fexp prec emax m e loc_Exact = (mrs, e + shift_of m e)
    /\ shr_m mrs = m / 2 ^ shift_of m e
    /\ round_nearest_even (shr_m mrs) (loc_of_shr_record mrs) = rne m (shift_of m e).
Proof.
  intros Hm. unfold shr_fexp, shr, shift_of, raw_shift.
  destruct (fexp prec emax (Zdigits2 m + e) - e) as [| p | p] eqn:Hn.
  - eexists. split; [rewrite Z.add_0_r; reflexivity |].
    simpl. rewrite rne_0, Z.div_1_r. auto.
  - rewrite iter_pos_nat.
    destruct (Pos2Nat.is_succ p) as [k Hk]. rewrite Hk.
    simpl shr_record_of_loc. rewrite iter_shr_1 by exact Hm.
    assert (Hp : Z.max 0 (Z.pos p) = Z.of_nat (S k)) by lia.
    rewrite Hp.
    eexists. split; [f_equal; lia |].
    split; [reflexivity | apply round_shifted; exact Hm].
  - eexists. split; [f_equal; lia |].
    replace (Z.max 0 (Z.neg p)) with 0 by lia.
    simpl. rewrite rne_0, Z.div_1_r. auto.
Qed.

Lemma binary_round_aux_spec (s : bool) (m e : Z) :
  0 <= m ->
  binary_round_aux prec emax s m e loc_Exact
  = let R := rne m (shift_of m e) in
    let E := e + shift_of m e in
    match R / 2 ^ shift_of R E with
    | Z0 => S754_zero s
    | Zpos p => if E + shift_of R E <=? emax - prec
                then S754_finite s p (E + shift_of R E) else S754_infinity s
    | Zneg _ => S754_nan
    end.
Proof.
  intros Hm. unfold binary_round_aux.
  destruct (shr_fexp_spec m e Hm) as [mrs [H1 [_ Hr]]].
  rewrite H1, Hr.
  assert (HR : 0 <= rne m (shift_of m e)).
  { pose proof (rne_bounds m (shift_of m e) ltac:(unfold shift_of; lia)).
    assert (0 <= m / 2 ^ shift_of m e) by (apply Z.div_pos; [lia | apply Z.pow_pos_nonneg; unfold shift_of; lia]).
    lia. }
  destruct (shr_fexp_spec (rne m (shift_of m e)) (e + shift_of m e) HR) as [mrs2 [H2 [Hm2 _]]].
  rewrite H2, Hm2. reflexivity.
Qed.

Lemma pow2_pos (k : Z) : 0 <= k -> 0 < 2 ^ k.
Proof. intros. apply Z.pow_pos_nonneg; lia. Qed.

Lemma digits_le_of_lt (x n : Z) : 0 < x -> 0 <= n -> x < 2 ^ n -> Zdigits2 x <= n.
Proof.
  intros Hx Hn Hlt. destruct (Zdigits2_bounds x Hx) as [Hd [Hlo _]].
  destruct (Z.le_gt_cases (Zdigits2 x) n) as [? | Hgt]; [assumption |].
  assert (2 ^ n <= 2 ^ (Zdigits2 x - 1)) by (apply Z.pow_le_mono_r; lia). lia.
Qed.

Lemma shift_of_zero (E : Z) : -1074 <= E -> shift_of 0 E = 0.
Proof. intros HE. unfold shift_of, raw_shift. rewrite fexp_eq. simpl Zdigits2. lia. Qed.

(** The second shift of [binary_round_aux] loses nothing, and the
    mantissa that comes out has at most 53 bits; it has 53 bits when the
    mantissa that came in had at least 53 and the result is not
    subnormal. *)
Lemma second_shift (m e : Z) :
  0 < m ->
  let R := rne m (shift_of m e) in
  let E := e + shift_of m e in
  let M := R / 2 ^ shift_of R E in
  0 <= shift_of R E <= 1
  /\ M * 2 ^ shift_of R E = R
  /\ 0 <= M < 2 ^ 53
  /\ (53 <= Zdigits2 m -> -1074 <= Zdigits2 m + e - 53 -> 2 ^ 52 <= M).
Proof.
  intros Hm R E M.
  destruct (Zdigits2_bounds m Hm) as [Hd [Hlo Hhi]].
  assert (HK2 : 0 <= shift_of R E) by (unfold shift_of; lia).
  cut (shift_of R E <= 1
       /\ M * 2 ^ shift_of R E = R
       /\ 0 <= M < 2 ^ 53
       /\ (53 <= Zdigits2 m -> -1074 <= Zdigits2 m + e - 53 -> 2 ^ 52 <= M)).
  { intros [H1 H2]. split; [split; assumption | exact H2]. }
  assert (Hraw : raw_shift m e = Z.max (Zdigits2 m + e - 53) (-1074) - e)
    by (unfold raw_shift; rewrite fexp_eq; reflexivity).
  destruct (Z.le_gt_cases (raw_shift m e) 0) as [Hle | Hgt].
  - (* no first shift *)
    assert (HK1 : shift_of m e = 0) by (unfold shift_of; lia).
    assert (HR : R = m) by (unfold R; rewrite HK1; apply rne_0).
    assert (HE : E = e) by (unfold E; lia).
    assert (HK2' : shift_of R E = 0).
    { rewrite HR, HE. unfold shift_of. lia. }
    unfold M. rewrite HK2', Z.pow_0_r, Z.div_1_r, Z.mul_1_r, HR.
    assert (Zdigits2 m <= 53) by lia.
    assert (2 ^ Zdigits2 m <= 2 ^ 53) by (apply Z.pow_le_mono_r; lia).
    split; [lia |]. split; [reflexivity |]. split; [lia |].
    intros H53 _. replace (Zdigits2 m) with 53 in Hlo by lia. exact Hlo.
  - (* a first shift by K1 > 0 *)
    assert (HK1 : shift_of m e = raw_shift m e) by (unfold shift_of; lia).
    set (K1 := shift_of m e) in *.
    assert (HE : -1074 <= E) by (unfold E; lia).
    assert (HKd : Zdigits2 m - 53 <= K1) by lia.
    pose proof (pow2_pos K1 ltac:(lia)) as HpK.
    pose proof (rne_bounds m K1 ltac:(lia)) as Hb. fold R in Hb.
    assert (Hq0 : 0 <= m / 2 ^ K1) by (apply Z.div_pos; lia).
    destruct (Z.lt_ge_cases (Zdigits2 m) K1) as [Hbig | Hsmall].
    + (* everything is shifted out *)
      assert (Hpd : 2 ^ Zdigits2 m <= 2 ^ (K1 - 1)) by (apply Z.pow_le_mono_r; lia).
      assert (Hp1 : 2 ^ K1 = 2 * 2 ^ (K1 - 1)).
      { replace K1 with (Z.succ (K1 - 1)) at 1 by lia. apply Z.pow_succ_r. lia. }
      assert (HR0 : R = 0).
      { unfold R, rne. rewrite Z.div_small, Z.mod_small by lia.
        destruct (Z.ltb_spec (2 * m) (2 ^ K1)); [reflexivity | lia]. }
      unfold M. rewrite HR0, shift_of_zero by exact HE.
      change (0 / 2 ^ 0) with 0.
      split; [lia |]. split; [reflexivity |]. split; [lia |]. intros. lia.
    + (* the quotient keeps [Zdigits2 m - K1] bits *)
      assert (Hup : R <= 2 ^ (Zdigits2 m - K1)).
      { unfold R. rewrite <- (rne_mul_pow (2 ^ (Zdigits2 m - K1)) K1) by lia.
        apply rne_mono; [lia |].
        rewrite <- Z.pow_add_r by lia.
        replace (Zdigits2 m - K1 + K1) with (Zdigits2 m) by lia. lia. }
      assert (Hup53 : 2 ^ (Zdigits2 m - K1) <= 2 ^ 53) by (apply Z.pow_le_mono_r; lia).
      assert (Hlow : Zdigits2 m - K1 = 53 -> 2 ^ 52 <= m / 2 ^ K1).
      { intros H53. apply Z.div_le_lower_bound; [lia |].
        rewrite Z.mul_comm, <- Z.pow_add_r by lia.
        replace (52 + K1) with (Zdigits2 m - 1) by lia. exact Hlo. }
      destruct (Z.eq_dec R 0) as [HR0 | HRnz].
      * unfold M. rewrite HR0, shift_of_zero by exact HE.
        change (0 / 2 ^ 0) with 0.
        split; [lia |]. split; [reflexivity |]. split; [lia |].
        intros H53 Hnormal. assert (Zdigits2 m - K1 = 53) by lia.
        specialize (Hlow H). lia.
      * assert (HRpos : 0 < R) by lia.
        destruct (Z.eq_dec R (2 ^ 53)) as [HR53 | HRne].
        -- assert (HK2' : shift_of R E = 1).
           { rewrite HR53. unfold shift_of, raw_shift. rewrite fexp_eq.
             change (Zdigits2 (2 ^ 53)) with 54. lia. }
           unfold M. rewrite HK2', HR53.
           change (2 ^ 53 / 2 ^ 1) with (2 ^ 52).
           split; [lia |]. split; [reflexivity |]. split; [lia |]. intros; lia.
        -- assert (HRlt : R < 2 ^ 53) by lia.
           pose proof (digits_le_of_lt R 53 HRpos ltac:(lia) HRlt) as HdR.
           assert (HK2' : shift_of R E = 0).
           { unfold shift_of, raw_shift. rewrite fexp_eq. lia. }
           unfold M. rewrite HK2', Z.pow_0_r, Z.div_1_r, Z.mul_1_r.
           split; [lia |]. split; [reflexivity |]. split; [lia |].
           intros H53 Hnormal. assert (Zdigits2 m - K1 = 53) by lia.
           specialize (Hlow H). lia.
Qed.

(** ** Values *)


Lemma Qtwo_neq_0 : ~ (2 == 0)%Q.
Proof. discriminate. Qed.

Lemma Qpow2_pos (e : Z) : (0 < 2 ^ e)%Q.
Proof. apply Qpower_0_lt. reflexivity. Qed.

Lemma inject_Z_pow2 (j : Z) : 0 <= j -> (inject_Z (2 ^ j) == 2 ^ j)%Q.
Proof. intros Hj. rewrite Zpower_Qpower by exact Hj. reflexivity. Qed.

Lemma val_shift (m e j : Z) : 0 <= j -> (val (m * 2 ^ j) e == val m (e + j))%Q.
Proof.
  intros Hj. unfold val.
  rewrite inject_Z_mult, inject_Z_pow2 by exact Hj.
  rewrite Qpower_plus by exact Qtwo_neq_0. ring.
Qed.

Lemma val_le_same (a b e : Z) : (val a e <= val b e)%Q <-> a <= b.
Proof.
  unfold val. rewrite Qmult_le_r by apply Qpow2_pos.
  rewrite <- Zle_Qle. reflexivity.
Qed.

Lemma val_le_iff (e0 m1 e1 m2 e2 : Z) :
  e0 <= e1 -> e0 <= e2 ->
  (val m1 e1 <= val m2 e2)%Q <-> m1 * 2 ^ (e1 - e0) <= m2 * 2 ^ (e2 - e0).
Proof.
  intros H1 H2.
  rewrite <- (val_le_same _ _ e0).
  rewrite !val_shift by lia.
  replace (e0 + (e1 - e0)) with e1 by lia.
  replace (e0 + (e2 - e0)) with e2 by lia.
  reflexivity.
Qed.

Lemma val_pos (m e : Z) : 0 < m -> (0 < val m e)%Q.
Proof.
  intros Hm. unfold val.
  apply Qmult_lt_0_compat; [| apply Qpow2_pos].
  rewrite Zlt_Qlt in Hm. exact Hm.
Qed.

Lemma val_0 (e : Z) : (val 0 e == 0)%Q.
Proof. unfold val. ring. Qed.

Lemma val_mul (m1 e1 m2 e2 : Z) :
  (val (m1 * m2) (e1 + e2) == val m1 e1 * val m2 e2)%Q.
Proof.
  unfold val. rewrite inject_Z_mult, Qpower_plus by exact Qtwo_neq_0. ring.
Qed.

Lemma Zdigits2_mul_pow (m j : Z) :
  0 < m -> 0 <= j -> Zdigits2 (m * 2 ^ j) = Zdigits2 m + j.
Proof.
  intros Hm Hj. destruct (Zdigits2_bounds m Hm) as [Hd [Hlo Hhi]].
  pose proof (pow2_pos j Hj).
  apply Zdigits2_unique; [nia |].
  replace (Zdigits2 m + j - 1) with (Zdigits2 m - 1 + j) by lia.
  rewrite !Z.pow_add_r by lia. nia.
Qed.

Lemma Zdigits2_mono (a b : Z) : 0 < a -> a <= b -> Zdigits2 a <= Zdigits2 b.
Proof.
  intros Ha Hab.
  destruct (Zdigits2_bounds a Ha) as [Hda [Hlo _]].
  destruct (Zdigits2_bounds b ltac:(lia)) as [Hdb [_ Hhi]].
  apply digits_le_of_lt; lia.
Qed.

(** Rounding does not depend on how the value is split into mantissa
    and exponent. *)
Lemma RNval_scale (m e j : Z) :
  0 < m -> 0 <= j -> (RNval (m * 2 ^ j) (e - j) == RNval m e)%Q.
Proof.
  intros Hm Hj. unfold RNval.
  assert (Hraw : raw_shift (m * 2 ^ j) (e - j) = raw_shift m e + j).
  { unfold raw_shift. rewrite !fexp_eq, Zdigits2_mul_pow by assumption. lia. }
  unfold shift_of. rewrite Hraw.
  destruct (Z.le_gt_cases 0 (raw_shift m e)) as [Hpos | Hneg].
  - replace (Z.max 0 (raw_shift m e + j)) with (Z.max 0 (raw_shift m e) + j) by lia.
    rewrite rne_scale by lia.
    replace (e - j + (Z.max 0 (raw_shift m e) + j)) with (e + Z.max 0 (raw_shift m e)) by lia.
    reflexivity.
  - replace (Z.max 0 (raw_shift m e)) with 0 by lia.
    rewrite rne_0, Z.add_0_r.
    destruct (Z.le_gt_cases 0 (raw_shift m e + j)) as [Hpos' | Hneg'].
    + replace (Z.max 0 (raw_shift m e + j)) with (raw_shift m e + j) by lia.
      replace (m * 2 ^ j) with (m * 2 ^ (- raw_shift m e) * 2 ^ (raw_shift m e + j)).
      * rewrite rne_mul_pow by lia. rewrite val_shift by lia.
        replace (e - j + (raw_shift m e + j) + - raw_shift m e) with e by lia.
        reflexivity.
      * rewrite <- Z.mul_assoc, <- Z.pow_add_r by lia. f_equal. f_equal. lia.
    + replace (Z.max 0 (raw_shift m e + j)) with 0 by lia.
      rewrite rne_0, Z.add_0_r, val_shift by lia.
      replace (e - j + j) with e by lia. reflexivity.
Qed.

Lemma shift_of_mono (a b e : Z) : 0 < a -> a <= b -> shift_of a e <= shift_of b e.
Proof.
  intros Ha Hab. pose proof (Zdigits2_mono a b Ha Hab).
  unfold shift_of, raw_shift. rewrite !fexp_eq. lia.
Qed.

Lemma RNval_mono_same (a b e : Z) :
  0 < a -> a <= b -> (RNval a e <= RNval b e)%Q.
Proof.
  intros Ha Hab. unfold RNval.
  pose proof (shift_of_mono a b e Ha Hab) as HG.
  assert (HGa : 0 <= shift_of a e) by (unfold shift_of; lia).
  apply (val_le_iff e); [lia | lia |].
  replace (e + shift_of a e - e) with (shift_of a e) by lia.
  replace (e + shift_of b e - e) with (shift_of b e) by lia.
  destruct (Z.eq_dec (shift_of a e) (shift_of b e)) as [Heq | Hne].
  - rewrite <- Heq. pose proof (pow2_pos (shift_of a e) HGa).
    pose proof (rne_mono a b (shift_of a e) HGa Hab). nia.
  - destruct (Zdigits2_bounds a Ha) as [Hda [_ Hahi]].
    destruct (Zdigits2_bounds b ltac:(lia)) as [Hdb [Hblo _]].
    set (Ga := shift_of a e) in *. set (Gb := shift_of b e) in *.
    assert (HGb : Gb = Zdigits2 b - 53).
    { unfold Gb, Ga, shift_of, raw_shift in *. rewrite !fexp_eq in *. lia. }
    assert (HDa : Zdigits2 a <= Gb + 52).
    { unfold Gb, Ga, shift_of, raw_shift in *. rewrite !fexp_eq in *. lia. }
    (* both sides against W = 2 ^ (Gb + 52) *)
    assert (HaW : a <= 2 ^ (Gb + 52 - Ga) * 2 ^ Ga).
    { rewrite <- Z.pow_add_r by lia. replace (Gb + 52 - Ga + Ga) with (Gb + 52) by lia.
      assert (2 ^ Zdigits2 a <= 2 ^ (Gb + 52)) by (apply Z.pow_le_mono_r; lia). lia. }
    assert (HWb : 2 ^ 52 * 2 ^ Gb <= b).
    { rewrite <- Z.pow_add_r by lia. replace (52 + Gb) with (Zdigits2 b - 1) by lia.
      exact Hblo. }
    pose proof (rne_mono _ _ Ga HGa HaW) as H1. rewrite rne_mul_pow in H1 by lia.
    pose proof (rne_mono _ _ Gb ltac:(lia) HWb) as H2. rewrite rne_mul_pow in H2 by lia.
    pose proof (pow2_pos Ga HGa). pose proof (pow2_pos Gb ltac:(lia)).
    assert (HW : 2 ^ (Gb + 52 - Ga) * 2 ^ Ga = 2 ^ 52 * 2 ^ Gb).
    { rewrite <- !Z.pow_add_r by lia. f_equal. lia. }
    nia.
Qed.

(** Rounding is monotone in the value. *)
Lemma RNval_mono (m1 e1 m2 e2 : Z) :
  0 < m1 -> 0 < m2 ->
  (val m1 e1 <= val m2 e2)%Q -> (RNval m1 e1 <= RNval m2 e2)%Q.
Proof.
  intros H1 H2 Hle.
  set (e0 := Z.min e1 e2).
  apply (val_le_iff e0) in Hle; [| lia | lia].
  rewrite <- (RNval_scale m1 e1 (e1 - e0)) by lia.
  rewrite <- (RNval_scale m2 e2 (e2 - e0)) by lia.
  replace (e1 - (e1 - e0)) with e0 by lia.
  replace (e2 - (e2 - e0)) with e0 by lia.
  apply RNval_mono_same; [| exact Hle].
  pose proof (pow2_pos (e1 - e0) ltac:(lia)). nia.
Qed.


Lemma Qpow2_val (n : Z) : (2 ^ n == val 1 n)%Q.
Proof. unfold val. ring. Qed.

(** What [binary_round_aux] returns for a positive mantissa. *)
Lemma round_result (s : bool) (m e : Z) :
  0 < m ->
  match binary_round_aux prec emax s m e loc_Exact with
  | S754_zero s' => s' = s /\ (RNval m e == 0)%Q
  | S754_finite s' p e' =>
    s' = s /\ (val (Zpos p) e' == RNval m e)%Q /\ Zpos p < 2 ^ 53 /\ e' <= 971
    /\ (53 <= Zdigits2 m -> -1074 <= Zdigits2 m + e - 53 -> 2 ^ 52 <= Zpos p)
  | S754_infinity s' =>
    s' = s /\ 971 <= e + shift_of m e
    /\ (53 <= Zdigits2 m -> (2 ^ 1024 <= RNval m e)%Q)
  | S754_nan => False
  end.
Proof.
  intros Hm. rewrite binary_round_aux_spec by lia. cbv zeta.
  destruct (second_shift m e Hm) as [[HK2 HK2'] [Hexact [Hrange Hnormal]]].
  unfold RNval.
  set (R := rne m (shift_of m e)) in *.
  set (E := e + shift_of m e) in *.
  set (K2 := shift_of R E) in *.
  destruct (R / 2 ^ K2) as [| p | p] eqn:HM.
  - split; [reflexivity |]. rewrite <- Hexact. simpl. apply val_0.
  - change (emax - prec) with 971.
    assert (Hval : (val (Z.pos p) (E + K2) == val R E)%Q).
    { rewrite <- Hexact, val_shift by lia. reflexivity. }
    destruct (Z.leb_spec (E + K2) 971) as [Hfin | Hinf].
    + split; [reflexivity |]. split; [exact Hval |]. split; [lia |]. split; [lia |].
      exact Hnormal.
    + split; [reflexivity |]. split; [lia |]. intros H53.
      assert (HE : E = Z.max (Z.max (Zdigits2 m + e - 53) (-1074)) e).
      { unfold E, shift_of, raw_shift. rewrite fexp_eq. lia. }
      assert (Hn : -1074 <= Zdigits2 m + e - 53) by lia.
      specialize (Hnormal H53 Hn).
      rewrite <- Hval, Qpow2_val.
      apply (val_le_iff 972); [lia | lia |].
      pose proof (pow2_pos (E + K2 - 972) ltac:(lia)).
      change (2 ^ (1024 - 972)) with (2 ^ 52). nia.
  - lia.
Qed.


(** ** Conversions from integers *)

Lemma Pos_iter_xO (p d : positive) : Zpos (Pos.iter xO p d) = Zpos p * 2 ^ Zpos d.
Proof.
  induction d as [| d IH] using Pos.peano_ind.
  - simpl. lia.
  - rewrite Pos.iter_succ, Pos2Z.inj_xO, IH, Pos2Z.inj_succ, Z.pow_succ_r by lia. lia.
Qed.

Lemma shl_align_spec (p : positive) (e e' : Z) :
  snd (shl_align p e e') = Z.min e e'
  /\ Zpos (fst (shl_align p e e')) = Zpos p * 2 ^ (e - Z.min e e').
Proof.
  unfold shl_align. destruct (e' - e) as [| d | d] eqn:Hd; simpl.
  - replace (Z.min e e') with e by lia. rewrite Z.sub_diag. lia.
  - replace (Z.min e e') with e by lia. rewrite Z.sub_diag. lia.
  - replace (Z.min e e') with e' by lia. split; [reflexivity |].
    rewrite Pos_iter_xO. f_equal. f_equal. lia.
Qed.

(** What [binary_round] returns. *)
Lemma binary_round_result (s : bool) (p : positive) (e : Z) :
  match binary_round prec emax s p e with
  | S754_zero s' => s' = s /\ (RNval (Zpos p) e == 0)%Q
  | S754_finite s' q e' =>
    s' = s /\ (val (Zpos q) e' == RNval (Zpos p) e)%Q /\ Zpos q < 2 ^ 53 /\ e' <= 971
    /\ (-1074 <= Zdigits2 (Zpos p) + e - 53 -> 2 ^ 52 <= Zpos q)
  | S754_infinity s' => s' = s /\ (2 ^ 1024 <= RNval (Zpos p) e)%Q
  | S754_nan => False
  end.
Proof.
  unfold binary_round.
  destruct (shl_align_spec p e (fexp prec emax (Zpos (digits2_pos p) + e))) as [Hez Hmz].
  destruct (shl_align p e (fexp prec emax (Zpos (digits2_pos p) + e))) as [mz ez].
  simpl in Hez, Hmz.
  change (Zpos (digits2_pos p)) with (Zdigits2 (Zpos p)) in *.
  rewrite fexp_eq in Hez, Hmz.
  set (d := Zdigits2 (Zpos p)) in *.
  assert (Hd : 0 < d) by (unfold d; simpl; lia).
  assert (Hj : 0 <= e - ez) by lia.
  assert (Hscale : (RNval (Zpos mz) ez == RNval (Zpos p) e)%Q).
  { rewrite Hmz. rewrite <- (RNval_scale (Zpos p) e (e - ez)) by lia.
    replace (e - (e - ez)) with ez by lia. rewrite Hez. reflexivity. }
  assert (Hdz : Zdigits2 (Zpos mz) = d + (e - ez)).
  { rewrite Hmz, <- Hez. apply Zdigits2_mul_pow; lia. }
  pose proof (round_result s (Zpos mz) ez ltac:(lia)) as H.
  destruct (binary_round_aux prec emax s (Zpos mz) ez loc_Exact) as [s' | s' | | s' q e'].
  - destruct H as [Hs Hv]. split; [exact Hs |]. rewrite <- Hscale. exact Hv.
  - destruct H as [Hs [HE Hv]]. split; [exact Hs |]. rewrite <- Hscale.
    apply Hv. unfold shift_of, raw_shift in HE. rewrite fexp_eq, Hdz in HE. lia.
  - exact H.
  - destruct H as [Hs [Hv [Hq [He' Hn]]]].
    split; [exact Hs |]. split; [rewrite <- Hscale; exact Hv |].
    split; [exact Hq |]. split; [exact He' |].
    intros Hnormal. apply Hn; lia.
Qed.

Lemma val_0_exp (m : Z) : (val m 0 == inject_Z m)%Q.
Proof. unfold val. simpl. ring. Qed.

(** A positive integer of at most 53 bits, and 2^53, convert exactly. *)
Lemma RNval_exact_int (c : Z) : 0 < c <= 2 ^ 53 -> (RNval c 0 == inject_Z c)%Q.
Proof.
  intros [Hpos Hle]. rewrite <- val_0_exp.
  destruct (Z.eq_dec c (2 ^ 53)) as [-> | Hne].
  - vm_compute. reflexivity.
  - pose proof (digits_le_of_lt c 53 Hpos ltac:(lia) ltac:(lia)) as Hd.
    unfold RNval.
    assert (HK : shift_of c 0 = 0) by (unfold shift_of, raw_shift; rewrite fexp_eq; lia).
    rewrite HK, rne_0. reflexivity.
Qed.

Lemma Qpow2_le_inject (n c : Z) : 0 <= n -> (2 ^ n <= inject_Z c)%Q -> 2 ^ n <= c.
Proof.
  intros Hn H. rewrite <- inject_Z_pow2 in H by exact Hn.
  rewrite <- Zle_Qle in H. exact H.
Qed.

Lemma of_int_exact (c : Z) :
  0 < c <= 2 ^ 53 ->
  exists q e', of_int c = S754_finite false q e'
               /\ (val (Zpos q) e' == inject_Z c)%Q /\ Zpos q < 2 ^ 53.
Proof.
  intros Hc. pose proof (RNval_exact_int c Hc) as Hex.
  unfold of_int, binary_normalize. destruct c as [| p | p]; try lia.
  pose proof (binary_round_result false p 0) as H.
  destruct (binary_round prec emax false p 0) as [s' | s' | | s' q e'].
  - destruct H as [_ Hv]. rewrite Hex in Hv. discriminate Hv.
  - destruct H as [_ Hv]. rewrite Hex in Hv.
    apply Qpow2_le_inject in Hv; [| lia].
    assert (2 ^ 53 < 2 ^ 1024) by (apply Z.pow_lt_mono_r; lia). lia.
  - contradiction.
  - destruct H as [-> [Hv [Hq _]]]. exists q, e'.
    split; [reflexivity |]. split; [rewrite Hv; exact Hex | exact Hq].
Qed.

(** ** Truncation, ceiling and floor *)

Lemma val_neg_exp (m e : Z) :
  e < 0 -> (val m e == inject_Z m / inject_Z (2 ^ (- e)))%Q.
Proof.
  intros He. unfold val, Qdiv.
  rewrite inject_Z_pow2 by lia.
  rewrite <- Qpower_opp. replace (- - e) with e by lia. reflexivity.
Qed.

Lemma Qfloor_val (m e : Z) :
  Qfloor (val m e) = if 0 <=? e then m * 2 ^ e else m / 2 ^ (- e).
Proof.
  destruct (Z.leb_spec 0 e) as [Hpos | Hneg].
  - rewrite <- (Qfloor_Z (m * 2 ^ e)). apply Qfloor_comp.
    rewrite <- val_0_exp, val_shift by lia. reflexivity.
  - rewrite Zdiv_Qdiv. apply Qfloor_comp. apply val_neg_exp. exact Hneg.
Qed.

Lemma val_opp (m e : Z) : (- val m e == val (- m) e)%Q.
Proof. unfold val. rewrite inject_Z_opp. ring. Qed.

Lemma Qceiling_val (m e : Z) :
  Qceiling (val m e) = if 0 <=? e then m * 2 ^ e else ceil_shift m e.
Proof.
  unfold Qceiling. rewrite (Qfloor_comp _ _ (val_opp m e)), Qfloor_val.
  unfold ceil_shift. destruct (0 <=? e); lia.
Qed.

Lemma trunc_finite (q : positive) (e : Z) :
  trunc (S754_finite false q e) = Some (Qfloor (val (Zpos q) e)).
Proof. unfold trunc. rewrite Qfloor_val. reflexivity. Qed.

Lemma to_Q_finite (q : positive) (e : Z) :
  to_Q (S754_finite false q e) = val (Zpos q) e.
Proof. reflexivity. Qed.


Lemma val_small_le (q e : Z) : 0 < q < 2 ^ 53 -> e < 0 -> (val q e <= inject_Z (2 ^ 53))%Q.
Proof.
  intros Hq He. rewrite <- val_0_exp.
  apply (val_le_iff e); [lia | lia |].
  rewrite Z.sub_diag, Z.pow_0_r.
  pose proof (pow2_pos (0 - e) ltac:(lia)). nia.
Qed.

Lemma trunc_of_int_exact (c : Z) : 0 < c <= 2 ^ 53 -> trunc (of_int c) = Some c.
Proof.
  intros Hc. destruct (of_int_exact c Hc) as [q [e' [Heq [Hv _]]]].
  rewrite Heq, trunc_finite. f_equal.
  rewrite (Qfloor_comp _ _ Hv). apply Qfloor_Z.
Qed.

Lemma Ceil_trunc (x : float64) :
  small_nonneg x -> trunc (Ceil x) = Some (Qceiling (to_Q x)).
Proof.
  destruct x as [s | s | | s q e]; simpl small_nonneg; try contradiction.
  - intros _. reflexivity.
  - intros [-> Hq]. rewrite to_Q_finite, Qceiling_val. unfold Ceil.
    destruct (Z.leb_spec 0 e) as [Hpos | Hneg].
    + rewrite trunc_finite, Qfloor_val.
      destruct (Z.leb_spec 0 e); [reflexivity | lia].
    + simpl cond_Zopp.
      assert (Hc : ceil_shift (Zpos q) e = Qceiling (val (Zpos q) e)).
      { rewrite Qceiling_val. destruct (Z.leb_spec 0 e); [lia | reflexivity]. }
      assert (Hc1 : 0 < ceil_shift (Zpos q) e).
      { rewrite Hc. pose proof (Qle_ceiling (val (Zpos q) e)) as Hle.
        pose proof (val_pos (Zpos q) e ltac:(lia)) as Hpos.
        rewrite Zlt_Qlt. eapply Qlt_le_trans; eassumption. }
      assert (Hc2 : ceil_shift (Zpos q) e <= 2 ^ 53).
      { rewrite Hc. rewrite <- (Qceiling_Z (2 ^ 53)).
        apply Qceiling_resp_le. apply val_small_le; lia. }
      destruct (Z.eqb_spec (ceil_shift (Zpos q) e) 0) as [? | _]; [lia |].
      apply (trunc_of_int_exact (ceil_shift (Zpos q) e)). lia.
Qed.

Lemma Floor_trunc (x : float64) :
  small_nonneg x -> trunc (Floor x) = Some (Qfloor (to_Q x)).
Proof.
  destruct x as [s | s | | s q e]; simpl small_nonneg; try contradiction.
  - intros _. reflexivity.
  - intros [-> Hq]. rewrite to_Q_finite, Qfloor_val. unfold Floor.
    destruct (Z.leb_spec 0 e) as [Hpos | Hneg].
    + rewrite trunc_finite, Qfloor_val.
      destruct (Z.leb_spec 0 e); [reflexivity | lia].
    + simpl cond_Zopp. unfold floor_shift.
      pose proof (pow2_pos (- e) ltac:(lia)) as Hp.
      assert (Hc0 : 0 <= Zpos q / 2 ^ (- e)) by (apply Z.div_pos; lia).
      assert (Hc2 : Zpos q / 2 ^ (- e) <= 2 ^ 53).
      { apply Z.div_le_upper_bound; [lia |]. nia. }
      destruct (Z.eqb_spec (Zpos q / 2 ^ (- e)) 0) as [Hz | Hnz].
      * rewrite Hz. reflexivity.
      * apply (trunc_of_int_exact (Zpos q / 2 ^ (- e))). lia.
Qed.

(** ** The product of a size and a rate *)


Lemma to_uint64_eq {PF : Platform} (x : float64) (t : Z) :
  trunc x = Some t -> 0 <= t < 2 ^ 64 -> to_uint64 x = t.
Proof.
  intros Ht Hr. unfold to_uint64. rewrite Ht.
  destruct (Z.leb_spec 0 t); [| lia].
  destruct (Z.ltb_spec t (2 ^ 64)); [reflexivity | lia].
Qed.

Lemma small_nonneg_finite (x : float64) : small_nonneg x -> is_finite x = true.
Proof. destruct x; simpl; tauto. Qed.

Lemma small_nonneg_to_Q (x : float64) : small_nonneg x -> (0 <= to_Q x)%Q.
Proof.
  destruct x as [s | s | | s q e]; simpl small_nonneg; try contradiction.
  - intros _. apply Qle_refl.
  - intros [-> _]. rewrite to_Q_finite. apply Qlt_le_weak, val_pos. lia.
Qed.

Lemma finite_below_max (q e : Z) :
  0 < q < 2 ^ 53 -> e <= 971 -> ~ (2 ^ 1024 <= val q e)%Q.
Proof.
  intros Hq He H. rewrite Qpow2_val in H.
  apply (val_le_iff e) in H; [| lia | lia].
  rewrite Z.sub_diag, Z.pow_0_r in H.
  assert (2 ^ 53 <= 2 ^ (1024 - e)) by (apply Z.pow_le_mono_r; lia). lia.
Qed.

(** A rounded positive product: finite with the rounded value, or
    infinite. *)
Lemma round_finite (m e : Z) :
  0 < m ->
  is_finite (binary_round_aux prec emax false m e loc_Exact) = true ->
  small_nonneg (binary_round_aux prec emax false m e loc_Exact)
  /\ (to_Q (binary_round_aux prec emax false m e loc_Exact) == RNval m e)%Q
  /\ ~ (2 ^ 1024 <= RNval m e)%Q.
Proof.
  intros Hm Hfin. pose proof (round_result false m e Hm) as H.
  destruct (binary_round_aux prec emax false m e loc_Exact) as [s | s | | s q e'];
    try discriminate Hfin.
  - destruct H as [_ Hv]. split; [exact I |]. split; [symmetry; exact Hv |].
    rewrite Hv. intros Hle. apply Qle_not_lt in Hle. apply Hle. apply Qpow2_pos.
  - destruct H as [-> [Hv [Hq [He _]]]].
    split; [split; [reflexivity | exact Hq] |]. split; [exact Hv |].
    rewrite <- Hv. apply finite_below_max; lia.
Qed.

Lemma round_infinite (m e : Z) :
  0 < m -> 53 <= Zdigits2 m ->
  is_finite (binary_round_aux prec emax false m e loc_Exact) = false ->
  (2 ^ 1024 <= RNval m e)%Q.
Proof.
  intros Hm Hd Hinf. pose proof (round_result false m e Hm) as H.
  destruct (binary_round_aux prec emax false m e loc_Exact) as [s | s | | s q e'];
    try discriminate Hinf.
  - destruct H as [_ [_ Hv]]. exact (Hv Hd).
  - contradiction.
Qed.

Lemma RNval_int_pos (n : Z) : 0 < n -> (0 < RNval n 0)%Q.
Proof.
  intros Hn.
  assert (Hle : (val 1 0 <= val n 0)%Q) by (apply val_le_same; lia).
  apply RNval_mono in Hle; [| lia | lia].
  eapply Qlt_le_trans; [| exact Hle].
  rewrite RNval_exact_int by lia. reflexivity.
Qed.

(** [float64(n)] for a positive integer: a normal number, or infinite. *)
Lemma of_int_pos (n : Z) :
  0 < n ->
  (exists p e, of_int n = S754_finite false p e
               /\ 2 ^ 52 <= Zpos p < 2 ^ 53 /\ e <= 971
               /\ (val (Zpos p) e == RNval n 0)%Q)
  \/ (of_int n = S754_infinity false /\ (2 ^ 1024 <= RNval n 0)%Q).
Proof.
  intros Hn. pose proof (RNval_int_pos n Hn) as Hpos.
  unfold of_int, binary_normalize. destruct n as [| p | p]; try lia.
  pose proof (binary_round_result false p 0) as H.
  destruct (binary_round prec emax false p 0) as [s' | s' | | s' q e'].
  - destruct H as [_ Hv]. rewrite Hv in Hpos. discriminate Hpos.
  - destruct H as [-> Hv]. right. auto.
  - contradiction.
  - destruct H as [-> [Hv [Hq [He Hnormal]]]]. left. exists q, e'.
    split; [reflexivity |]. split; [| auto]. split; [| exact Hq].
    apply Hnormal. simpl. lia.
Qed.

Lemma nonneg_cases (r : float64) :
  nonneg r = true ->
  (exists s, r = S754_zero s) \/ (exists p e, r = S754_finite false p e).
Proof.
  destruct r as [s | s | | [|] p e]; simpl; try discriminate; eauto.
Qed.

Lemma digits_product (p1 p2 : positive) :
  2 ^ 52 <= Zpos p1 -> 53 <= Zdigits2 (Zpos (p1 * p2)).
Proof.
  intros H1.
  destruct (Zdigits2_bounds (Zpos (p1 * p2)) ltac:(lia)) as [Hd [_ Hhi]].
  destruct (Z.le_gt_cases 53 (Zdigits2 (Zpos (p1 * p2)))) as [? | Hlt]; [assumption |].
  assert (2 ^ Zdigits2 (Zpos (p1 * p2)) <= 2 ^ 52) by (apply Z.pow_le_mono_r; lia).
  assert (Hmul : Zpos (p1 * p2) = Zpos p1 * Zpos p2) by lia.
  assert (Hp2 : 1 <= Zpos p2) by lia.
  nia.
Qed.

Lemma mul_finite_finite (p1 p2 : positive) (e1 e2 : Z) :
  mul (S754_finite false p1 e1) (S754_finite false p2 e2)
  = binary_round_aux prec emax false (Zpos (p1 * p2)) (e1 + e2) loc_Exact.
Proof. reflexivity. Qed.

(** A finite product of a size and a rate is zero or positive, with a
    mantissa of at most 53 bits. *)
Lemma mul_small (s : Z) (r : float64) :
  0 <= s -> nonneg r = true ->
  is_finite (mul (of_int s) r) = true -> small_nonneg (mul (of_int s) r).
Proof.
  intros Hs Hr Hfin.
  destruct (Z.eq_dec s 0) as [-> | Hnz].
  - destruct (nonneg_cases r Hr) as [[sr ->] | [pr [er ->]]]; exact I.
  - destruct (of_int_pos s ltac:(lia)) as [[p [e [Heq _]]] | [Heq _]];
      rewrite Heq in *;
      destruct (nonneg_cases r Hr) as [[sr ->] | [pr [er ->]]];
      try exact I; try discriminate Hfin.
    rewrite mul_finite_finite in *.
    apply round_finite; [lia | exact Hfin].
Qed.

(** The product is monotone in the size, and finite below a finite
    product. *)
Lemma mul_mono (s1 s2 : Z) (r : float64) :
  0 <= s1 <= s2 -> nonneg r = true ->
  is_finite (mul (of_int s2) r) = true ->
  is_finite (mul (of_int s1) r) = true
  /\ (to_Q (mul (of_int s1) r) <= to_Q (mul (of_int s2) r))%Q.
Proof.
  intros [Hs1 Hle] Hr Hfin2.
  pose proof (mul_small s2 r ltac:(lia) Hr Hfin2) as Hsmall2.
  pose proof (small_nonneg_to_Q _ Hsmall2) as Hpos2.
  destruct (Z.eq_dec s1 0) as [-> | Hnz1].
  { destruct (nonneg_cases r Hr) as [[sr ->] | [pr [er ->]]];
      (split; [reflexivity | exact Hpos2]). }
  assert (Hv12 : (RNval s1 0 <= RNval s2 0)%Q).
  { apply RNval_mono; [lia | lia |]. apply val_le_same. lia. }
  destruct (of_int_pos s2 ltac:(lia)) as [[p2 [e2 [Heq2 [Hp2 [He2 Hv2]]]]] | [Heq2 _]].
  2:{ rewrite Heq2 in Hfin2.
      destruct (nonneg_cases r Hr) as [[sr ->] | [pr [er ->]]]; discriminate Hfin2. }
  destruct (of_int_pos s1 ltac:(lia)) as [[p1 [e1 [Heq1 [Hp1 [He1 Hv1]]]]] | [_ Hinf1]].
  2:{ exfalso. apply (finite_below_max (Zpos p2) e2 ltac:(lia) He2).
      rewrite Hv2. eapply Qle_trans; eassumption. }
  rewrite Heq1, Heq2 in *.
  destruct (nonneg_cases r Hr) as [[sr ->] | [pr [er ->]]].
  { split; [reflexivity | apply Qle_refl]. }
  rewrite !mul_finite_finite in *.
  assert (Hprod : (val (Zpos (p1 * pr)) (e1 + er) <= val (Zpos (p2 * pr)) (e2 + er))%Q).
  { rewrite !Pos2Z.inj_mul, !val_mul.
    apply Qmult_le_compat_r.
    - rewrite Hv1, Hv2. exact Hv12.
    - apply Qlt_le_weak, val_pos. lia. }
  apply RNval_mono in Hprod; [| lia | lia].
  destruct (round_finite (Zpos (p2 * pr)) (e2 + er) ltac:(lia) Hfin2) as [_ [HQ2 Hmax2]].
  destruct (is_finite (binary_round_aux prec emax false (Zpos (p1 * pr)) (e1 + er) loc_Exact))
    eqn:Hfin1.
  - split; [reflexivity |].
    destruct (round_finite (Zpos (p1 * pr)) (e1 + er) ltac:(lia) Hfin1) as [_ [HQ1 _]].
    rewrite HQ1, HQ2. exact Hprod.
  - exfalso. apply Hmax2. eapply Qle_trans; [| exact Hprod].
    apply round_infinite; [lia | | exact Hfin1].
    apply digits_product. lia.
Qed.

Lemma representable_finite (x : float64) :
  representable (Ceil x) \/ representable (Floor x) -> is_finite x = true.
Proof.
  intros [[t [Ht _]] | [t [Ht _]]]; destruct x; simpl in *; try discriminate Ht; reflexivity.
Qed.

Lemma rne_near (m k : Z) : 0 <= k -> 2 * Z.abs (rne m k * 2 ^ k - m) <= 2 ^ k.
Proof.
  intros Hk. unfold rne.
  pose proof (pow2_pos k Hk) as HP.
  pose proof (Z.div_mod m (2 ^ k) ltac:(lia)) as Hdm.
  pose proof (Z.mod_pos_bound m (2 ^ k) HP) as Hlow.
  set (P := 2 ^ k) in *. set (q := m / P) in *. set (low := m mod P) in *.
  destruct (2 * low <? P) eqn:H1; [apply Z.ltb_lt in H1; nia |].
  apply Z.ltb_ge in H1.
  destruct (P <? 2 * low) eqn:H2; [apply Z.ltb_lt in H2; nia |].
  apply Z.ltb_ge in H2.
  destruct (Z.even q); nia.
Qed.

Lemma val_rel_le (a b e : Z) :
  a * (2 ^ 53 - 1) <= b * 2 ^ 53 -> (val a e * (1 - unit_roundoff) <= val b e)%Q.
Proof.
  intros H. unfold val.
  assert (E : (inject_Z a * 2 ^ e * (1 - unit_roundoff)
               == inject_Z a * (1 - unit_roundoff) * 2 ^ e)%Q) by ring.
  rewrite E.
  apply Qmult_le_compat_r; [| apply Qlt_le_weak, Qpow2_pos].
  unfold Qle, unit_roundoff. simpl. lia.
Qed.

Lemma val_rel_ge (a b e : Z) :
  b * 2 ^ 53 <= a * (2 ^ 53 + 1) -> (val b e <= val a e * (1 + unit_roundoff))%Q.
Proof.
  intros H. unfold val.
  assert (E : (inject_Z a * 2 ^ e * (1 + unit_roundoff)
               == inject_Z a * (1 + unit_roundoff) * 2 ^ e)%Q) by ring.
  rewrite E.
  apply Qmult_le_compat_r; [| apply Qlt_le_weak, Qpow2_pos].
  unfold Qle, unit_roundoff. simpl. lia.
Qed.

(** Without underflow, rounding moves a value by at most [2^-53] of it. *)
Lemma RNval_rel (m e : Z) :
  0 < m -> -1074 <= e ->
  (val m e * (1 - unit_roundoff) <= RNval m e)%Q
  /\ (RNval m e <= val m e * (1 + unit_roundoff))%Q.
Proof.
  intros Hm He. unfold RNval.
  assert (Hk0 : 0 <= shift_of m e) by (unfold shift_of; lia).
  rewrite <- (val_shift _ e (shift_of m e) Hk0).
  pose proof (rne_near m (shift_of m e) Hk0) as Hnear.
  destruct (Zdigits2_bounds m Hm) as [Hd [Hlo _]].
  assert (Hbig : Z.abs (rne m (shift_of m e) * 2 ^ shift_of m e - m) * 2 ^ 53 <= m).
  { destruct (Z.eq_dec (shift_of m e) 0) as [Hz | Hnz].
    - rewrite Hz, rne_0. rewrite Z.pow_0_r. replace (m * 1 - m) with 0 by lia. simpl. lia.
    - assert (Hk : shift_of m e = Zdigits2 m - 53).
      { unfold shift_of, raw_shift in *. rewrite fexp_eq in *. lia. }
      rewrite Hk in *.
      replace (Zdigits2 m - 1) with (Zdigits2 m - 53 + 52) in Hlo by lia.
      rewrite Z.pow_add_r in Hlo by lia.
      change (2 ^ 53) with (2 * 2 ^ 52). nia. }
  split; [apply val_rel_le | apply val_rel_ge]; lia.
Qed.

Lemma valid_exponent (s : bool) (p : positive) (e : Z) :
  valid_binary prec emax (S754_finite s p e) = true -> -1074 <= e.
Proof.
  unfold valid_binary, bounded, canonical_mantissa. intros H.
  apply andb_prop in H as [H _]. apply Z.eqb_eq in H.
  rewrite fexp_eq in H. lia.
Qed.

Lemma RNval_eq (m1 e1 m2 e2 : Z) :
  0 < m1 -> 0 < m2 -> (val m1 e1 == val m2 e2)%Q -> (RNval m1 e1 == RNval m2 e2)%Q.
Proof.
  intros H1 H2 Hv. apply Qle_antisym; apply RNval_mono; try assumption;
    rewrite Hv; apply Qle_refl.
Qed.

(** [float64(n)] has an integer value, within [2^-53] of [n]. *)
Lemma RNval_int (n : Z) :
  0 < n ->
  exists c, 0 < c /\ (RNval n 0 == val c 0)%Q
            /\ (val n 0 * (1 - unit_roundoff) <= val c 0)%Q
            /\ (val c 0 <= val n 0 * (1 + unit_roundoff))%Q.
Proof.
  intros Hn.
  assert (Hk : 0 <= shift_of n 0) by (unfold shift_of; lia).
  exists (rne n (shift_of n 0) * 2 ^ shift_of n 0).
  assert (Hv : (RNval n 0 == val (rne n (shift_of n 0) * 2 ^ shift_of n 0) 0)%Q).
  { unfold RNval. rewrite val_shift by exact Hk. reflexivity. }
  destruct (RNval_rel n 0 Hn ltac:(lia)) as [Hlo Hhi].
  rewrite Hv in Hlo, Hhi.
  split; [| auto].
  pose proof (RNval_int_pos n Hn) as Hpos. rewrite Hv in Hpos.
  destruct (Z_lt_le_dec 0 (rne n (shift_of n 0) * 2 ^ shift_of n 0)) as [? | Hneg];
    [assumption | exfalso].
  apply (val_le_same _ 0 0) in Hneg. rewrite val_0 in Hneg.
  apply (Qlt_not_le _ _ Hpos Hneg).
Qed.

Lemma unit_roundoff_bounds : (0 <= 1 - unit_roundoff)%Q /\ (0 <= 1 + unit_roundoff)%Q.
Proof. split; vm_compute; discriminate. Qed.

(** The float64 product of a size and a rate is within two roundings of
    the exact product. *)
Lemma mul_rel (s : Z) (r : float64) :
  0 <= s -> nonneg r = true -> valid_binary prec emax r = true ->
  is_finite (mul (of_int s) r) = true ->
  (inject_Z s * to_Q r * (1 - unit_roundoff) ^ 2 <= to_Q (mul (of_int s) r))%Q
  /\ (to_Q (mul (of_int s) r) <= inject_Z s * to_Q r * (1 + unit_roundoff) ^ 2)%Q.
Proof.
  intros Hs Hr Hvalid Hfin.
  destruct unit_roundoff_bounds as [Hu1 Hu2].
  destruct (Z.eq_dec s 0) as [-> | Hnz].
  { destruct (nonneg_cases r Hr) as [[sr ->] | [pr [er ->]]];
      (split; [apply Qle_lteq; right | apply Qle_lteq; right]);
      simpl to_Q; ring. }
  destruct (nonneg_cases r Hr) as [[sr ->] | [pr [er ->]]].
  { destruct (of_int_pos s ltac:(lia)) as [[p [e [Heq _]]] | [Heq _]];
      rewrite Heq in *; try discriminate Hfin;
      (split; [apply Qle_lteq; right | apply Qle_lteq; right]);
      simpl to_Q; ring. }
  pose proof (valid_exponent _ _ _ Hvalid) as Her.
  destruct (of_int_pos s ltac:(lia)) as [[p [e [Heq [Hp [He Hv]]]]] | [Heq _]];
    rewrite Heq in *; [| discriminate Hfin].
  rewrite mul_finite_finite in *.
  destruct (round_finite (Zpos (p * pr)) (e + er) ltac:(lia) Hfin) as [_ [HQ _]].
  rewrite HQ, to_Q_finite.
  destruct (RNval_int s ltac:(lia)) as [c [Hc [Hvc [Hlo Hhi]]]].
  assert (Hprod : (val (Zpos (p * pr)) (e + er) == val (c * Zpos pr) (0 + er))%Q).
  { rewrite Pos2Z.inj_mul, !val_mul, Hv, Hvc. reflexivity. }
  assert (Hcp : 0 < c * Zpos pr) by nia.
  rewrite (RNval_eq (Zpos (p * pr)) (e + er) (c * Zpos pr) (0 + er) ltac:(lia) Hcp Hprod).
  destruct (RNval_rel (c * Zpos pr) (0 + er) Hcp ltac:(lia)) as [Hlo2 Hhi2].
  rewrite val_mul in Hlo2, Hhi2.
  rewrite (val_0_exp s) in Hlo, Hhi.
  assert (Hrpos : (0 <= val (Zpos pr) er)%Q) by (apply Qlt_le_weak, val_pos; lia).
  split.
  - eapply Qle_trans; [| exact Hlo2].
    assert (E : (inject_Z s * val (Zpos pr) er * (1 - unit_roundoff) ^ 2
                 == inject_Z s * (1 - unit_roundoff) * val (Zpos pr) er * (1 - unit_roundoff))%Q)
      by (simpl; ring).
    rewrite E.
    apply Qmult_le_compat_r; [| exact Hu1].
    apply Qmult_le_compat_r; [| exact Hrpos].
    exact Hlo.
  - eapply Qle_trans; [exact Hhi2 |].
    assert (E : (inject_Z s * val (Zpos pr) er * (1 + unit_roundoff) ^ 2
                 == inject_Z s * (1 + unit_roundoff) * val (Zpos pr) er * (1 + unit_roundoff))%Q)
      by (simpl; ring).
    rewrite E.
    apply Qmult_le_compat_r; [| exact Hu2].
    apply Qmult_le_compat_r; [| exact Hrpos].
    exact Hhi.
Qed.

Section FeeRounding.
Context {PF : Platform}.

Lemma fee_value (s : Z) (r : float64) :
  0 <= s -> nonneg r = true ->
  representable (Ceil (mul (of_int s) r)) ->
  EstimatedFeeValue s r = Qceiling (to_Q (mul (of_int s) r)).
Proof.
  intros Hs Hr Hrep.
  pose proof (representable_finite _ (or_introl Hrep)) as Hfin.
  pose proof (Ceil_trunc _ (mul_small s r Hs Hr Hfin)) as Ht.
  destruct Hrep as [t [Ht' Hrange]].
  rewrite Ht in Ht'. injection Ht' as <-.
  unfold EstimatedFeeValue. apply to_uint64_eq; assumption.
Qed.

Lemma fee_down_value (s : Z) (r : float64) :
  0 <= s -> nonneg r = true ->
  representable (Floor (mul (of_int s) r)) ->
  EstimatedFeeValueDown s r = Qfloor (to_Q (mul (of_int s) r)).
Proof.
  intros Hs Hr Hrep.
  pose proof (representable_finite _ (or_intror Hrep)) as Hfin.
  pose proof (Floor_trunc _ (mul_small s r Hs Hr Hfin)) as Ht.
  destruct Hrep as [t [Ht' Hrange]].
  rewrite Ht in Ht'. injection Ht' as <-.
  unfold EstimatedFeeValueDown. apply to_uint64_eq; assumption.
Qed.

(** C6. For sizes [0 <= s1 <= s2] and a finite, non-negative rate [r]
    for which the ceiling of the binary64 product [float64(s2) * r] is
    below [2^64], the fee for [s1] is at most the fee for [s2].  Where
    the ceiling (the floor) of the binary64 product for [s] is below
    [2^64], [EstimatedFeeValue s r] is at least, and
    [EstimatedFeeValueDown s r] is at most, that binary64 product; and
    for a rate that is a binary64 number the product is within two
    roundings of the exact one, so that the fee is at least
    [s * r * (1 - 2^-53)^2] and the floored value at most
    [s * r * (1 + 2^-53)^2].  [fees.EstimateFeeValue] computes the same
    as [EstimatedFeeValue]. *)
Theorem fee_for_size_rounding :
  (forall s1 s2 r,
      0 <= s1 <= s2 -> nonneg r = true ->
      representable (Ceil (mul (of_int s2) r)) ->
      EstimatedFeeValue s1 r <= EstimatedFeeValue s2 r)
  /\ (forall s r,
         0 <= s -> nonneg r = true ->
         representable (Ceil (mul (of_int s) r)) ->
         (to_Q (mul (of_int s) r) <= inject_Z (EstimatedFeeValue s r))%Q)
  /\ (forall s r,
         0 <= s -> nonneg r = true ->
         representable (Floor (mul (of_int s) r)) ->
         (inject_Z (EstimatedFeeValueDown s r) <= to_Q (mul (of_int s) r))%Q)
  /\ (forall s r,
         0 <= s -> nonneg r = true -> valid_binary prec emax r = true ->
         representable (Ceil (mul (of_int s) r)) ->
         (inject_Z s * to_Q r * (1 - unit_roundoff) ^ 2
          <= inject_Z (EstimatedFeeValue s r))%Q)
  /\ (forall s r,
         0 <= s -> nonneg r = true -> valid_binary prec emax r = true ->
         representable (Floor (mul (of_int s) r)) ->
         (inject_Z (EstimatedFeeValueDown s r)
          <= inject_Z s * to_Q r * (1 + unit_roundoff) ^ 2)%Q)
  /\ (forall s r, fees.EstimateFeeValue s r = EstimatedFeeValue s r).
Proof.
  split; [| split; [| split; [| split; [| split]]]].
  - intros s1 s2 r Hs Hr Hrep2.
    pose proof (representable_finite _ (or_introl Hrep2)) as Hfin2.
    destruct (mul_mono s1 s2 r Hs Hr Hfin2) as [Hfin1 Hle].
    rewrite (fee_value s2 r ltac:(lia) Hr Hrep2).
    assert (Hrep1 : representable (Ceil (mul (of_int s1) r))).
    { pose proof (mul_small s1 r ltac:(lia) Hr Hfin1) as Hsmall1.
      exists (Qceiling (to_Q (mul (of_int s1) r))).
      split; [apply Ceil_trunc; exact Hsmall1 |].
      pose proof (Qceiling_resp_le _ _ Hle) as Hc.
      pose proof (Qceiling_resp_le _ _ (small_nonneg_to_Q _ Hsmall1)) as Hc0.
      change (Qceiling 0) with 0 in Hc0.
      destruct Hrep2 as [t [Ht Hrange]].
      rewrite (Ceil_trunc _ (mul_small s2 r ltac:(lia) Hr Hfin2)) in Ht.
      injection Ht as <-. lia. }
    rewrite (fee_value s1 r ltac:(lia) Hr Hrep1).
    apply Qceiling_resp_le. exact Hle.
  - intros s r Hs Hr Hrep. rewrite (fee_value s r Hs Hr Hrep). apply Qle_ceiling.
  - intros s r Hs Hr Hrep. rewrite (fee_down_value s r Hs Hr Hrep). apply Qfloor_le.
  - intros s r Hs Hr Hvalid Hrep.
    pose proof (representable_finite _ (or_introl Hrep)) as Hfin.
    destruct (mul_rel s r Hs Hr Hvalid Hfin) as [Hlo _].
    eapply Qle_trans; [exact Hlo |].
    rewrite (fee_value s r Hs Hr Hrep). apply Qle_ceiling.
  - intros s r Hs Hr Hvalid Hrep.
    pose proof (representable_finite _ (or_intror Hrep)) as Hfin.
    destruct (mul_rel s r Hs Hr Hvalid Hfin) as [_ Hhi].
    eapply Qle_trans; [| exact Hhi].
    rewrite (fee_down_value s r Hs Hr Hrep). apply Qfloor_le.
  - intros s r. reflexivity.
Qed.

End FeeRounding.

(** The sentence as the specification has it fails in four ways: the
    ceiling of [float64(10) * 0.1] is below [10 * 0.1]; the floor of
    [float64(3) * (1/3)] is above [3 * (1/3)]; where the conversion of an
    unrepresentable float gives [2^63], the fee for [2^63 + 2^62] at rate
    1.5 is below the fee for [2^63]; and whatever that conversion gives,
    the fee for [2^63] at rate 4 is below the product. *)
Lemma fee_for_size_as_stated_fails :
  (inject_Z (EstimatedFeeValue 10 f64_0_1) < inject_Z 10 * to_Q f64_0_1)%Q
  /\ (inject_Z 3 * to_Q f64_third < inject_Z (EstimatedFeeValueDown 3 f64_third))%Q
  /\ (2 ^ 63 <= 2 ^ 63 + 2 ^ 62
      /\ EstimatedFeeValue (2 ^ 63 + 2 ^ 62) f64_1_5 < EstimatedFeeValue (2 ^ 63) f64_1_5)
  /\ (forall PF : Platform,
         (inject_Z (@EstimatedFeeValue PF (2 ^ 63) f64_4)
          < inject_Z (2 ^ 63) * to_Q f64_4)%Q).
Proof.
  split; [vm_compute; reflexivity |].
  split; [vm_compute; reflexivity |].
  split; [split; [lia | vm_compute; reflexivity] |].
  intros PF.
  assert (Hfee : @EstimatedFeeValue PF (2 ^ 63) f64_4
                 = u64 (unrepresentable_uint64 (Ceil (mul (of_int (2 ^ 63)) f64_4))))
    by reflexivity.
  rewrite Hfee.
  pose proof (u64_range (unrepresentable_uint64 (Ceil (mul (of_int (2 ^ 63)) f64_4))))
    as [_ Hlt].
  apply Qlt_le_trans with (inject_Z (2 ^ 64)).
  - rewrite <- Zlt_Qlt. exact Hlt.
  - vm_compute. discriminate.
Qed.

Lemma fee_for_size_rounding_witness :
  EstimatedFeeValue 10 f64_0_1 <= EstimatedFeeValue 20 f64_0_1
  /\ (to_Q (mul (of_int 10) f64_0_1) <= inject_Z (EstimatedFeeValue 10 f64_0_1))%Q
  /\ (inject_Z (EstimatedFeeValueDown 3 f64_third) <= to_Q (mul (of_int 3) f64_third))%Q
  /\ (inject_Z 10 * to_Q f64_0_1 * (1 - unit_roundoff) ^ 2
      <= inject_Z (EstimatedFeeValue 10 f64_0_1))%Q
  /\ (inject_Z (EstimatedFeeValueDown 3 f64_third)
      <= inject_Z 3 * to_Q f64_third * (1 + unit_roundoff) ^ 2)%Q.
Proof.
  destruct (fee_for_size_rounding (PF := platform))
    as [Hmono [Hceil [Hfloor [Hlow [Hhigh _]]]]].
  split; [| split; [| split; [| split]]].
  - apply Hmono; [lia | reflexivity |].
    exists 2. split; [vm_compute; reflexivity | lia].
  - apply Hceil; [lia | reflexivity |].
    exists 1. split; [vm_compute; reflexivity | lia].
  - apply Hfloor; [lia | reflexivity |].
    exists 1. split; [vm_compute; reflexivity | lia].
  - apply Hlow; [lia | reflexivity | reflexivity |].
    exists 1. split; [vm_compute; reflexivity | lia].
  - apply Hhigh; [lia | reflexivity | reflexivity |].
    exists 1. split; [vm_compute; reflexivity | lia].
Defined.

(** ** Arithmetic modulo [2^64] *)

Lemma eqm64_equivalence : Equivalence eqm64.
Proof.
  unfold eqm64. split.
  - intros a. reflexivity.
  - intros a b H. symmetry. exact H.
  - intros a b c H1 H2. rewrite H1. exact H2.
Qed.

#[local] Existing Instance eqm64_equivalence.

Lemma eqm64_add : Proper (eqm64 ==> eqm64 ==> eqm64) Z.add.
Proof.
  unfold eqm64. intros a a' Ha b b' Hb.
  rewrite (Z.add_mod a b), (Z.add_mod a' b') by lia. rewrite Ha, Hb. reflexivity.
Qed.

#[local] Existing Instance eqm64_add.

Lemma eqm64_sub : Proper (eqm64 ==> eqm64 ==> eqm64) Z.sub.
Proof.
  unfold eqm64. intros a a' Ha b b' Hb.
  rewrite (Zminus_mod a b), (Zminus_mod a' b'). rewrite Ha, Hb. reflexivity.
Qed.

#[local] Existing Instance eqm64_sub.

Lemma eqm64_opp : Proper (eqm64 ==> eqm64) Z.opp.
Proof.
  intros a a' Ha. change (eqm64 (0 - a) (0 - a')). rewrite Ha. reflexivity.
Qed.

#[local] Existing Instance eqm64_opp.

Lemma u64_eqm (a : Z) : eqm64 (u64 a) a.
Proof. unfold eqm64, u64. apply Z.mod_mod. lia. Qed.

Lemma i64_eqm (a : Z) : eqm64 (i64 a) a.
Proof.
  unfold i64. change ((a + 2 ^ 63) mod 2 ^ 64) with (u64 (a + 2 ^ 63)).
  rewrite u64_eqm. unfold eqm64. f_equal. lia.
Qed.

Lemma eqm64_u64 (a b : Z) : eqm64 a b -> u64 a = u64 b.
Proof. intros H. exact H. Qed.

Lemma eqm64_i64 (a b : Z) : eqm64 a b -> i64 a = i64 b.
Proof.
  intros H. unfold i64. f_equal.
  assert (H' : eqm64 (a + 2 ^ 63) (b + 2 ^ 63)) by (rewrite H; reflexivity).
  exact H'.
Qed.

Lemma i64_range (z : Z) : is_i64 (i64 z).
Proof.
  unfold is_i64, i64. pose proof (Z.mod_pos_bound (z + 2 ^ 63) (2 ^ 64) ltac:(lia)). lia.
Qed.

(** ** Sums of output values *)

Lemma total_value_app (l1 l2 : list wire.TxOut) :
  total_value (l1 ++ l2) = total_value l1 + total_value l2.
Proof.
  unfold total_value. induction l1 as [| o l1 IH]; simpl; [reflexivity |].
  rewrite IH. lia.
Qed.

Lemma total_value_insert (outs : list wire.TxOut) :
  forall (k : nat) (out : wire.TxOut) (v : Z),
    outs !! k = Some out ->
    total_value (<[k := set_Value out v]> outs) = total_value outs - wire.Value out + v.
Proof.
  unfold total_value. induction outs as [| o outs IH]; intros k out v Hk; [discriminate Hk |].
  destruct k as [| k]; simpl in *.
  - injection Hk as ->. lia.
  - rewrite (IH k out v Hk). lia.
Qed.

Lemma total_value_delete (outs : list wire.TxOut) :
  forall (k : nat) (out : wire.TxOut),
    outs !! k = Some out ->
    total_value (delete k outs) = total_value outs - wire.Value out.
Proof.
  unfold total_value. induction outs as [| o outs IH]; intros k out Hk; [discriminate Hk |].
  destruct k as [| k]; simpl in *.
  - injection Hk as ->. lia.
  - rewrite (IH k out Hk). lia.
Qed.

Section Sums.
Context {ST : ScriptTemplates} {PF : Platform} {BD : Builder}.

Lemma OutputValue_outputs_true (tx : TxBuilder) (outs : list wire.TxOut) :
  forall i acc,
    is_u64 acc ->
    OutputValue_outputs tx true i outs acc = Returns (u64 (acc + total_value outs)).
Proof.
  induction outs as [| o outs IH]; intros i acc Hacc; simpl.
  - rewrite Z.add_0_r, u64_id by exact Hacc. reflexivity.
  - rewrite IH by apply u64_range. f_equal. apply eqm64_u64.
    rewrite u64_eqm. unfold eqm64. f_equal. lia.
Qed.

Lemma OutputValue_true (tx : TxBuilder) :
  OutputValue tx true = Returns (u64 (total_value (wire.TxOut_ (MsgTx tx)))).
Proof.
  unfold OutputValue. rewrite OutputValue_outputs_true by (unfold is_u64; lia).
  reflexivity.
Qed.

Lemma index_drop {A : Type} (l : list A) (i : nat) (a : A) (rest : list A) :
  drop i l = a :: rest -> index l (Z.of_nat i) = Returns a /\ drop (S i) l = rest.
Proof.
  intros H. split.
  - apply index_lookup. rewrite <- (Nat.add_0_r i), <- lookup_drop, H. reflexivity.
  - replace (S i) with (i + 1)%nat by lia. rewrite <- drop_drop, H. reflexivity.
Qed.

Lemma index_beyond {A : Type} (l : list A) (i : nat) :
  drop i l = [] -> index l (Z.of_nat i) = Panics.
Proof.
  intros H. unfold index.
  destruct (Z.ltb_spec (Z.of_nat i) 0) as [? | _]; [reflexivity |].
  rewrite Nat2Z.id.
  destruct (l !! i) as [a |] eqn:Hl; [| reflexivity].
  apply lookup_lt_Some in Hl.
  apply (f_equal length) in H. rewrite length_drop in H. simpl in H. lia.
Qed.

End Sums.

(** ** Variable-length integers *)

(** X1. [VarIntSerializeSize] of a [uint64] below [0xfd] is 1; of any
    other it leaves, after the discriminant byte, enough bytes to hold the
    value; and a larger value never takes fewer bytes. *)
Theorem VarIntSerializeSize_fits :
  (forall val, is_u64 val ->
      (VarIntSerializeSize val = 1 /\ val < 0xfd)
      \/ (In (VarIntSerializeSize val) [3; 5; 9]
          /\ 0xfd <= val < 256 ^ (VarIntSerializeSize val - 1)))
  /\ (forall a b, a <= b -> VarIntSerializeSize a <= VarIntSerializeSize b).
Proof.
  split.
  - intros val [Hlo Hhi]. unfold VarIntSerializeSize.
    destruct (val <? 253) eqn:H1; [left; split; [reflexivity | lia] | right].
    destruct (val <=? 65535) eqn:H2; [simpl; split; [auto | lia] |].
    destruct (val <=? 4294967295) eqn:H3; [simpl; split; [auto | lia] |].
    simpl; split; [auto | lia].
  - intros a b Hab. unfold VarIntSerializeSize.
    destruct (a <? 253) eqn:A1, (b <? 253) eqn:B1,
             (a <=? 65535) eqn:A2, (b <=? 65535) eqn:B2,
             (a <=? 4294967295) eqn:A3, (b <=? 4294967295) eqn:B3; lia.
Qed.

Lemma VarIntSerializeSize_fits_witness :
  In (VarIntSerializeSize 70000) [3; 5; 9]
  /\ 0xfd <= 70000 < 256 ^ (VarIntSerializeSize 70000 - 1)
  /\ VarIntSerializeSize 252 <= VarIntSerializeSize 253.
Proof.
  destruct VarIntSerializeSize_fits as [Hfits Hmono].
  destruct (Hfits 70000 ltac:(unfold is_u64; lia)) as [[_ H] | [Hin Hr]]; [lia |].
  split; [exact Hin |]. split; [exact Hr |]. apply Hmono. lia.
Defined.

(** ** Unlocking script sizes *)

Lemma InputSize_step {ST : ScriptTemplates} (fuel : nat) (s : Script) :
  InputSize fuel s
  = let* r := UnlockingScriptSize fuel s in
    match r with
    | (_, Some err) => Returns (0, Some err)
    | (scriptSize, None) =>
      Returns (i64 (InputBaseSize + VarIntSerializeSize (u64 scriptSize) + scriptSize), None)
    end.
Proof. reflexivity. Qed.

Lemma UnlockingScriptSize_error {ST : ScriptTemplates} (fuel : nat) :
  forall s n e,
    UnlockingScriptSize fuel s = Returns (n, Some e) ->
    n = 0 /\ Cause e = ErrUnknownScriptTemplate.
Proof.
  induction fuel as [| fuel IH]; intros s n e H; [discriminate H |].
  rewrite UnlockingScriptSize_step in H.
  destruct (IsP2PK s); [discriminate H |].
  destruct (IsP2PKH s); [discriminate H |].
  destruct (MultiPKHCounts s) as [[required total] err].
  destruct (is_nil err); [discriminate H |].
  destruct (MatchScript s) as [[[info |] [err' |]] |]; cbn [bind call] in H;
    try discriminate H; try (injection H as <- <-; split; reflexivity).
  destruct (UnlockingScriptSize fuel (RemoveHardVerify (AgentLockingScript info)))
    as [[n' [e' |]] | |] eqn:Hrec; simpl in H; try discriminate H.
  injection H as <- <-. destruct (IH _ _ _ Hrec) as [_ Hc]. split; [reflexivity | exact Hc].
Qed.

Lemma EstimateUnlockingSize_step {ST : ScriptTemplates} (fuel : nat) (s : Script) :
  fees.EstimateUnlockingSize (S fuel) s
  = if IsP2PK s then Returns (fees.MaxSignaturesPushDataSize, None)
    else if IsP2PKH s
    then Returns (fees.MaxSignaturesPushDataSize + fees.PublicKeyPushDataSize, None)
    else
      let '(required, total, err) := MultiPKHCounts s in
      if is_nil err then
        Returns (i64 (i64 (u32 (total - required))
                      + i64 (i64 required
                             * (fees.MaxSignaturesPushDataSize
                                + fees.PublicKeyPushDataSize + 1))),
                 None)
      else
        let* matched := call (MatchScript s) in
        let '(info, err) := matched in
        if negb (is_nil err) then
          match info with
          | None => Panics
          | Some info =>
            let* r := fees.EstimateUnlockingSize fuel (AgentLockingScript info) in
            match r with
            | (_, Some err) => Returns (0, Some (Wrap err "agent"))
            | (agentUnlockingSize, None) =>
              Returns (ApproveUnlockingSize agentUnlockingSize, None)
            end
          end
        else Returns (0, Some ErrWrongScriptTemplate).
Proof. reflexivity. Qed.

Lemma EstimateUnlockingSize_error {ST : ScriptTemplates} (fuel : nat) :
  forall s n e,
    fees.EstimateUnlockingSize fuel s = Returns (n, Some e) ->
    n = 0 /\ Cause e = ErrWrongScriptTemplate.
Proof.
  induction fuel as [| fuel IH]; intros s n e H; [discriminate H |].
  rewrite EstimateUnlockingSize_step in H.
  destruct (IsP2PK s); [discriminate H |].
  destruct (IsP2PKH s); [discriminate H |].
  destruct (MultiPKHCounts s) as [[required total] err].
  destruct (is_nil err); [discriminate H |].
  destruct (MatchScript s) as [[info err'] |]; cbn [bind call] in H; try discriminate H.
  destruct (negb (is_nil err')); [| injection H as <- <-; split; reflexivity].
  destruct info as [info |]; [| discriminate H].
  destruct (fees.EstimateUnlockingSize fuel (AgentLockingScript info))
    as [[n' [e' |]] | |] eqn:Hrec; simpl in H; try discriminate H.
  injection H as <- <-. destruct (IH _ _ _ Hrec) as [_ Hc]. split; [reflexivity | exact Hc].
Qed.

(** X2. Whatever the depth of agent wrapping, an error of
    [UnlockingScriptSize] or [InputSize] comes with size 0 and has
    [bitcoin.ErrUnknownScriptTemplate] as its cause, and an error of
    [fees.EstimateUnlockingSize] comes with size 0 and has
    [bitcoin.ErrWrongScriptTemplate] as its cause. *)
Theorem size_errors_have_template_cause {ST : ScriptTemplates} :
  (forall fuel s n e,
      UnlockingScriptSize fuel s = Returns (n, Some e) ->
      n = 0 /\ Cause e = ErrUnknownScriptTemplate)
  /\ (forall fuel s n e,
         InputSize fuel s = Returns (n, Some e) ->
         n = 0 /\ Cause e = ErrUnknownScriptTemplate)
  /\ (forall fuel s n e,
         fees.EstimateUnlockingSize fuel s = Returns (n, Some e) ->
         n = 0 /\ Cause e = ErrWrongScriptTemplate).
Proof.
  split; [exact UnlockingScriptSize_error |].
  split; [| exact EstimateUnlockingSize_error].
  intros fuel s n e H. rewrite InputSize_step in H.
  destruct (UnlockingScriptSize fuel s) as [[n' [e' |]] | |] eqn:Hu;
    simpl in H; try discriminate H.
  injection H as <- <-.
  destruct (UnlockingScriptSize_error _ _ _ _ Hu) as [_ Hc]. split; [reflexivity | exact Hc].
Qed.

Lemma size_errors_have_template_cause_witness :
  (exists e, UnlockingScriptSize 3 [Byte.xc0; Byte.xc0; Byte.x01] = Returns (0, Some e)
             /\ Cause e = ErrUnknownScriptTemplate)
  /\ (exists e, InputSize 3 [Byte.xc0; Byte.xc0; Byte.x01] = Returns (0, Some e)
                /\ Cause e = ErrUnknownScriptTemplate)
  /\ (exists e, fees.EstimateUnlockingSize 1 agent_script = Returns (0, Some e)
                /\ Cause e = ErrWrongScriptTemplate).
Proof.
  destruct (size_errors_have_template_cause (ST := templates)) as [Hu [Hi Hf]].
  split; [| split].
  - eexists. split; [reflexivity |].
    exact (proj2 (Hu 3%nat [Byte.xc0; Byte.xc0; Byte.x01] 0 _ eq_refl)).
  - eexists. split; [reflexivity |].
    exact (proj2 (Hi 3%nat [Byte.xc0; Byte.xc0; Byte.x01] 0 _ eq_refl)).
  - eexists. split; [reflexivity |].
    exact (proj2 (Hf 1%nat agent_script 0 _ eq_refl)).
Defined.

Section Partition.
Context {ST : ScriptTemplates} {PF : Platform} {BD : Builder}.

Lemma OutputValue_outputs_false (tx : TxBuilder) (outs : list wire.TxOut) :
  forall (i : nat) (acc : Z),
    is_u64 acc ->
    (length outs <= length (drop i (Outputs tx)))%nat ->
    OutputValue_outputs tx false (Z.of_nat i) outs acc
    = Returns (u64 (acc + flagged_sum wire.Value (fun s => negb (IsRemainder s))
                            (drop i (Outputs tx)) outs)).
Proof.
  induction outs as [| o outs IH]; intros i acc Hacc Hlen; simpl.
  - rewrite Z.add_0_r, u64_id by exact Hacc. reflexivity.
  - destruct (drop i (Outputs tx)) as [| s rest] eqn:Hdrop; [simpl in Hlen; lia |].
    destruct (index_drop _ _ _ _ Hdrop) as [Hidx Hrest].
    rewrite Hidx. simpl bind.
    replace (Z.of_nat i + 1) with (Z.of_nat (S i)) by lia.
    rewrite IH; [| destruct (negb (IsRemainder s)); [apply u64_range | exact Hacc]
                 | rewrite Hrest; simpl in Hlen; lia].
    rewrite Hrest. f_equal. apply eqm64_u64.
    destruct (negb (IsRemainder s)); [rewrite u64_eqm |]; unfold eqm64; f_equal; lia.
Qed.

Lemma changeSum_outputs_sum (tx : TxBuilder) (outs : list wire.TxOut) :
  forall (i : nat) (acc : Z),
    is_u64 acc ->
    (length outs <= length (drop i (Outputs tx)))%nat ->
    changeSum_outputs tx (Z.of_nat i) outs acc
    = Returns (u64 (acc + flagged_sum wire.Value IsRemainder (drop i (Outputs tx)) outs)).
Proof.
  induction outs as [| o outs IH]; intros i acc Hacc Hlen; simpl.
  - rewrite Z.add_0_r, u64_id by exact Hacc. reflexivity.
  - destruct (drop i (Outputs tx)) as [| s rest] eqn:Hdrop; [simpl in Hlen; lia |].
    destruct (index_drop _ _ _ _ Hdrop) as [Hidx Hrest].
    rewrite Hidx. simpl bind.
    replace (Z.of_nat i + 1) with (Z.of_nat (S i)) by lia.
    rewrite IH; [| destruct (IsRemainder s); [apply u64_range | exact Hacc]
                 | rewrite Hrest; simpl in Hlen; lia].
    rewrite Hrest. f_equal. apply eqm64_u64.
    destruct (IsRemainder s); [rewrite u64_eqm |]; unfold eqm64; f_equal; lia.
Qed.

Lemma Remainder_outputs_sum (tx : TxBuilder) (outs : list wire.TxOut) :
  forall (i : nat) (acc : Z),
    is_u64 acc ->
    (length outs <= length (drop i (Outputs tx)))%nat ->
    Remainder_outputs tx (Z.of_nat i) outs acc
    = Returns (u64 (acc + flagged_sum (remainder_of tx) IsRemainder
                            (drop i (Outputs tx)) outs)).
Proof.
  induction outs as [| o outs IH]; intros i acc Hacc Hlen; simpl.
  - rewrite Z.add_0_r, u64_id by exact Hacc. reflexivity.
  - destruct (drop i (Outputs tx)) as [| s rest] eqn:Hdrop; [simpl in Hlen; lia |].
    destruct (index_drop _ _ _ _ Hdrop) as [Hidx Hrest].
    rewrite Hidx. simpl bind.
    replace (Z.of_nat i + 1) with (Z.of_nat (S i)) by lia.
    rewrite IH; [| destruct (IsRemainder s); [apply u64_range | exact Hacc]
                 | rewrite Hrest; simpl in Hlen; lia].
    rewrite Hrest. f_equal. apply eqm64_u64. unfold remainder_of, fee_down_of.
    destruct (IsRemainder s); [rewrite !u64_eqm |]; unfold eqm64; f_equal; lia.
Qed.

(** A loop that reads [tx.Outputs[i]] for every output panics when the
    supplements run out first. *)
Lemma OutputValue_outputs_short (tx : TxBuilder) (outs : list wire.TxOut) :
  forall (i : nat) (acc : Z),
    (length (drop i (Outputs tx)) < length outs)%nat ->
    OutputValue_outputs tx false (Z.of_nat i) outs acc = Panics.
Proof.
  induction outs as [| o outs IH]; intros i acc Hlen; simpl in *; [lia |].
  destruct (drop i (Outputs tx)) as [| s rest] eqn:Hdrop.
  - rewrite (index_beyond _ _ Hdrop). reflexivity.
  - destruct (index_drop _ _ _ _ Hdrop) as [Hidx Hrest].
    rewrite Hidx. simpl bind.
    replace (Z.of_nat i + 1) with (Z.of_nat (S i)) by lia.
    apply IH. rewrite Hrest. simpl in Hlen. lia.
Qed.

Lemma changeSum_outputs_short (tx : TxBuilder) (outs : list wire.TxOut) :
  forall (i : nat) (acc : Z),
    (length (drop i (Outputs tx)) < length outs)%nat ->
    changeSum_outputs tx (Z.of_nat i) outs acc = Panics.
Proof.
  induction outs as [| o outs IH]; intros i acc Hlen; simpl in *; [lia |].
  destruct (drop i (Outputs tx)) as [| s rest] eqn:Hdrop.
  - rewrite (index_beyond _ _ Hdrop). reflexivity.
  - destruct (index_drop _ _ _ _ Hdrop) as [Hidx Hrest].
    rewrite Hidx. simpl bind.
    replace (Z.of_nat i + 1) with (Z.of_nat (S i)) by lia.
    apply IH. rewrite Hrest. simpl in Hlen. lia.
Qed.

Lemma Remainder_outputs_short (tx : TxBuilder) (outs : list wire.TxOut) :
  forall (i : nat) (acc : Z),
    (length (drop i (Outputs tx)) < length outs)%nat ->
    Remainder_outputs tx (Z.of_nat i) outs acc = Panics.
Proof.
  induction outs as [| o outs IH]; intros i acc Hlen; simpl in *; [lia |].
  destruct (drop i (Outputs tx)) as [| s rest] eqn:Hdrop.
  - rewrite (index_beyond _ _ Hdrop). reflexivity.
  - destruct (index_drop _ _ _ _ Hdrop) as [Hidx Hrest].
    rewrite Hidx. simpl bind.
    replace (Z.of_nat i + 1) with (Z.of_nat (S i)) by lia.
    apply IH. rewrite Hrest. simpl in Hlen. lia.
Qed.

Lemma flagged_sum_partition (sups : list OutputSupplement) :
  forall outs,
    (length outs <= length sups)%nat ->
    flagged_sum wire.Value (fun s => negb (IsRemainder s)) sups outs
    + flagged_sum wire.Value IsRemainder sups outs
    = total_value outs.
Proof.
  unfold total_value.
  induction sups as [| s sups IH]; intros [| o outs] Hlen; simpl in *; try lia.
  specialize (IH outs ltac:(lia)). destruct (IsRemainder s); simpl; lia.
Qed.

Lemma flagged_sum_add (f g : wire.TxOut -> Z) (keep : OutputSupplement -> bool)
  (sups : list OutputSupplement) :
  forall outs,
    flagged_sum (fun o => f o + g o) keep sups outs
    = flagged_sum f keep sups outs + flagged_sum g keep sups outs.
Proof.
  induction sups as [| s sups IH]; intros [| o outs]; simpl; try reflexivity.
  rewrite IH. destruct (keep s); lia.
Qed.

(** X3. [OutputValue(true)] is the sum of all output values modulo
    [2^64] and never reads the supplements.  When every output has a
    supplement, [OutputValue(false)], [changeSum] and [Remainder] return,
    the payments and the change add up to [OutputValue(true)], and
    [Remainder] is [changeSum] plus the floored fees of the remainder
    outputs; when an output has no supplement, the three panic. *)
Theorem OutputValue_partition (tx : TxBuilder) :
  OutputValue tx true = Returns (u64 (total_value (wire.TxOut_ (MsgTx tx))))
  /\ ((length (wire.TxOut_ (MsgTx tx)) <= length (Outputs tx))%nat ->
      exists pay chg,
        OutputValue tx false = Returns pay
        /\ changeSum tx = Returns chg
        /\ pay = u64 (flagged_sum wire.Value (fun s => negb (IsRemainder s))
                        (Outputs tx) (wire.TxOut_ (MsgTx tx)))
        /\ chg = u64 (flagged_sum wire.Value IsRemainder
                        (Outputs tx) (wire.TxOut_ (MsgTx tx)))
        /\ OutputValue tx true = Returns (u64 (pay + chg))
        /\ Remainder tx
           = Returns (u64 (chg + flagged_sum (fee_down_of tx) IsRemainder
                                   (Outputs tx) (wire.TxOut_ (MsgTx tx)))))
  /\ ((length (Outputs tx) < length (wire.TxOut_ (MsgTx tx)))%nat ->
      OutputValue tx false = Panics /\ changeSum tx = Panics /\ Remainder tx = Panics).
Proof.
  split; [apply OutputValue_true |]. split.
  - intros Hlen. eexists. eexists.
    split; [apply (OutputValue_outputs_false tx _ 0%nat 0); [unfold is_u64; lia | exact Hlen] |].
    split; [apply (changeSum_outputs_sum tx _ 0%nat 0); [unfold is_u64; lia | exact Hlen] |].
    change (drop 0 (Outputs tx)) with (Outputs tx). rewrite !Z.add_0_l.
    split; [reflexivity |]. split; [reflexivity |]. split.
    + rewrite OutputValue_true. f_equal. apply eqm64_u64.
      rewrite !u64_eqm. rewrite (flagged_sum_partition _ _ Hlen). reflexivity.
    + unfold Remainder.
      rewrite (Remainder_outputs_sum tx _ 0%nat 0); [| unfold is_u64; lia | exact Hlen].
      change (drop 0 (Outputs tx)) with (Outputs tx).
      f_equal. apply eqm64_u64. rewrite u64_eqm, Z.add_0_l.
      unfold remainder_of. rewrite flagged_sum_add. unfold eqm64. f_equal. lia.
  - intros Hlen. split; [| split].
    + apply (OutputValue_outputs_short tx _ 0%nat 0). exact Hlen.
    + apply (changeSum_outputs_short tx _ 0%nat 0). exact Hlen.
    + apply (Remainder_outputs_short tx _ 0%nat 0). exact Hlen.
Qed.

End Partition.

(** ** The fee of a builder *)

Section FeeOf.
Context {ST : ScriptTemplates} {PF : Platform} {BD : Builder}.

Lemma index_not_OutOfFuel {A : Type} (l : list A) (i : Z) : index l i <> OutOfFuel.
Proof.
  unfold index. destruct (i <? 0); [discriminate |].
  destruct (l !! Z.to_nat i); discriminate.
Qed.

(** Reading a declaration returns or panics, as the parser does. *)
Lemma declaration_cases (s : Script) :
  declaration s = Panics \/ exists d, declaration s = Returns d.
Proof.
  unfold declaration. destruct (IsFalseOpReturn s); [| right; eauto].
  destruct (ProtocolsParse s) as [[[[d |] |] [e |]] |]; simpl; eauto.
Qed.

Lemma InputValue_input_cases (tx : TxBuilder) (i : Z) (input : InputSupplement) (acc : Z) :
  InputValue_input tx i input acc = Panics
  \/ exists v, InputValue_input tx i input acc = Returns (u64 (acc + v)).
Proof.
  unfold InputValue_input.
  destruct (Value input =? 0); [| right; eexists; reflexivity].
  destruct (index (wire.TxIn_ (MsgTx tx)) i) as [txin | |] eqn:Hidx; simpl.
  - destruct (declaration_cases (wire.UnlockingScript txin)) as [-> | [[d |] ->]]; simpl;
      [left; reflexivity | right; eexists; reflexivity | right; eexists; reflexivity].
  - left. reflexivity.
  - exfalso. exact (index_not_OutOfFuel _ _ Hidx).
Qed.

Lemma InputValue_inputs_cases (tx : TxBuilder) (inputs : list InputSupplement) :
  forall i acc,
    is_u64 acc ->
    InputValue_inputs tx i inputs acc = Panics
    \/ exists r, InputValue_inputs tx i inputs acc = Returns r /\ is_u64 r.
Proof.
  induction inputs as [| input inputs IH]; intros i acc Hacc; simpl.
  - right. eauto.
  - destruct (InputValue_input_cases tx i input acc) as [-> | [v ->]]; [left; reflexivity |].
    simpl bind. apply IH, u64_range.
Qed.

(** X4. When [InputValue] returns [i], with [o] the sum of all output
    values modulo [2^64]: [Fee] returns [i - o], or 0 when the outputs
    exceed the inputs, and [ActualFee] returns [i - o] as an [int64],
    which is [i - o] itself when both sums are below [2^63]; when
    [InputValue] panics, so do [Fee] and [ActualFee]. *)
Theorem Fee_and_ActualFee (tx : TxBuilder) :
  (forall i,
      InputValue tx = Returns i ->
      is_u64 i
      /\ Fee tx = Returns (Z.max 0 (i - u64 (total_value (wire.TxOut_ (MsgTx tx)))))
      /\ ActualFee tx = Returns (i64 (i - u64 (total_value (wire.TxOut_ (MsgTx tx)))))
      /\ (i < 2 ^ 63 -> u64 (total_value (wire.TxOut_ (MsgTx tx))) < 2 ^ 63 ->
          ActualFee tx = Returns (i - u64 (total_value (wire.TxOut_ (MsgTx tx))))))
  /\ (InputValue tx = Panics -> Fee tx = Panics /\ ActualFee tx = Panics).
Proof.
  split.
  - intros i Hi.
    assert (Hu : is_u64 i).
    { destruct (InputValue_inputs_cases tx (Inputs tx) 0 0 ltac:(unfold is_u64; lia))
        as [Hp | [r [Hr Hur]]]; unfold InputValue in Hi; rewrite Hi in *;
        [discriminate Hp | injection Hr as ->; exact Hur]. }
    pose proof (u64_range (total_value (wire.TxOut_ (MsgTx tx)))) as Ho.
    set (o := u64 (total_value (wire.TxOut_ (MsgTx tx)))) in *.
    assert (Ha : ActualFee tx = Returns (i64 (i - o))).
    { unfold ActualFee. rewrite OutputValue_true, Hi. simpl. f_equal.
      apply eqm64_i64. rewrite !i64_eqm. reflexivity. }
    split; [exact Hu |]. split; [| split; [exact Ha |]].
    + unfold Fee. rewrite OutputValue_true, Hi. simpl. fold o.
      unfold is_u64 in *.
      destruct (Z.gtb_spec o i) as [Hgt | Hle]; f_equal; [lia |].
      rewrite u64_id by (unfold is_u64; lia). lia.
    + intros Hi63 Ho63. rewrite Ha. f_equal. apply i64_id.
      unfold is_i64, is_u64 in *. lia.
  - intros Hp. unfold Fee, ActualFee. rewrite OutputValue_true, Hp. split; reflexivity.
Qed.

End FeeOf.

(** ** What the estimated size depends on *)

Lemma TxOut_SerializeSize_script (t : wire.TxOut) :
  wire.TxOut_SerializeSize t = OutputSize (wire.LockingScript t).
Proof. reflexivity. Qed.

Section SizeReads.
Context {ST : ScriptTemplates}.

Lemma EstimatedSize_input_ext (fuel : nat) (tx1 tx2 : TxBuilder) (i : Z)
  (input1 input2 : InputSupplement) (r : Z) :
  wire.TxIn_ (MsgTx tx1) = wire.TxIn_ (MsgTx tx2) ->
  LockingScript input1 = LockingScript input2 ->
  EstimatedSize_input fuel tx1 i input1 r = EstimatedSize_input fuel tx2 i input2 r.
Proof. intros Hin Hs. unfold EstimatedSize_input. rewrite Hin, Hs. reflexivity. Qed.

Lemma EstimatedSize_inputs_ext (fuel : nat) (tx1 tx2 : TxBuilder) :
  wire.TxIn_ (MsgTx tx1) = wire.TxIn_ (MsgTx tx2) ->
  forall inputs1 inputs2 i r,
    map LockingScript inputs1 = map LockingScript inputs2 ->
    EstimatedSize_inputs fuel tx1 i inputs1 r = EstimatedSize_inputs fuel tx2 i inputs2 r.
Proof.
  intros Hin. induction inputs1 as [| a inputs1 IH]; intros [| b inputs2] i r Hmap;
    simpl in *; try discriminate Hmap; [reflexivity |].
  injection Hmap as Hs Hmap.
  rewrite (EstimatedSize_input_ext fuel tx1 tx2 i a b r Hin Hs).
  destruct (EstimatedSize_input fuel tx2 i b r); simpl; try reflexivity.
  apply IH. exact Hmap.
Qed.

Lemma fold_outputs_ext (outs1 : list wire.TxOut) :
  forall outs2 r,
    map wire.LockingScript outs1 = map wire.LockingScript outs2 ->
    fold_left (fun result output => i64 (result + wire.TxOut_SerializeSize output)) outs1 r
    = fold_left (fun result output => i64 (result + wire.TxOut_SerializeSize output)) outs2 r.
Proof.
  induction outs1 as [| a outs1 IH]; intros [| b outs2] r Hmap;
    simpl in *; try discriminate Hmap; [reflexivity |].
  injection Hmap as Hs Hmap.
  rewrite !TxOut_SerializeSize_script, Hs. apply IH. exact Hmap.
Qed.

Lemma EstimatedSize_ext (fuel : nat) (tx1 tx2 : TxBuilder) :
  wire.TxIn_ (MsgTx tx1) = wire.TxIn_ (MsgTx tx2) ->
  map LockingScript (Inputs tx1) = map LockingScript (Inputs tx2) ->
  map wire.LockingScript (wire.TxOut_ (MsgTx tx1))
  = map wire.LockingScript (wire.TxOut_ (MsgTx tx2)) ->
  EstimatedSize fuel tx1 = EstimatedSize fuel tx2.
Proof.
  intros Hin Hinputs Houts. unfold EstimatedSize.
  assert (Hlen : len (wire.TxOut_ (MsgTx tx1)) = len (wire.TxOut_ (MsgTx tx2))).
  { unfold len. f_equal. apply (f_equal length) in Houts.
    rewrite !length_map in Houts. exact Houts. }
  rewrite Hin, Hlen.
  rewrite (EstimatedSize_inputs_ext fuel tx1 tx2 Hin _ _ _ _ Hinputs).
  destruct (EstimatedSize_inputs fuel tx2 0 (Inputs tx2) _); simpl; try reflexivity.
  f_equal. apply fold_outputs_ext. exact Houts.
Qed.

(** A loop of [EstimatedSize] started [d] higher ends [d] higher. *)
Lemma EstimatedSize_input_shift (fuel : nat) (tx : TxBuilder) (i : Z)
  (input : InputSupplement) (r d : Z) :
  EstimatedSize_input fuel tx i input (i64 (r + d))
  = let* n := EstimatedSize_input fuel tx i input r in Returns (i64 (n + d)).
Proof.
  assert (Hmod : forall x, i64 (i64 (r + d) + x) = i64 (i64 (r + x) + d)).
  { intros x. apply eqm64_i64. rewrite !i64_eqm. unfold eqm64. f_equal. lia. }
  assert (Hrest :
    (let* s := InputSize fuel (LockingScript input) in
     match s with
     | (_, Some _) => Returns (i64 (i64 (r + d) + MaximumP2PKHInputSize))
     | (size, None) => Returns (i64 (i64 (r + d) + size))
     end)
    = let* n := (let* s := InputSize fuel (LockingScript input) in
                 match s with
                 | (_, Some _) => Returns (i64 (r + MaximumP2PKHInputSize))
                 | (size, None) => Returns (i64 (r + size))
                 end) in Returns (i64 (n + d))).
  { destruct (InputSize fuel (LockingScript input)) as [[size [e |]] | |]; simpl;
      try reflexivity; rewrite Hmod; reflexivity. }
  unfold EstimatedSize_input.
  destruct (len (LockingScript input) =? 0); [| exact Hrest].
  destruct (index (wire.TxIn_ (MsgTx tx)) i) as [txin | |]; simpl; try reflexivity.
  destruct (declaration (wire.UnlockingScript txin)) as [[declared |] | |]; simpl;
    [| exact Hrest | reflexivity | reflexivity].
  rewrite Hmod. reflexivity.
Qed.

Lemma EstimatedSize_inputs_shift (fuel : nat) (tx : TxBuilder)
  (inputs : list InputSupplement) (d : Z) :
  forall i r,
    EstimatedSize_inputs fuel tx i inputs (i64 (r + d))
    = let* n := EstimatedSize_inputs fuel tx i inputs r in Returns (i64 (n + d)).
Proof.
  induction inputs as [| input inputs IH]; intros i r; simpl; [reflexivity |].
  rewrite EstimatedSize_input_shift.
  destruct (EstimatedSize_input fuel tx i input r) as [n | |] eqn:Hn; simpl; try reflexivity.
  apply IH.
Qed.

Lemma fold_outputs_i64 (outs : list wire.TxOut) :
  forall r d,
    fold_left (fun result output => i64 (result + wire.TxOut_SerializeSize output))
      outs (i64 (r + d))
    = i64 (fold_left (fun result output => i64 (result + wire.TxOut_SerializeSize output))
             outs r + d).
Proof.
  induction outs as [| o outs IH]; intros r d; simpl; [reflexivity |].
  rewrite <- IH. f_equal. apply eqm64_i64. rewrite !i64_eqm. unfold eqm64. f_equal. lia.
Qed.

(** X5. The estimated size is read off the wire inputs, the locking
    scripts of the input supplements and the locking scripts of the
    outputs: builders that agree on these have the same estimated size,
    whatever their values, flags, key identifiers, change script and fee
    rates. *)
Theorem EstimatedSize_reads_scripts (fuel : nat) (tx1 tx2 : TxBuilder) :
  wire.TxIn_ (MsgTx tx1) = wire.TxIn_ (MsgTx tx2) ->
  map LockingScript (Inputs tx1) = map LockingScript (Inputs tx2) ->
  map wire.LockingScript (wire.TxOut_ (MsgTx tx1))
  = map wire.LockingScript (wire.TxOut_ (MsgTx tx2)) ->
  EstimatedSize fuel tx1 = EstimatedSize fuel tx2.
Proof. apply EstimatedSize_ext. Qed.

Lemma EstimatedSize_with_output_eq (fuel : nat) (tx : TxBuilder) (o : wire.TxOut)
  (sup : OutputSupplement) :
  EstimatedSize fuel (with_output tx o sup)
  = let* n := EstimatedSize fuel tx in
    Returns (i64 (n + OutputSize (wire.LockingScript o)
                  + (wire.VarIntSerializeSize (u64 (len (wire.TxOut_ (MsgTx tx)) + 1))
                     - wire.VarIntSerializeSize (u64 (len (wire.TxOut_ (MsgTx tx))))))).
Proof.
  unfold EstimatedSize.
  set (vi := wire.VarIntSerializeSize (u64 (len (wire.TxIn_ (MsgTx tx))))).
  set (vo := wire.VarIntSerializeSize (u64 (len (wire.TxOut_ (MsgTx tx))))).
  set (vo' := wire.VarIntSerializeSize (u64 (len (wire.TxOut_ (MsgTx tx)) + 1))).
  assert (Hlen : len (wire.TxOut_ (MsgTx (with_output tx o sup)))
                 = len (wire.TxOut_ (MsgTx tx)) + 1).
  { unfold len. simpl. rewrite length_app. simpl. lia. }
  rewrite Hlen. fold vo'.
  change (wire.TxIn_ (MsgTx (with_output tx o sup))) with (wire.TxIn_ (MsgTx tx)).
  change (Inputs (with_output tx o sup)) with (Inputs tx).
  change (wire.TxOut_ (MsgTx (with_output tx o sup))) with (wire.TxOut_ (MsgTx tx) ++ [o]).
  fold vi.
  rewrite (EstimatedSize_inputs_ext fuel (with_output tx o sup) tx eq_refl
             (Inputs tx) (Inputs tx) 0 _ eq_refl).
  assert (Hbase : i64 (BaseTxSize + vi + vo') = i64 (i64 (BaseTxSize + vi + vo) + (vo' - vo))).
  { apply eqm64_i64. rewrite i64_eqm. unfold eqm64. f_equal. lia. }
  rewrite Hbase, EstimatedSize_inputs_shift.
  destruct (EstimatedSize_inputs fuel tx 0 (Inputs tx) (i64 (BaseTxSize + vi + vo)))
    as [n | |]; simpl; try reflexivity.
  f_equal. rewrite fold_left_app. simpl. rewrite fold_outputs_i64.
  rewrite TxOut_SerializeSize_script.
  apply eqm64_i64. rewrite !i64_eqm. unfold eqm64. f_equal. lia.
Qed.

Lemma EstimatedSize_with_output_small (fuel : nat) (tx : TxBuilder) (o : wire.TxOut)
  (sup : OutputSupplement) :
  (length (wire.TxOut_ (MsgTx tx)) < 252)%nat ->
  EstimatedSize fuel (with_output tx o sup)
  = let* n := EstimatedSize fuel tx in
    Returns (i64 (n + OutputSize (wire.LockingScript o))).
Proof.
  intros Hlt. rewrite EstimatedSize_with_output_eq.
  assert (Hv : wire.VarIntSerializeSize (u64 (len (wire.TxOut_ (MsgTx tx)) + 1))
               - wire.VarIntSerializeSize (u64 (len (wire.TxOut_ (MsgTx tx)))) = 0).
  { unfold len. rewrite !u64_id by (unfold is_u64; lia).
    unfold wire.VarIntSerializeSize.
    destruct (Z.ltb_spec (Z.of_nat (length (wire.TxOut_ (MsgTx tx))) + 1) 253); [| lia].
    destruct (Z.ltb_spec (Z.of_nat (length (wire.TxOut_ (MsgTx tx)))) 253); lia. }
  destruct (EstimatedSize fuel tx); simpl; try reflexivity.
  rewrite Hv, Z.add_0_r. reflexivity.
Qed.

(** X6. One more output at the end raises the estimated size by the
    size of that output and by the growth of the varint that counts the
    outputs: nothing below 252 outputs, two bytes from 252 to 253. *)
Theorem EstimatedSize_with_output (fuel : nat) (tx : TxBuilder) (o : wire.TxOut)
  (sup : OutputSupplement) :
  EstimatedSize fuel (with_output tx o sup)
  = (let* n := EstimatedSize fuel tx in
     Returns (i64 (n + OutputSize (wire.LockingScript o)
                   + (wire.VarIntSerializeSize (u64 (len (wire.TxOut_ (MsgTx tx)) + 1))
                      - wire.VarIntSerializeSize (u64 (len (wire.TxOut_ (MsgTx tx))))))))
  /\ ((length (wire.TxOut_ (MsgTx tx)) < 252)%nat ->
      EstimatedSize fuel (with_output tx o sup)
      = let* n := EstimatedSize fuel tx in
        Returns (i64 (n + OutputSize (wire.LockingScript o))))
  /\ (length (wire.TxOut_ (MsgTx tx)) = 252%nat ->
      EstimatedSize fuel (with_output tx o sup)
      = let* n := EstimatedSize fuel tx in
        Returns (i64 (n + OutputSize (wire.LockingScript o) + 2))).
Proof.
  split; [apply EstimatedSize_with_output_eq |].
  split; [apply EstimatedSize_with_output_small |].
  intros Heq. rewrite EstimatedSize_with_output_eq.
  unfold len. rewrite Heq. reflexivity.
Qed.

End SizeReads.

(** ** Supplements and wire inputs out of step *)

Section OutOfStep.
Context {ST : ScriptTemplates}.

Lemma index_within {A : Type} (l : list A) (i : nat) :
  (i < length l)%nat -> exists a, index l (Z.of_nat i) = Returns a.
Proof.
  intros Hlt. destruct (lookup_lt_is_Some_2 l i Hlt) as [a Ha].
  exists a. apply index_lookup. exact Ha.
Qed.

Lemma index_outside {A : Type} (l : list A) (i : nat) :
  (length l <= i)%nat -> index l (Z.of_nat i) = Panics.
Proof.
  intros Hle. apply index_beyond. apply drop_ge. exact Hle.
Qed.

(** A wire input on which the parser returns gives a declaration or
    none. *)
Lemma parses_declaration (txins : list wire.TxIn) (i : nat) (txin : wire.TxIn) :
  parses txins -> txins !! i = Some txin ->
  exists d, declaration (wire.UnlockingScript txin) = Returns d.
Proof.
  intros Hparses Htxin.
  pose proof (Forall_lookup_1 _ _ _ _ Hparses Htxin) as Hnp. simpl in Hnp.
  destruct (declaration_cases (wire.UnlockingScript txin)) as [Hp | Hd];
    [contradiction | exact Hd].
Qed.

Lemma InputValue_inputs_within (tx : TxBuilder) (inputs : list InputSupplement) :
  parses (wire.TxIn_ (MsgTx tx)) ->
  forall (i : nat) (acc : Z),
    is_u64 acc ->
    (i + length inputs <= length (wire.TxIn_ (MsgTx tx)))%nat ->
    exists v, InputValue_inputs tx (Z.of_nat i) inputs acc = Returns v /\ is_u64 v.
Proof.
  intros Hparses.
  induction inputs as [| input inputs IH]; intros i acc Hacc Hlen; simpl in *; [eauto |].
  assert (Hstep : exists v, InputValue_input tx (Z.of_nat i) input acc = Returns (u64 v)).
  { unfold InputValue_input.
    destruct (Value input =? 0); [| eauto].
    destruct (lookup_lt_is_Some_2 (wire.TxIn_ (MsgTx tx)) i ltac:(lia)) as [txin Htxin].
    rewrite (index_lookup _ _ _ Htxin). simpl.
    destruct (parses_declaration _ _ _ Hparses Htxin) as [[d |] ->]; simpl; eauto. }
  destruct Hstep as [v ->]. simpl bind.
  replace (Z.of_nat i + 1) with (Z.of_nat (S i)) by lia.
  apply IH; [apply u64_range | lia].
Qed.

Lemma InputValue_inputs_nonzero (tx : TxBuilder) (inputs : list InputSupplement) :
  forall (i acc : Z),
    is_u64 acc ->
    Forall (fun input => Value input <> 0) inputs ->
    InputValue_inputs tx i inputs acc = Returns (u64 (acc + total_input_value inputs)).
Proof.
  unfold total_input_value.
  induction inputs as [| input inputs IH]; intros i acc Hacc Hall; simpl.
  - rewrite Z.add_0_r, u64_id by exact Hacc. reflexivity.
  - apply Forall_cons_1 in Hall as [Hnz Hall].
    unfold InputValue_input.
    destruct (Z.eqb_spec (Value input) 0) as [? | _]; [contradiction |]. simpl bind.
    rewrite IH; [| apply u64_range | exact Hall].
    f_equal. apply eqm64_u64. rewrite u64_eqm. unfold eqm64. f_equal. lia.
Qed.

(** What an iteration of [EstimatedSize] does with the size of the
    locking script. *)
Lemma EstimatedSize_rest_cases (fuel : nat) (input : InputSupplement) (r : Z) :
  InputSize fuel (LockingScript input) <> OutOfFuel ->
  (let* s := InputSize fuel (LockingScript input) in
   match s with
   | (_, Some _) => Returns (i64 (r + MaximumP2PKHInputSize))
   | (size, None) => Returns (i64 (r + size))
   end) = Panics
  \/ exists n,
       (let* s := InputSize fuel (LockingScript input) in
        match s with
        | (_, Some _) => Returns (i64 (r + MaximumP2PKHInputSize))
        | (size, None) => Returns (i64 (r + size))
        end) = Returns n.
Proof.
  intros Hfuel.
  destruct (InputSize fuel (LockingScript input)) as [[size [e |]] | |];
    simpl; eauto; contradiction.
Qed.

(** One iteration of [EstimatedSize] returns when [InputSize] does and,
    for an empty locking script, the wire input is there and the parser
    returns on it. *)
Lemma EstimatedSize_input_returns (fuel : nat) (tx : TxBuilder) (i : nat)
  (input : InputSupplement) (r : Z) :
  (exists s, InputSize fuel (LockingScript input) = Returns s) ->
  parses (wire.TxIn_ (MsgTx tx)) ->
  (i < length (wire.TxIn_ (MsgTx tx)))%nat ->
  exists n, EstimatedSize_input fuel tx (Z.of_nat i) input r = Returns n.
Proof.
  intros [s Hs] Hparses Hlt.
  assert (Hrest : exists n,
    (let* s := InputSize fuel (LockingScript input) in
     match s with
     | (_, Some _) => Returns (i64 (r + MaximumP2PKHInputSize))
     | (size, None) => Returns (i64 (r + size))
     end) = Returns n).
  { rewrite Hs. destruct s as [size [e |]]; simpl; eauto. }
  unfold EstimatedSize_input.
  destruct (len (LockingScript input) =? 0); [| exact Hrest].
  destruct (lookup_lt_is_Some_2 (wire.TxIn_ (MsgTx tx)) i Hlt) as [txin Htxin].
  rewrite (index_lookup _ _ _ Htxin). simpl.
  destruct (parses_declaration _ _ _ Hparses Htxin) as [[d |] ->]; simpl;
    [eauto | exact Hrest].
Qed.

Lemma EstimatedSize_inputs_within (fuel : nat) (tx : TxBuilder)
  (inputs : list InputSupplement) :
  parses (wire.TxIn_ (MsgTx tx)) ->
  forall (i : nat) (r : Z),
    sizes_return fuel inputs ->
    (i + length inputs <= length (wire.TxIn_ (MsgTx tx)))%nat ->
    exists n, EstimatedSize_inputs fuel tx (Z.of_nat i) inputs r = Returns n.
Proof.
  intros Hparses.
  induction inputs as [| input inputs IH]; intros i r Hsizes Hlen; simpl in *; [eauto |].
  apply Forall_cons_1 in Hsizes as [Hs Hsizes].
  destruct (EstimatedSize_input_returns fuel tx i input r Hs Hparses ltac:(lia)) as [n ->].
  simpl bind. replace (Z.of_nat i + 1) with (Z.of_nat (S i)) by lia.
  apply IH; [exact Hsizes | lia].
Qed.

Lemma EstimatedSize_inputs_cases (fuel : nat) (tx : TxBuilder)
  (inputs : list InputSupplement) :
  forall (i : Z) (r : Z),
    enough_fuel fuel inputs ->
    EstimatedSize_inputs fuel tx i inputs r = Panics
    \/ exists n, EstimatedSize_inputs fuel tx i inputs r = Returns n.
Proof.
  induction inputs as [| input inputs IH]; intros i r Hfuel; simpl; [eauto |].
  apply Forall_cons_1 in Hfuel as [Hf Hfuel].
  assert (Hstep : EstimatedSize_input fuel tx i input r = Panics
                  \/ exists n, EstimatedSize_input fuel tx i input r = Returns n).
  { pose proof (EstimatedSize_rest_cases fuel input r Hf) as Hrest.
    unfold EstimatedSize_input.
    destruct (len (LockingScript input) =? 0); [| exact Hrest].
    destruct (index (wire.TxIn_ (MsgTx tx)) i) as [txin | |] eqn:Hidx; simpl.
    - destruct (declaration_cases (wire.UnlockingScript txin)) as [-> | [[d |] ->]]; simpl;
        [left; reflexivity | right; eauto | exact Hrest].
    - left. reflexivity.
    - exfalso. exact (index_not_OutOfFuel _ _ Hidx). }
  destruct Hstep as [-> | [n ->]]; [left; reflexivity |].
  simpl bind. apply IH. exact Hfuel.
Qed.

Lemma EstimatedSize_inputs_app (fuel : nat) (tx : TxBuilder)
  (before after : list InputSupplement) :
  forall (i r : Z),
    EstimatedSize_inputs fuel tx i (before ++ after) r
    = let* n := EstimatedSize_inputs fuel tx i before r in
      EstimatedSize_inputs fuel tx (i + len before) after n.
Proof.
  induction before as [| b before IH]; intros i r; simpl.
  - unfold len. simpl. rewrite Z.add_0_r. reflexivity.
  - destruct (EstimatedSize_input fuel tx i b r) as [n | |]; simpl; try reflexivity.
    rewrite IH. unfold len. simpl length.
    replace (i + 1 + Z.of_nat (length before)) with (i + Z.of_nat (S (length before))) by lia.
    reflexivity.
Qed.

(** The two loops at the supplement that follows [before]. *)
Lemma InputValue_at (tx : TxBuilder) (before after : list InputSupplement)
  (input : InputSupplement) :
  Inputs tx = before ++ input :: after ->
  (forall acc, InputValue_input tx (Z.of_nat (length before)) input acc = Panics) ->
  InputValue tx = Panics.
Proof.
  intros Hsplit Hstep. unfold InputValue. rewrite Hsplit, InputValue_inputs_app.
  destruct (InputValue_inputs_cases tx before 0 0 ltac:(unfold is_u64; lia))
    as [-> | [a [-> _]]]; [reflexivity |].
  simpl. unfold len. rewrite Z.add_0_l, Hstep. reflexivity.
Qed.

Lemma EstimatedSize_at (fuel : nat) (tx : TxBuilder) (before after : list InputSupplement)
  (input : InputSupplement) :
  Inputs tx = before ++ input :: after ->
  enough_fuel fuel before ->
  (forall r, EstimatedSize_input fuel tx (Z.of_nat (length before)) input r = Panics) ->
  EstimatedSize fuel tx = Panics.
Proof.
  intros Hsplit Hfuel Hstep. unfold EstimatedSize. rewrite Hsplit, EstimatedSize_inputs_app.
  destruct (EstimatedSize_inputs_cases fuel tx before 0
              (i64 (BaseTxSize
                    + wire.VarIntSerializeSize (u64 (len (wire.TxIn_ (MsgTx tx))))
                    + wire.VarIntSerializeSize (u64 (len (wire.TxOut_ (MsgTx tx))))))
              Hfuel) as [-> | [n ->]]; [reflexivity |].
  simpl. unfold len at 1. rewrite Z.add_0_l, Hstep. reflexivity.
Qed.

(** X7. The two loops over the input supplements add no panic to those
    of what they call.  When the builder has no more supplements than
    wire inputs and the protocol parser returns on the wire inputs'
    unlocking scripts, [InputValue] returns a [uint64], and
    [EstimatedSize] returns when [InputSize] returns on every
    supplement's locking script.  When no supplement has value 0,
    [InputValue] is the sum of the supplements' values modulo [2^64] and
    the wire inputs are not read.  A supplement beyond the wire inputs
    makes [InputValue] panic when its value is 0 and [EstimatedSize]
    panic when its locking script is empty; so does a wire input on
    which reading the declaration panics; and [EstimatedSize] panics
    when [InputSize] panics on a locking script that is not empty. *)
Theorem inputs_out_of_step (fuel : nat) (tx : TxBuilder) :
  ((length (Inputs tx) <= length (wire.TxIn_ (MsgTx tx)))%nat ->
   parses (wire.TxIn_ (MsgTx tx)) ->
   (exists v, InputValue tx = Returns v /\ is_u64 v)
   /\ (sizes_return fuel (Inputs tx) -> exists n, EstimatedSize fuel tx = Returns n))
  /\ (Forall (fun input => Value input <> 0) (Inputs tx) ->
      InputValue tx = Returns (u64 (total_input_value (Inputs tx))))
  /\ (forall before input after,
         Inputs tx = before ++ input :: after ->
         (length (wire.TxIn_ (MsgTx tx)) <= length before)%nat ->
         (Value input = 0 -> InputValue tx = Panics)
         /\ (LockingScript input = [] -> enough_fuel fuel before ->
             EstimatedSize fuel tx = Panics))
  /\ (forall before input after txin,
         Inputs tx = before ++ input :: after ->
         wire.TxIn_ (MsgTx tx) !! length before = Some txin ->
         declaration (wire.UnlockingScript txin) = Panics ->
         (Value input = 0 -> InputValue tx = Panics)
         /\ (LockingScript input = [] -> enough_fuel fuel before ->
             EstimatedSize fuel tx = Panics))
  /\ (forall before input after,
         Inputs tx = before ++ input :: after ->
         LockingScript input <> [] ->
         InputSize fuel (LockingScript input) = Panics ->
         enough_fuel fuel before ->
         EstimatedSize fuel tx = Panics).
Proof.
  split; [| split; [| split; [| split]]].
  - intros Hlen Hparses. split.
    + apply (InputValue_inputs_within tx (Inputs tx) Hparses 0 0);
        [unfold is_u64; lia | exact Hlen].
    + intros Hsizes. unfold EstimatedSize.
      destruct (EstimatedSize_inputs_within fuel tx (Inputs tx) Hparses 0
                  (i64 (BaseTxSize
                        + wire.VarIntSerializeSize (u64 (len (wire.TxIn_ (MsgTx tx))))
                        + wire.VarIntSerializeSize (u64 (len (wire.TxOut_ (MsgTx tx))))))
                  Hsizes Hlen) as [n Hn].
      change (Z.of_nat 0) with 0 in Hn. rewrite Hn. simpl. eauto.
  - intros Hall. unfold InputValue.
    rewrite InputValue_inputs_nonzero; [| unfold is_u64; lia | exact Hall].
    reflexivity.
  - intros before input after Hsplit Hlen. split.
    + intros Hzero. apply (InputValue_at tx before after input Hsplit).
      intros acc. unfold InputValue_input. rewrite Hzero. simpl.
      rewrite (index_outside _ _ Hlen). reflexivity.
    + intros Hempty Hfuel. apply (EstimatedSize_at fuel tx before after input Hsplit Hfuel).
      intros r. unfold EstimatedSize_input. rewrite Hempty. simpl.
      rewrite (index_outside _ _ Hlen). reflexivity.
  - intros before input after txin Hsplit Htxin Hpanic. split.
    + intros Hzero. apply (InputValue_at tx before after input Hsplit).
      intros acc. unfold InputValue_input. rewrite Hzero. simpl.
      rewrite (index_lookup _ _ _ Htxin). simpl. rewrite Hpanic. reflexivity.
    + intros Hempty Hfuel. apply (EstimatedSize_at fuel tx before after input Hsplit Hfuel).
      intros r. unfold EstimatedSize_input. rewrite Hempty. simpl.
      rewrite (index_lookup _ _ _ Htxin). simpl. rewrite Hpanic. reflexivity.
  - intros before input after Hsplit Hne Hpanic Hfuel.
    apply (EstimatedSize_at fuel tx before after input Hsplit Hfuel).
    intros r. unfold EstimatedSize_input.
    destruct (Z.eqb_spec (len (LockingScript input)) 0) as [Hempty | _].
    + exfalso. apply Hne. unfold len in Hempty.
      destruct (LockingScript input); [reflexivity | simpl in Hempty; lia].
    + rewrite Hpanic. reflexivity.
Qed.

End OutOfStep.

(** ** AdjustFee: what it returns *)

Section Results.
Context {ST : ScriptTemplates} {PF : Platform} {BD : Builder}.

Lemma AdjustFee_zero (fuel : nat) (tx : TxBuilder) :
  AdjustFee fuel tx 0 = Returns (tx, (true, None)).
Proof. reflexivity. Qed.

Lemma AdjustFee_increase_no_change (fuel : nat) (tx : TxBuilder) (amount : Z) :
  0 < amount ->
  findChange 0 (Outputs tx) 0xffffffff = 0xffffffff ->
  AdjustFee fuel tx amount
  = Returns (tx, (false, Some (Wrap ErrInsufficientValue "No existing change for tx fee"))).
Proof.
  intros Hpos Hnone. unfold AdjustFee.
  destruct (Z.eqb_spec amount 0) as [? | _]; [lia |].
  rewrite Hnone.
  destruct (Z.gtb_spec amount 0) as [_ | ?]; [| lia].
  rewrite Z.eqb_refl. reflexivity.
Qed.

(** X8. [AdjustFee] never reports an error together with
    [settled = true].  An error of a call with a positive amount has
    [ErrInsufficientValue] as its cause; an error of a call with a
    negative amount is [ErrChangeAddressNeeded], returned with the
    builder untouched when the change script is empty, or the error
    [AddOutput] returned; a call with amount 0 returns [(true, nil)] and
    the builder untouched. *)
Theorem AdjustFee_results (fuel : nat) (tx : TxBuilder) (amount : Z)
  (tx' : TxBuilder) (done : bool) (err : option error) :
  is_i64 amount ->
  AdjustFee fuel tx amount = Returns (tx', (done, err)) ->
  (done = true -> err = None)
  /\ (forall e, err = Some e ->
        (0 < amount /\ Cause e = ErrInsufficientValue)
        \/ (amount < 0 /\ Cause e = ErrChangeAddressNeeded /\ tx' = tx
            /\ ChangeScript tx = [])
        \/ (amount < 0
            /\ exists v, AddOutput tx (ChangeScript tx) v true false = (tx', Some e)))
  /\ (amount = 0 -> tx' = tx /\ done = true /\ err = None).
Proof.
  intros Hamount H.
  destruct (Z.eq_dec amount 0) as [-> | Hnz].
  { rewrite AdjustFee_zero in H. injection H as <- <- <-.
    split; [reflexivity |]. split; [intros e He; discriminate He | auto]. }
  assert (Hcreate : amount < 0 ->
            findChange 0 (Outputs tx) 0xffffffff = 0xffffffff ->
            (done = true -> err = None)
            /\ (forall e, err = Some e ->
                  (0 < amount /\ Cause e = ErrInsufficientValue)
                  \/ (amount < 0 /\ Cause e = ErrChangeAddressNeeded /\ tx' = tx
                      /\ ChangeScript tx = [])
                  \/ (amount < 0
                      /\ exists v, AddOutput tx (ChangeScript tx) v true false
                                   = (tx', Some e)))
            /\ (amount = 0 -> tx' = tx /\ done = true /\ err = None)).
  { intros Hneg Hnone. split; [| split; [| lia]].
    - destruct (EstimatedSize fuel tx) as [size | |] eqn:Hsize.
      + rewrite (AdjustFee_decrease_no_change fuel tx amount Hneg Hamount size Hnone Hsize)
          in H.
        destruct (inducedCost tx size >? - amount); [injection H as _ _ <-; reflexivity |].
        destruct (- amount - inducedCost tx size >? changeCost tx);
          [| injection H as _ _ <-; reflexivity].
        destruct (len (ChangeScript tx) =? 0);
          [injection H as _ <- _; discriminate |].
        destruct (AddOutput tx (ChangeScript tx) (- amount - inducedCost tx size) true false)
          as [tx1 [e1 |]]; [injection H as _ <- _; discriminate |].
        destruct (mark_last tx1); simpl in H; try discriminate H.
        injection H as _ <- _. discriminate.
      + unfold AdjustFee in H.
        destruct (Z.eqb_spec amount 0) as [? | _]; [lia |].
        rewrite Hnone in H.
        destruct (Z.gtb_spec amount 0) as [? | _]; [lia |].
        rewrite Z.eqb_refl, Hsize in H. discriminate H.
      + unfold AdjustFee in H.
        destruct (Z.eqb_spec amount 0) as [? | _]; [lia |].
        rewrite Hnone in H.
        destruct (Z.gtb_spec amount 0) as [? | _]; [lia |].
        rewrite Z.eqb_refl, Hsize in H. discriminate H.
    - intros e He. subst err.
      destruct (EstimatedSize fuel tx) as [size | |] eqn:Hsize.
      + rewrite (AdjustFee_decrease_no_change fuel tx amount Hneg Hamount size Hnone Hsize)
          in H.
        destruct (inducedCost tx size >? - amount); [discriminate H |].
        destruct (- amount - inducedCost tx size >? changeCost tx); [| discriminate H].
        destruct (Z.eqb_spec (len (ChangeScript tx)) 0) as [Hempty | _].
        { injection H as <- _ <-. right. left.
          split; [exact Hneg |]. split; [reflexivity |]. split; [reflexivity |].
          unfold len in Hempty. destruct (ChangeScript tx); [reflexivity |].
          simpl in Hempty. lia. }
        destruct (AddOutput tx (ChangeScript tx) (- amount - inducedCost tx size) true false)
          as [tx1 [e1 |]] eqn:Hadd.
        * injection H as <- _ <-. right. right. split; [exact Hneg |]. eauto.
        * destruct (mark_last tx1); simpl in H; discriminate H.
      + unfold AdjustFee in H.
        destruct (Z.eqb_spec amount 0) as [? | _]; [lia |].
        rewrite Hnone in H.
        destruct (Z.gtb_spec amount 0) as [? | _]; [lia |].
        rewrite Z.eqb_refl, Hsize in H. discriminate H.
      + unfold AdjustFee in H.
        destruct (Z.eqb_spec amount 0) as [? | _]; [lia |].
        rewrite Hnone in H.
        destruct (Z.gtb_spec amount 0) as [? | _]; [lia |].
        rewrite Z.eqb_refl, Hsize in H. discriminate H. }
  assert (Hnochange : 0 < amount ->
            findChange 0 (Outputs tx) 0xffffffff = 0xffffffff ->
            (done = true -> err = None)
            /\ (forall e, err = Some e ->
                  (0 < amount /\ Cause e = ErrInsufficientValue)
                  \/ (amount < 0 /\ Cause e = ErrChangeAddressNeeded /\ tx' = tx
                      /\ ChangeScript tx = [])
                  \/ (amount < 0
                      /\ exists v, AddOutput tx (ChangeScript tx) v true false
                                   = (tx', Some e)))
            /\ (amount = 0 -> tx' = tx /\ done = true /\ err = None)).
  { intros Hpos Hnone.
    rewrite (AdjustFee_increase_no_change fuel tx amount Hpos Hnone) in H.
    injection H as <- <- <-.
    split; [discriminate |]. split; [| lia].
    intros e He. injection He as <-. left. split; [exact Hpos | reflexivity]. }
  destruct (findChange_cases (Outputs tx) 0xffffffff) as [[_ He] | [k [Hk He]]].
  { destruct (Z.lt_trichotomy amount 0) as [? | [? | ?]]; [auto | lia | auto]. }
  destruct (Z.eq_dec (Z.of_nat k) 0xffffffff) as [Hs | Hs].
  { rewrite Hs in He.
    destruct (Z.lt_trichotomy amount 0) as [? | [? | ?]]; [auto | lia | auto]. }
  unfold AdjustFee in H.
  destruct (Z.eqb_spec amount 0) as [? | _]; [lia |].
  rewrite He in H.
  destruct (Z.eqb_spec (Z.of_nat k) 0xffffffff) as [? | _]; [contradiction |].
  destruct (index (wire.TxOut_ (MsgTx tx)) (Z.of_nat k)) as [out | |] eqn:Hidx;
    [| destruct (amount >? 0); discriminate H | destruct (amount >? 0); discriminate H].
  simpl bind in H.
  destruct (Z.gtb_spec amount 0) as [Hpos | Hnpos].
  - assert (Hins : forall e,
              Some (Wrap ErrInsufficientValue "Not enough change for tx fee") = Some e ->
              (0 < amount /\ Cause e = ErrInsufficientValue)
              \/ (amount < 0 /\ Cause e = ErrChangeAddressNeeded /\ tx' = tx
                  /\ ChangeScript tx = [])
              \/ (amount < 0
                  /\ exists v, AddOutput tx (ChangeScript tx) v true false = (tx', Some e))).
    { intros e Hee. injection Hee as <-. left. split; [lia | reflexivity]. }
    destruct (wire.Value out <? u64 amount).
    { injection H as _ <- <-. split; [discriminate |]. split; [exact Hins | lia]. }
    simpl in H.
    destruct (OutputTotalCost (wire.LockingScript out) (FeeRate tx)) as [[outputFee inputFee] e].
    destruct (u64 (wire.Value out - u64 amount) <? u64 (outputFee + inputFee)).
    + destruct (index (Outputs tx) (Z.of_nat k)) as [sup | |]; simpl in H; try discriminate H.
      destruct (addedForFee sup); simpl in H; injection H as _ <- <-.
      * split; [reflexivity |]. split; [discriminate | lia].
      * split; [discriminate |]. split; [exact Hins | lia].
    + injection H as _ <- <-. split; [discriminate |]. split; [discriminate | lia].
  - injection H as _ <- <-. split; [discriminate |]. split; [discriminate | lia].
Qed.

(** X9. A call with a positive amount that cannot be served changes
    nothing: without an output flagged [IsRemainder], and with a first
    such output worth less than the amount, [AdjustFee] returns
    [(false, ErrInsufficientValue)] and the builder as it was.  When the
    first flagged supplement has no output in [MsgTx.TxOut], the call
    panics. *)
Theorem AdjustFee_insufficient (fuel : nat) (tx : TxBuilder) (amount : Z) :
  0 < amount -> is_i64 amount ->
  (no_change (Outputs tx) ->
   exists e, AdjustFee fuel tx amount = Returns (tx, (false, Some e))
             /\ Cause e = ErrInsufficientValue)
  /\ (forall k out,
         first_change (Outputs tx) k -> Z.of_nat k <> 0xffffffff ->
         wire.TxOut_ (MsgTx tx) !! k = Some out ->
         wire.Value out < amount ->
         exists e, AdjustFee fuel tx amount = Returns (tx, (false, Some e))
                   /\ Cause e = ErrInsufficientValue)
  /\ (forall k,
         first_change (Outputs tx) k -> Z.of_nat k <> 0xffffffff ->
         (length (wire.TxOut_ (MsgTx tx)) <= k)%nat ->
         AdjustFee fuel tx amount = Panics).
Proof.
  intros Hpos Hamount. split; [| split].
  - intros Hnone. eexists.
    split; [apply AdjustFee_increase_no_change;
            [exact Hpos | apply findChange_none; exact Hnone]
           | reflexivity].
  - intros k out Hfirst Hs Hout Hlt. eexists.
    split; [apply (AdjustFee_increase_short fuel tx amount k out); assumption
           | reflexivity].
  - intros k Hfirst Hs Hlen. unfold AdjustFee.
    destruct (Z.eqb_spec amount 0) as [? | _]; [lia |].
    rewrite (findChange_first _ k 0 _ Hfirst), Z.add_0_l.
    destruct (Z.gtb_spec amount 0) as [_ | ?]; [| lia].
    destruct (Z.eqb_spec (Z.of_nat k) 0xffffffff) as [? | _]; [contradiction |].
    rewrite (index_outside _ _ Hlen). reflexivity.
Qed.

End Results.

(** ** AdjustFee and the actual fee *)

Section Movement.
Context {ST : ScriptTemplates} {PF : Platform} {BD : Builder}.

Lemma InputValue_inputs_ext (tx1 tx2 : TxBuilder) :
  wire.TxIn_ (MsgTx tx1) = wire.TxIn_ (MsgTx tx2) ->
  forall inputs i acc,
    InputValue_inputs tx1 i inputs acc = InputValue_inputs tx2 i inputs acc.
Proof.
  intros Hin. induction inputs as [| input inputs IH]; intros i acc; simpl; [reflexivity |].
  assert (Hstep : InputValue_input tx1 i input acc = InputValue_input tx2 i input acc).
  { unfold InputValue_input. rewrite Hin. reflexivity. }
  rewrite Hstep. destruct (InputValue_input tx2 i input acc); simpl; try reflexivity.
  apply IH.
Qed.

Lemma ActualFee_eq (tx : TxBuilder) :
  ActualFee tx
  = let* i := InputValue tx in
    Returns (i64 (i - total_value (wire.TxOut_ (MsgTx tx)))).
Proof.
  unfold ActualFee. rewrite OutputValue_true. simpl.
  destruct (InputValue tx); simpl; try reflexivity.
  f_equal. apply eqm64_i64. rewrite !i64_eqm, u64_eqm. reflexivity.
Qed.

(** Outputs worth [d] more, the inputs being the same, make the actual
    fee [d] lower. *)
Lemma ActualFee_shift (tx tx' : TxBuilder) (d : Z) :
  Inputs tx' = Inputs tx ->
  wire.TxIn_ (MsgTx tx') = wire.TxIn_ (MsgTx tx) ->
  total_value (wire.TxOut_ (MsgTx tx')) = total_value (wire.TxOut_ (MsgTx tx)) + d ->
  ActualFee tx' = let* a := ActualFee tx in Returns (i64 (a - d)).
Proof.
  intros Hinputs Hin Htotal. rewrite !ActualFee_eq. unfold InputValue.
  rewrite Hinputs, (InputValue_inputs_ext tx' tx Hin), Htotal.
  destruct (InputValue_inputs tx 0 (Inputs tx) 0); simpl; try reflexivity.
  f_equal. apply eqm64_i64. rewrite i64_eqm. unfold eqm64. f_equal. lia.
Qed.

Lemma ActualFee_i64 (tx : TxBuilder) (a : Z) : ActualFee tx = Returns a -> is_i64 a.
Proof.
  rewrite ActualFee_eq. destruct (InputValue tx); simpl; try discriminate.
  intros H. injection H as <-. apply i64_range.
Qed.

(** What a call without error does when there is a change output. *)
Lemma AdjustFee_with_change (fuel : nat) (tx : TxBuilder) (amount : Z) (k : nat)
  (out : wire.TxOut) (sup : OutputSupplement) (tx' : TxBuilder) (done : bool) :
  is_i64 amount ->
  first_change (Outputs tx) k -> Z.of_nat k <> 0xffffffff ->
  Outputs tx !! k = Some sup ->
  wire.TxOut_ (MsgTx tx) !! k = Some out ->
  is_u64 (wire.Value out) ->
  AdjustFee fuel tx amount = Returns (tx', (done, None)) ->
  (amount = 0 /\ tx' = tx /\ done = true)
  \/ (amount <> 0 /\ tx' = with_value tx k out (u64 (wire.Value out - amount))
      /\ done = false)
  \/ (0 < amount <= wire.Value out /\ addedForFee sup = true
      /\ tx' = without_output tx k /\ done = true).
Proof.
  intros Hamount Hfirst Hs Hsup Hout Hvalue H.
  destruct (Z.lt_trichotomy amount 0) as [Hneg | [-> | Hpos]].
  - rewrite (AdjustFee_decrease_change fuel tx amount Hneg Hamount k out Hfirst Hs Hout) in H.
    injection H as <- <-. right. left. split; [lia | auto].
  - rewrite AdjustFee_zero in H. injection H as <- <-. left. auto.
  - destruct (Z.lt_ge_cases (wire.Value out) amount) as [Hlt | Hge].
    { rewrite (AdjustFee_increase_short fuel tx amount k out Hpos Hamount Hfirst Hs Hout Hlt)
        in H. discriminate H. }
    destruct (OutputTotalCost (wire.LockingScript out) (FeeRate tx))
      as [[outputFee inputFee] e] eqn:Hcost.
    rewrite (AdjustFee_increase fuel tx amount k out sup Hpos Hamount Hfirst Hs Hsup Hout
               Hvalue outputFee inputFee e Hge Hcost) in H.
    destruct (wire.Value out - amount <? u64 (outputFee + inputFee)).
    + destruct (addedForFee sup) eqn:Hadded; [| discriminate H].
      injection H as <- <-. right. right. auto.
    + injection H as <- <-. right. left.
      rewrite u64_id by (unfold is_u64 in *; lia). split; [lia | auto].
Qed.

(** X10. A call of [AdjustFee] that returns no error, on a builder with
    a change output, moves the actual fee by the amount, modulo [2^64],
    when the change output stays; when the change output is removed, the
    actual fee grows by the whole value that output had. *)
Theorem AdjustFee_moves_fee (fuel : nat) (tx : TxBuilder) (amount : Z) (k : nat)
  (out : wire.TxOut) (sup : OutputSupplement) (tx' : TxBuilder) (done : bool) :
  is_i64 amount ->
  first_change (Outputs tx) k -> Z.of_nat k <> 0xffffffff ->
  Outputs tx !! k = Some sup ->
  wire.TxOut_ (MsgTx tx) !! k = Some out ->
  is_u64 (wire.Value out) ->
  AdjustFee fuel tx amount = Returns (tx', (done, None)) ->
  (length (wire.TxOut_ (MsgTx tx')) = length (wire.TxOut_ (MsgTx tx)) ->
   ActualFee tx' = let* a := ActualFee tx in Returns (i64 (a + amount)))
  /\ (length (wire.TxOut_ (MsgTx tx')) <> length (wire.TxOut_ (MsgTx tx)) ->
      done = true /\ addedForFee sup = true
      /\ tx' = without_output tx k
      /\ ActualFee tx' = let* a := ActualFee tx in Returns (i64 (a + wire.Value out))).
Proof.
  intros Hamount Hfirst Hs Hsup Hout Hvalue H.
  assert (Hk : (k < length (wire.TxOut_ (MsgTx tx)))%nat)
    by (apply lookup_lt_Some in Hout; exact Hout).
  assert (Hdeleted :
    ActualFee (without_output tx k)
    = let* a := ActualFee tx in Returns (i64 (a + wire.Value out))).
  { rewrite (ActualFee_shift tx (without_output tx k) (- wire.Value out) eq_refl eq_refl).
    - destruct (ActualFee tx); simpl; try reflexivity. f_equal. f_equal. lia.
    - simpl. rewrite (total_value_delete _ _ _ Hout). lia. }
  assert (Hvalued : forall v,
    ActualFee (with_value tx k out v)
    = let* a := ActualFee tx in Returns (i64 (a - (v - wire.Value out)))).
  { intros v. apply ActualFee_shift; [reflexivity | reflexivity |].
    simpl. rewrite (total_value_insert _ _ _ _ Hout). lia. }
  destruct (AdjustFee_with_change fuel tx amount k out sup tx' done
              Hamount Hfirst Hs Hsup Hout Hvalue H)
    as [[-> [-> ->]] | [[Hnz [-> ->]] | [Hrange [Hadded [-> ->]]]]].
  - split; [| intros Hne; contradiction].
    intros _. destruct (ActualFee tx) as [a | |] eqn:Ha; simpl; try reflexivity.
    rewrite Z.add_0_r, i64_id by (apply (ActualFee_i64 tx); exact Ha). reflexivity.
  - split.
    + intros _. rewrite Hvalued.
      destruct (ActualFee tx); simpl; try reflexivity.
      f_equal. apply eqm64_i64. rewrite u64_eqm. unfold eqm64. f_equal. lia.
    + intros Hne. exfalso. apply Hne. simpl. apply length_insert.
  - split.
    + intros Hlen. exfalso. simpl in Hlen. rewrite length_delete in Hlen by eauto. lia.
    + intros _. auto.
Qed.

End Movement.

(** ** CalculateFee and ZeroizeFee *)

Section Settling.
Context {ST : ScriptTemplates} {PF : Platform} {BD : Builder}.

Lemma CalculateFee_inv (fuel : nat) (tx tx' : TxBuilder) (err : option error) :
  CalculateFee fuel tx = Returns (tx', err) ->
  exists size a done,
    EstimatedSize fuel tx = Returns size
    /\ ActualFee tx = Returns a
    /\ AdjustFee fuel tx
         (i64 (i64 (EstimatedFeeValue (u64 size) (of_float32 (FeeRate tx))) - a))
       = Returns (tx', (done, err)).
Proof.
  unfold CalculateFee, EstimatedFee. intros H.
  destruct (EstimatedSize fuel tx) as [size | |]; simpl in H; try discriminate H.
  destruct (ActualFee tx) as [a | |]; simpl in H; try discriminate H.
  destruct (AdjustFee fuel tx _) as [[tx1 [done e]] | |] eqn:Hadj; simpl in H;
    try discriminate H.
  injection H as <- <-. exists size, a, done. auto.
Qed.

Lemma ZeroizeFee_inv (fuel : nat) (tx tx' : TxBuilder) (err : option error) :
  ZeroizeFee fuel tx = Returns (tx', err) ->
  exists a done,
    ActualFee tx = Returns a
    /\ AdjustFee fuel tx (i64 (- a)) = Returns (tx', (done, err)).
Proof.
  unfold ZeroizeFee. intros H.
  destruct (ActualFee tx) as [a | |]; simpl in H; try discriminate H.
  destruct (AdjustFee fuel tx _) as [[tx1 [done e]] | |] eqn:Hadj; simpl in H;
    try discriminate H.
  injection H as <- <-. exists a, done. auto.
Qed.

Lemma map_script_insert (outs : list wire.TxOut) (k : nat) (out : wire.TxOut) (v : Z) :
  outs !! k = Some out ->
  map wire.LockingScript (<[k := set_Value out v]> outs) = map wire.LockingScript outs.
Proof.
  revert k. induction outs as [| o outs IH]; intros [| k] Hk; simpl in *;
    try discriminate Hk.
  - injection Hk as ->. reflexivity.
  - rewrite (IH k Hk). reflexivity.
Qed.

Lemma EstimatedFee_with_value (fuel : nat) (tx : TxBuilder) (k : nat) (out : wire.TxOut)
  (v : Z) :
  wire.TxOut_ (MsgTx tx) !! k = Some out ->
  EstimatedFee fuel (with_value tx k out v) = EstimatedFee fuel tx.
Proof.
  intros Hout. unfold EstimatedFee.
  rewrite (EstimatedSize_ext fuel (with_value tx k out v) tx eq_refl eq_refl).
  - reflexivity.
  - simpl. apply map_script_insert. exact Hout.
Qed.

(** X11. After [CalculateFee] returned without error on a builder with
    a change output, and that output is still there, the actual fee is
    the estimated fee: [ActualFee] returns [int64(EstimatedFee())]. *)
Theorem CalculateFee_settles (fuel : nat) (tx : TxBuilder) (k : nat)
  (out : wire.TxOut) (sup : OutputSupplement) (tx' : TxBuilder) :
  first_change (Outputs tx) k -> Z.of_nat k <> 0xffffffff ->
  Outputs tx !! k = Some sup ->
  wire.TxOut_ (MsgTx tx) !! k = Some out ->
  is_u64 (wire.Value out) ->
  CalculateFee fuel tx = Returns (tx', None) ->
  length (wire.TxOut_ (MsgTx tx')) = length (wire.TxOut_ (MsgTx tx)) ->
  exists fee,
    EstimatedFee fuel tx' = Returns fee
    /\ EstimatedFee fuel tx = Returns fee
    /\ ActualFee tx' = Returns (i64 fee).
Proof.
  intros Hfirst Hs Hsup Hout Hvalue H Hlen.
  destruct (CalculateFee_inv fuel tx tx' None H) as [size [a [done [Hsize [Ha Hadj]]]]].
  set (fee := EstimatedFeeValue (u64 size) (of_float32 (FeeRate tx))) in *.
  assert (Hfee : EstimatedFee fuel tx = Returns fee).
  { unfold EstimatedFee. rewrite Hsize. reflexivity. }
  exists fee.
  assert (Hamount : is_i64 (i64 (i64 fee - a))) by apply i64_range.
  destruct (AdjustFee_with_change fuel tx _ k out sup tx' done
              Hamount Hfirst Hs Hsup Hout Hvalue Hadj)
    as [[Hz [-> ->]] | [[Hnz [-> ->]] | [Hrange [Hadded [-> ->]]]]].
  - split; [exact Hfee |]. split; [exact Hfee |].
    rewrite Ha. f_equal.
    rewrite <- (i64_id a) at 1 by (apply (ActualFee_i64 tx); exact Ha).
    apply eqm64_i64.
    assert (He : eqm64 (i64 (i64 fee - a)) 0) by (rewrite Hz; reflexivity).
    rewrite !i64_eqm in He. unfold eqm64 in *.
    replace a with (fee - (fee - a)) by lia.
    rewrite Zminus_mod, He, <- Zminus_mod. f_equal. lia.
  - rewrite (EstimatedFee_with_value fuel tx k out _ Hout).
    split; [exact Hfee |]. split; [exact Hfee |].
    rewrite (ActualFee_shift tx (with_value tx k out _)
               (u64 (wire.Value out - i64 (i64 fee - a)) - wire.Value out)
               eq_refl eq_refl).
    + rewrite Ha. simpl. f_equal. apply eqm64_i64.
      rewrite u64_eqm, !i64_eqm. unfold eqm64. f_equal. lia.
    + simpl. rewrite (total_value_insert _ _ _ _ Hout). lia.
  - exfalso. simpl in Hlen. pose proof (lookup_lt_Some _ _ _ Hout).
    rewrite length_delete in Hlen by eauto. lia.
Qed.

(** X12. After [ZeroizeFee] returned without error on a builder with a
    change output, and that output is still there, [ActualFee] returns
    0. *)
Theorem ZeroizeFee_settles (fuel : nat) (tx : TxBuilder) (k : nat)
  (out : wire.TxOut) (sup : OutputSupplement) (tx' : TxBuilder) :
  first_change (Outputs tx) k -> Z.of_nat k <> 0xffffffff ->
  Outputs tx !! k = Some sup ->
  wire.TxOut_ (MsgTx tx) !! k = Some out ->
  is_u64 (wire.Value out) ->
  ZeroizeFee fuel tx = Returns (tx', None) ->
  length (wire.TxOut_ (MsgTx tx')) = length (wire.TxOut_ (MsgTx tx)) ->
  ActualFee tx' = Returns 0.
Proof.
  intros Hfirst Hs Hsup Hout Hvalue H Hlen.
  destruct (ZeroizeFee_inv fuel tx tx' None H) as [a [done [Ha Hadj]]].
  assert (Hamount : is_i64 (i64 (- a))) by apply i64_range.
  destruct (AdjustFee_with_change fuel tx _ k out sup tx' done
              Hamount Hfirst Hs Hsup Hout Hvalue Hadj)
    as [[Hz [-> ->]] | [[Hnz [-> ->]] | [Hrange [Hadded [-> ->]]]]].
  - rewrite Ha. f_equal.
    rewrite <- (i64_id a) by (apply (ActualFee_i64 tx); exact Ha).
    change 0 with (i64 0). apply eqm64_i64.
    assert (He : eqm64 (i64 (- a)) 0) by (rewrite Hz; reflexivity).
    rewrite i64_eqm in He. unfold eqm64 in *.
    replace a with (0 - (- a)) by lia.
    rewrite Zminus_mod, He, <- Zminus_mod. reflexivity.
  - rewrite (ActualFee_shift tx (with_value tx k out _)
               (u64 (wire.Value out - i64 (- a)) - wire.Value out)
               eq_refl eq_refl).
    + rewrite Ha. simpl. f_equal. change 0 with (i64 0). apply eqm64_i64.
      rewrite u64_eqm, !i64_eqm. unfold eqm64. f_equal. lia.
    + simpl. rewrite (total_value_insert _ _ _ _ Hout). lia.
  - exfalso. simpl in Hlen. pose proof (lookup_lt_Some _ _ _ Hout).
    rewrite length_delete in Hlen by eauto. lia.
Qed.

End Settling.

Section Creating.
Context {ST : ScriptTemplates} {PF : Platform} {BD : Builder}.
Hypothesis Happends : AddOutput_appends.

(** X13. After [CalculateFee] returned without error on a builder
    without change output to which it added one (fewer than 252 outputs
    before, [AddOutput] appending what it is given), the actual fee is
    the estimated fee of the builder with the new output: [ActualFee]
    returns [int64(EstimatedFee())], and the new output carries the change
    script. *)
Theorem CalculateFee_creates_change (fuel : nat) (tx tx' : TxBuilder) :
  no_change (Outputs tx) ->
  (length (wire.TxOut_ (MsgTx tx)) < 252)%nat ->
  CalculateFee fuel tx = Returns (tx', None) ->
  length (wire.TxOut_ (MsgTx tx')) = S (length (wire.TxOut_ (MsgTx tx))) ->
  exists fee v sup,
    tx' = with_output tx {| wire.Value := v; wire.LockingScript := ChangeScript tx |} sup
    /\ IsRemainder sup = true /\ addedForFee sup = true
    /\ EstimatedFee fuel tx' = Returns fee
    /\ ActualFee tx' = Returns (i64 fee).
Proof.
  intros Hnone Hcount H Hlen.
  destruct (CalculateFee_inv fuel tx tx' None H) as [size [a [done [Hsize [Ha Hadj]]]]].
  set (fee := EstimatedFeeValue (u64 size) (of_float32 (FeeRate tx))) in *.
  set (amount := i64 (i64 fee - a)) in *.
  assert (Hamount : is_i64 amount) by apply i64_range.
  pose proof (findChange_none (Outputs tx) 0 0xffffffff Hnone) as Hfind.
  destruct (Z.lt_trichotomy amount 0) as [Hneg | [Hz | Hpos]].
  2:{ rewrite Hz, AdjustFee_zero in Hadj. injection Hadj as <- _. lia. }
  2:{ rewrite (AdjustFee_increase_no_change fuel tx amount Hpos Hfind) in Hadj.
      discriminate Hadj. }
  rewrite (AdjustFee_decrease_no_change fuel tx amount Hneg Hamount size Hfind Hsize) in Hadj.
  destruct (Z.gtb_spec (inducedCost tx size) (- amount)) as [? | Hle];
    [injection Hadj as <- _; lia |].
  destruct (- amount - inducedCost tx size >? changeCost tx);
    [| injection Hadj as <- _; lia].
  destruct (Z.eqb_spec (len (ChangeScript tx)) 0) as [? | Hscript]; [discriminate Hadj |].
  pose proof (Happends tx (ChangeScript tx) (- amount - inducedCost tx size) true false)
    as Hadd.
  destruct (AddOutput tx (ChangeScript tx) (- amount - inducedCost tx size) true false)
    as [tx1 [e1 |]]; [discriminate Hadj |].
  destruct Hadd as [sup [-> Hrem]].
  rewrite mark_last_with_output in Hadj. simpl in Hadj. injection Hadj as <- _.
  set (v := - amount - inducedCost tx size) in *.
  set (o := {| wire.Value := v; wire.LockingScript := ChangeScript tx |}).
  assert (Hhyp : hypotheticalFee tx size
                 = EstimatedFeeValue (u64 (i64 (size + OutputSize (ChangeScript tx))))
                     (of_float32 (FeeRate tx))).
  { unfold hypotheticalFee.
    destruct (Z.eqb_spec (len (ChangeScript tx)) 0) as [? | _]; [contradiction |].
    f_equal. apply eqm64_u64. rewrite i64_eqm, !u64_eqm. reflexivity. }
  exists (hypotheticalFee tx size), v, (reconciler_change tx sup).
  split; [reflexivity |]. split; [exact Hrem |]. split; [reflexivity |]. split.
  - unfold EstimatedFee.
    rewrite (EstimatedSize_with_output_small fuel tx o (reconciler_change tx sup) Hcount).
    rewrite Hsize. simpl. rewrite Hhyp. reflexivity.
  - rewrite (ActualFee_shift tx (with_output tx o (reconciler_change tx sup)) v
               eq_refl eq_refl).
    + rewrite Ha. simpl. f_equal. apply eqm64_i64.
      unfold v, inducedCost, amount. fold fee.
      change (currentFee tx size) with fee.
      rewrite u64_eqm, !i64_eqm. unfold eqm64. f_equal. lia.
    + simpl. rewrite total_value_app. unfold total_value. simpl. lia.
Qed.

End Creating.

(** ** Package fees: sizes *)

Section FeesSizes.
Context {ST : ScriptTemplates} {PF : Platform}.

Lemma len_nil_iff {A : Type} (l : list A) : len l = 0 <-> l = [].
Proof.
  unfold len. split; [| intros ->; reflexivity].
  destruct l; [reflexivity | simpl; lia].
Qed.

(** X14. [fees.EstimateInputSize] with a locking script asks the
    unlocker only: its size gives
    [InputSizeForUnlockingScriptSize], its error comes back wrapped, with
    size 0.  Without a locking script the size is the one the unlocking
    script declares, every failure is [MissingUnlockingData] itself, with
    size 0, and a panic of the parser is a panic of the call. *)
Theorem EstimateInputSize_cases (txin : wire.TxIn) (lockingScript : Script)
  (unlocker : fees.Unlocker) :
  (lockingScript <> [] ->
   (forall m, fees.UnlockingSize unlocker lockingScript = (m, None) ->
              fees.EstimateInputSize txin lockingScript unlocker
              = Returns (fees.InputSizeForUnlockingScriptSize m, None))
   /\ (forall m e, fees.UnlockingSize unlocker lockingScript = (m, Some e) ->
                   fees.EstimateInputSize txin lockingScript unlocker
                   = Returns (0, Some (Wrap e "unlocking size"))))
  /\ (lockingScript = [] ->
      (forall d, declaration (wire.UnlockingScript txin) = Returns (Some d) ->
                 is_u64 (unlocking_data.Size d) ->
                 fees.EstimateInputSize txin lockingScript unlocker
                 = Returns (fees.InputSizeForUnlockingScriptSize (i64 (unlocking_data.Size d)),
                            None))
      /\ (declaration (wire.UnlockingScript txin) = Returns None ->
          fees.EstimateInputSize txin lockingScript unlocker
          = Returns (0, Some MissingUnlockingData))
      /\ (declaration (wire.UnlockingScript txin) = Panics ->
          fees.EstimateInputSize txin lockingScript unlocker = Panics)).
Proof.
  split.
  - intros Hne. unfold fees.EstimateInputSize.
    destruct (Z.eqb_spec (len lockingScript) 0) as [He | _];
      [apply len_nil_iff in He; contradiction |].
    simpl. split.
    + intros m Hm. rewrite Hm. reflexivity.
    + intros m e Hm. rewrite Hm. reflexivity.
  - intros ->. unfold fees.EstimateInputSize, declaration. simpl.
    destruct (IsFalseOpReturn (wire.UnlockingScript txin)); simpl.
    + destruct (ProtocolsParse (wire.UnlockingScript txin)) as [[[[d' |] |] [e |]] |];
        simpl; repeat split; try discriminate; try reflexivity.
      intros d Hd Hu. injection Hd as ->.
      unfold fees.InputSizeForUnlockingScriptSize. f_equal. f_equal.
      assert (Hsz : u64 (i64 (unlocking_data.Size d)) = unlocking_data.Size d).
      { rewrite <- (u64_id _ Hu) at 2. apply eqm64_u64. apply i64_eqm. }
      rewrite Hsz. reflexivity.
    + repeat split; [discriminate | discriminate].
Qed.

End FeesSizes.

Section Agreement.
Context {ST : ScriptTemplates} {PF : Platform}.

Lemma EstimateInputSize_agrees (fuel : nat) (b : TxBuilder) (i : nat)
  (txin : wire.TxIn) (input : InputSupplement) (unlocker : fees.Unlocker)
  (inputSize r : Z) :
  wire.TxIn_ (MsgTx b) !! i = Some txin ->
  UnlockingScriptSize fuel (LockingScript input)
  = Returns (fees.UnlockingSize unlocker (LockingScript input)) ->
  fees.EstimateInputSize txin (LockingScript input) unlocker = Returns (inputSize, None) ->
  EstimatedSize_input fuel b (Z.of_nat i) input r = Returns (i64 (r + inputSize)).
Proof.
  intros Htxin Hunlock H.
  unfold fees.EstimateInputSize in H. unfold EstimatedSize_input.
  destruct (len (LockingScript input) =? 0); simpl in H.
  - rewrite (index_lookup _ _ _ Htxin). simpl bind. unfold declaration.
    destruct (IsFalseOpReturn (wire.UnlockingScript txin)); simpl in H; [| discriminate H].
    destruct (ProtocolsParse (wire.UnlockingScript txin)) as [[[[d |] |] [e |]] |];
      simpl in H; try discriminate H.
    injection H as <-. reflexivity.
  - rewrite InputSize_step, Hunlock. simpl bind.
    destruct (fees.UnlockingSize unlocker (LockingScript input)) as [m [e |]];
      [discriminate H |].
    injection H as <-. reflexivity.
Qed.

Lemma EstimateSize_inputs_agrees (fuel : nat) (b : TxBuilder)
  (tx : fees.TransactionWithOutputs) (unlocker : fees.Unlocker) :
  same_inputs b tx ->
  unlocker_agrees fuel b unlocker ->
  forall (m i : nat) (r n : Z),
    (length (wire.TxIn_ (MsgTx b)) - i = m)%nat ->
    fees.EstimateSize_inputs tx unlocker (Z.of_nat i) (drop i (wire.TxIn_ (MsgTx b))) r
    = Returns (n, None) ->
    EstimatedSize_inputs fuel b (Z.of_nat i) (drop i (Inputs b)) r = Returns n.
Proof.
  intros [Hmsg [Hlen Hsame]] Hagree.
  induction m as [| m IH]; intros i r n Hm H.
  - rewrite drop_ge in H by lia. rewrite drop_ge by lia.
    simpl in *. injection H as <-. reflexivity.
  - destruct (lookup_lt_is_Some_2 (wire.TxIn_ (MsgTx b)) i ltac:(lia)) as [txin Htxin].
    destruct (lookup_lt_is_Some_2 (Inputs b) i ltac:(lia)) as [input Hinput].
    rewrite (drop_S _ _ _ Htxin) in H.
    rewrite (drop_S _ _ _ Hinput).
    simpl in *.
    destruct (Hsame i input Hinput) as [o [Ho Hscript]].
    rewrite Ho, Hscript in H.
    destruct (fees.EstimateInputSize txin (LockingScript input) unlocker)
      as [[inputSize [e |]] | |] eqn:Hsize; simpl in H; try discriminate H.
    rewrite (EstimateInputSize_agrees fuel b i txin input unlocker inputSize r
               Htxin (Hagree i input Hinput) Hsize).
    simpl bind.
    replace (Z.of_nat i + 1) with (Z.of_nat (S i)) in * by lia.
    apply IH; [lia | exact H].
Qed.

Lemma EstimateSize_agrees_size (fuel : nat) (b : TxBuilder)
  (tx : fees.TransactionWithOutputs) (unlocker : fees.Unlocker) (n : Z) :
  same_inputs b tx ->
  unlocker_agrees fuel b unlocker ->
  fees.EstimateSize tx unlocker = Returns (n, None) ->
  EstimatedSize fuel b = Returns n.
Proof.
  intros Hsame Hagree H.
  pose proof Hsame as [Hmsg _].
  unfold fees.EstimateSize in H. rewrite <- Hmsg in H. unfold EstimatedSize.
  destruct (fees.EstimateSize_inputs tx unlocker 0 (wire.TxIn_ (MsgTx b)) _)
    as [[r [e |]] | |] eqn:Hloop; simpl in H; try discriminate H.
  injection H as <-.
  pose proof (EstimateSize_inputs_agrees fuel b tx unlocker Hsame Hagree
                (length (wire.TxIn_ (MsgTx b))) 0 _ r ltac:(lia) Hloop) as Hb.
  change (EstimatedSize_inputs fuel b 0 (Inputs b)
            (i64 (BaseTxSize
                  + wire.VarIntSerializeSize (u64 (len (wire.TxIn_ (MsgTx b))))
                  + wire.VarIntSerializeSize (u64 (len (wire.TxOut_ (MsgTx b))))))
          = Returns r) in Hb.
  rewrite Hb. reflexivity.
Qed.

Lemma EstimatedSize_input_i64 (fuel : nat) (b : TxBuilder) (i : Z)
  (input : InputSupplement) (r n : Z) :
  EstimatedSize_input fuel b i input r = Returns n -> is_i64 n.
Proof.
  unfold EstimatedSize_input. intros H.
  assert (Hrest :
    (let* s := InputSize fuel (LockingScript input) in
     match s with
     | (_, Some _) => Returns (i64 (r + MaximumP2PKHInputSize))
     | (size, None) => Returns (i64 (r + size))
     end) = Returns n -> is_i64 n).
  { destruct (InputSize fuel (LockingScript input)) as [[size [e |]] | |]; simpl;
      intros H'; try discriminate H'; injection H' as <-; apply i64_range. }
  destruct (len (LockingScript input) =? 0); [| auto].
  destruct (index (wire.TxIn_ (MsgTx b)) i) as [txin | |]; simpl in H; try discriminate H.
  destruct (declaration (wire.UnlockingScript txin)) as [[d |] | |]; simpl in H;
    try discriminate H; [| auto].
  injection H as <-. apply i64_range.
Qed.

Lemma EstimatedSize_inputs_i64 (fuel : nat) (b : TxBuilder)
  (inputs : list InputSupplement) :
  forall i r m,
    is_i64 r -> EstimatedSize_inputs fuel b i inputs r = Returns m -> is_i64 m.
Proof.
  induction inputs as [| input inputs IH]; intros i r m Hr H; simpl in H.
  - injection H as <-. exact Hr.
  - destruct (EstimatedSize_input fuel b i input r) as [r' | |] eqn:Hstep;
      simpl in H; try discriminate H.
    apply (IH _ _ _ (EstimatedSize_input_i64 _ _ _ _ _ _ Hstep) H).
Qed.

Lemma fold_outputs_is_i64 (outs : list wire.TxOut) :
  forall r,
    is_i64 r ->
    is_i64 (fold_left (fun result output => i64 (result + wire.TxOut_SerializeSize output))
              outs r).
Proof.
  induction outs as [| o outs IH]; intros r Hr; simpl; [exact Hr |].
  apply IH, i64_range.
Qed.

Lemma EstimatedSize_i64 (fuel : nat) (b : TxBuilder) (n : Z) :
  EstimatedSize fuel b = Returns n -> is_i64 n.
Proof.
  unfold EstimatedSize.
  destruct (EstimatedSize_inputs fuel b 0 (Inputs b) _) as [r | |] eqn:Hr;
    simpl; intros H; try discriminate H.
  injection H as <-. apply fold_outputs_is_i64.
  apply (EstimatedSize_inputs_i64 _ _ _ _ _ _ (i64_range _) Hr).
Qed.

(** X15. Where [fees.EstimateSize] returns a size without error, for a
    transaction whose inputs the builder describes and an unlocker that
    answers as [UnlockingScriptSize] does, the builder's [EstimatedSize]
    returns the same size, and for a size that is not negative
    [fees.EstimateFee] at the builder's fee rate and the builder's
    [EstimatedFee] return the same fee.  An error of [fees.EstimateSize]
    comes out of [fees.EstimateFee] wrapped, with fee 0. *)
Theorem EstimateSize_agrees (fuel : nat) (b : TxBuilder)
  (tx : fees.TransactionWithOutputs) (unlocker : fees.Unlocker) :
  same_inputs b tx ->
  unlocker_agrees fuel b unlocker ->
  (forall n,
      fees.EstimateSize tx unlocker = Returns (n, None) ->
      EstimatedSize fuel b = Returns n
      /\ (0 <= n ->
          exists fee,
            fees.EstimateFee tx unlocker (of_float32 (FeeRate b)) = Returns (fee, None)
            /\ EstimatedFee fuel b = Returns fee))
  /\ (forall n e feeRate,
         fees.EstimateSize tx unlocker = Returns (n, Some e) ->
         fees.EstimateFee tx unlocker feeRate
         = Returns (0, Some (Wrap e "estimate size"))).
Proof.
  intros Hsame Hagree. split.
  - intros n H.
    pose proof (EstimateSize_agrees_size fuel b tx unlocker n Hsame Hagree H) as Hb.
    split; [exact Hb |].
    intros Hn. eexists. unfold fees.EstimateFee, EstimatedFee. rewrite H, Hb. simpl.
    split; [reflexivity |].
    pose proof (EstimatedSize_i64 fuel b n Hb) as Hr.
    rewrite u64_id by (unfold is_u64, is_i64 in *; lia).
    reflexivity.
  - intros n e feeRate H. unfold fees.EstimateFee. rewrite H. reflexivity.
Qed.

End Agreement.

(** ** Package fees: values *)

Section FeesValues.
Context {ST : ScriptTemplates} {PF : Platform}.

Lemma fees_InputValue_known (txin : wire.TxIn) (o : wire.TxOut) :
  wire.Value o <> 0 -> fees.InputValue txin o = Returns (wire.Value o, None).
Proof.
  intros Hnz. unfold fees.InputValue.
  destruct (Z.eqb_spec (wire.Value o) 0) as [? | _]; [contradiction | reflexivity].
Qed.

(** The loop of [InputsValue] passes the inputs whose outputs are known
    and not zero. *)
Lemma InputsValue_inputs_known (tx : fees.TransactionWithOutputs) (outs : list wire.TxOut) :
  forall (txins : list wire.TxIn) (i : nat) (acc : Z),
    (forall j o, outs !! j = Some o ->
                 fees.InputOutput tx (Z.of_nat (i + j)) = (Some o, None)) ->
    Forall (fun o => wire.Value o <> 0) outs ->
    (length outs <= length txins)%nat ->
    is_u64 acc ->
    fees.InputsValue_inputs tx (Z.of_nat i) txins acc
    = fees.InputsValue_inputs tx (Z.of_nat (i + length outs)) (drop (length outs) txins)
        (u64 (acc + total_value outs)).
Proof.
  induction outs as [| o outs IH]; intros txins i acc Hknown Hnz Hlen Hacc.
  - simpl. rewrite Nat.add_0_r. unfold total_value. simpl.
    rewrite Z.add_0_r, u64_id by exact Hacc. reflexivity.
  - destruct txins as [| txin txins]; [simpl in Hlen; lia |].
    apply Forall_cons_1 in Hnz as [Ho Hnz].
    simpl fees.InputsValue_inputs at 1.
    pose proof (Hknown 0%nat o eq_refl) as H0. rewrite Nat.add_0_r in H0. rewrite H0.
    rewrite (fees_InputValue_known txin o Ho). cbn [bind].
    replace (Z.of_nat i + 1) with (Z.of_nat (S i)) by lia.
    rewrite IH; [| | exact Hnz | simpl in Hlen; lia | apply u64_range].
    + simpl length. simpl drop.
      replace (S i + length outs)%nat with (i + S (length outs))%nat by lia.
      f_equal. apply eqm64_u64. rewrite u64_eqm. unfold total_value. simpl.
      unfold eqm64. f_equal. lia.
    + intros j o' Hj. replace (S i + j)%nat with (i + S j)%nat by lia.
      apply Hknown. exact Hj.
Qed.

Lemma OutputsValue_total (tx : fees.TransactionWithOutputs) :
  fees.OutputsValue tx = u64 (total_value (wire.TxOut_ (fees.GetMsgTx tx))).
Proof.
  unfold fees.OutputsValue.
  assert (H : forall outs acc,
            is_u64 acc ->
            fold_left (fun result txout => u64 (result + wire.Value txout)) outs acc
            = u64 (acc + total_value outs)).
  { induction outs as [| o outs IH]; intros acc Hacc; simpl.
    - unfold total_value. simpl. rewrite Z.add_0_r, u64_id by exact Hacc. reflexivity.
    - rewrite IH by apply u64_range. apply eqm64_u64. rewrite u64_eqm.
      unfold total_value. simpl. unfold eqm64. f_equal. lia. }
  rewrite H by (unfold is_u64; lia). reflexivity.
Qed.

(** X16. When [InputOutput] knows the outputs the inputs spend and none
    of them has value 0, [fees.InputsValue] is their sum modulo [2^64]
    and [fees.Fee] the difference to the sum of the transaction's outputs,
    as an [int64].  When the first inputs are such and [InputOutput]
    fails for the next, [InputsValue] and [Fee] return that error wrapped
    with the index of that input; when the next input's output has value
    0 and its unlocking script declares nothing, they return
    [MissingUnlockingData] wrapped with the index. *)
Theorem fees_Fee_of_inputs (tx : fees.TransactionWithOutputs) (outs : list wire.TxOut) :
  spends_first tx outs ->
  Forall (fun o => wire.Value o <> 0) outs ->
  (length outs = length (wire.TxIn_ (fees.GetMsgTx tx)) ->
   fees.InputsValue tx = Returns (u64 (total_value outs), None)
   /\ fees.Fee tx
      = Returns (i64 (total_value outs - total_value (wire.TxOut_ (fees.GetMsgTx tx))),
                 None))
  /\ (forall txin o e,
         wire.TxIn_ (fees.GetMsgTx tx) !! length outs = Some txin ->
         fees.InputOutput tx (Z.of_nat (length outs)) = (o, Some e) ->
         fees.InputsValue tx
         = Returns (0, Some (Wrap e ("input " ++ decimal (Z.of_nat (length outs))
                                       ++ " output")))
         /\ fees.Fee tx
            = Returns (0, Some (Wrap e ("input " ++ decimal (Z.of_nat (length outs))
                                          ++ " output"))))
  /\ (forall txin o,
         wire.TxIn_ (fees.GetMsgTx tx) !! length outs = Some txin ->
         fees.InputOutput tx (Z.of_nat (length outs)) = (Some o, None) ->
         wire.Value o = 0 ->
         declaration (wire.UnlockingScript txin) = Returns None ->
         fees.InputsValue tx
         = Returns (0, Some (Wrap MissingUnlockingData
                               ("input " ++ decimal (Z.of_nat (length outs)) ++ " value")))
         /\ fees.Fee tx
            = Returns (0, Some (Wrap MissingUnlockingData
                                  ("input " ++ decimal (Z.of_nat (length outs))
                                     ++ " value")))).
Proof.
  intros Hknown Hnz.
  assert (Hloop : (length outs <= length (wire.TxIn_ (fees.GetMsgTx tx)))%nat ->
            fees.InputsValue tx
            = fees.InputsValue_inputs tx (Z.of_nat (length outs))
                (drop (length outs) (wire.TxIn_ (fees.GetMsgTx tx)))
                (u64 (total_value outs))).
  { intros Hlen. unfold fees.InputsValue.
    pose proof (InputsValue_inputs_known tx outs (wire.TxIn_ (fees.GetMsgTx tx)) 0 0
                  Hknown Hnz Hlen ltac:(unfold is_u64; lia)) as H.
    change (Z.of_nat 0) with 0 in H.
    change (0 + length outs)%nat with (length outs) in H.
    rewrite Z.add_0_l in H. exact H. }
  split; [| split].
  - intros Hlen.
    assert (Hin : fees.InputsValue tx = Returns (u64 (total_value outs), None)).
    { rewrite Hloop by lia. rewrite drop_ge by lia. reflexivity. }
    split; [exact Hin |].
    unfold fees.Fee. rewrite Hin. simpl. f_equal. f_equal.
    apply eqm64_i64. rewrite OutputsValue_total, !i64_eqm, !u64_eqm. reflexivity.
  - intros txin o e Htxin Hfail.
    assert (Hin : fees.InputsValue tx
                  = Returns (0, Some (Wrap e ("input " ++ decimal (Z.of_nat (length outs))
                                                ++ " output")))).
    { rewrite Hloop by (apply lookup_lt_Some in Htxin; lia).
      rewrite (drop_S _ _ _ Htxin). simpl. rewrite Hfail. reflexivity. }
    split; [exact Hin |]. unfold fees.Fee. rewrite Hin. reflexivity.
  - intros txin o Htxin Ho Hzero Hdecl.
    assert (Hin : fees.InputsValue tx
                  = Returns (0, Some (Wrap MissingUnlockingData
                                        ("input " ++ decimal (Z.of_nat (length outs))
                                           ++ " value")))).
    { rewrite Hloop by (apply lookup_lt_Some in Htxin; lia).
      rewrite (drop_S _ _ _ Htxin). simpl. rewrite Ho.
      assert (Hval : fees.InputValue txin o = Returns (0, Some MissingUnlockingData)).
      { unfold fees.InputValue. rewrite Hzero. simpl.
        unfold declaration in Hdecl.
        destruct (IsFalseOpReturn (wire.UnlockingScript txin)); simpl; [| reflexivity].
        destruct (ProtocolsParse (wire.UnlockingScript txin)) as [[[[d |] |] [e |]] |];
          simpl in *; try reflexivity; discriminate Hdecl. }
      rewrite Hval. reflexivity. }
    split; [exact Hin |]. unfold fees.Fee. rewrite Hin. reflexivity.
Qed.

End FeesValues.

(** ** Package fees: the dust limit *)

Lemma of_int_uint64_finite (s : Z) : 0 <= s < 2 ^ 64 -> is_finite (of_int s) = true.
Proof.
  intros Hs. destruct (Z.eq_dec s 0) as [-> | Hnz]; [reflexivity |].
  destruct (of_int_pos s ltac:(lia)) as [[p [e [-> _]]] | [_ Hbig]]; [reflexivity |].
  exfalso.
  assert (Hle : (RNval s 0 <= RNval (2 ^ 64) 0)%Q).
  { apply RNval_mono; [lia | lia |]. apply val_le_same. lia. }
  assert (Htop : (RNval (2 ^ 64) 0 == inject_Z (2 ^ 64))%Q) by (vm_compute; reflexivity).
  rewrite Htop in Hle.
  assert (Hcontra : (2 ^ 1024 <= inject_Z (2 ^ 64))%Q) by (eapply Qle_trans; eassumption).
  vm_compute in Hcontra. apply Hcontra. reflexivity.
Qed.

Section Dust.
Context {ST : ScriptTemplates} {PF : Platform}.

Lemma EstimatedFeeValue_mono (s1 s2 : Z) (r : float64) :
  0 <= s1 <= s2 -> nonneg r = true ->
  representable (Ceil (mul (of_int s2) r)) ->
  EstimatedFeeValue s1 r <= EstimatedFeeValue s2 r.
Proof.
  intros Hs Hr Hrep2.
  pose proof (representable_finite _ (or_introl Hrep2)) as Hfin2.
  destruct (mul_mono s1 s2 r Hs Hr Hfin2) as [Hfin1 Hle].
  rewrite (fee_value s2 r ltac:(lia) Hr Hrep2).
  assert (Hrep1 : representable (Ceil (mul (of_int s1) r))).
  { pose proof (mul_small s1 r ltac:(lia) Hr Hfin1) as Hsmall1.
    exists (Qceiling (to_Q (mul (of_int s1) r))).
    split; [apply Ceil_trunc; exact Hsmall1 |].
    pose proof (Qceiling_resp_le _ _ Hle) as Hc.
    pose proof (Qceiling_resp_le _ _ (small_nonneg_to_Q _ Hsmall1)) as Hc0.
    change (Qceiling 0) with 0 in Hc0.
    destruct Hrep2 as [t [Ht Hrange]].
    rewrite (Ceil_trunc _ (mul_small s2 r ltac:(lia) Hr Hfin2)) in Ht.
    injection Ht as <-. lia. }
  rewrite (fee_value s1 r ltac:(lia) Hr Hrep1).
  apply Qceiling_resp_le. exact Hle.
Qed.

Lemma DustLimit_eq (outputSize : Z) (dustFeeRate : float64) :
  fees.DustLimit outputSize dustFeeRate
  = if SFeqb dustFeeRate (S754_zero false) then 1
    else Z.max 1 (fees.EstimateFeeValue (i64 (i64 (outputSize + fees.DustInputSize) * 3))
                    dustFeeRate).
Proof.
  unfold fees.DustLimit. destruct (SFeqb dustFeeRate (S754_zero false)); [reflexivity |].
  destruct (Z.ltb_spec
              (fees.EstimateFeeValue (i64 (i64 (outputSize + fees.DustInputSize) * 3))
                 dustFeeRate) 1); lia.
Qed.

(** X17. [fees.DustLimit] is never below 1 and is 1 at a rate of zero
    of either sign.  For a finite non-negative rate and output sizes
    [0 <= s1 <= s2], without overflow of [(s2 + 148) * 3] and with the
    ceiling of the binary64 product for [s2] below [2^64], the limit for
    [s1] is at most the limit for [s2]. *)
Theorem DustLimit_bounds :
  (forall outputSize dustFeeRate, 1 <= fees.DustLimit outputSize dustFeeRate)
  /\ (forall outputSize sign, fees.DustLimit outputSize (S754_zero sign) = 1)
  /\ (forall s1 s2 r,
         0 <= s1 <= s2 -> (s2 + fees.DustInputSize) * 3 < 2 ^ 63 ->
         nonneg r = true ->
         representable (Ceil (mul (of_int ((s2 + fees.DustInputSize) * 3)) r)) ->
         fees.DustLimit s1 r <= fees.DustLimit s2 r).
Proof.
  split; [| split].
  - intros outputSize dustFeeRate. rewrite DustLimit_eq.
    destruct (SFeqb dustFeeRate (S754_zero false)); lia.
  - intros outputSize [|]; reflexivity.
  - intros s1 s2 r Hs Hover Hr Hrep. rewrite !DustLimit_eq.
    destruct (SFeqb r (S754_zero false)); [lia |].
    unfold fees.DustInputSize in *.
    rewrite (i64_id (s1 + 148)), (i64_id (s2 + 148)) by (unfold is_i64; lia).
    rewrite (i64_id ((s1 + 148) * 3)), (i64_id ((s2 + 148) * 3)) by (unfold is_i64; lia).
    pose proof (EstimatedFeeValue_mono ((s1 + 148) * 3) ((s2 + 148) * 3) r
                  ltac:(lia) Hr Hrep) as Hmono.
    change (fees.EstimateFeeValue ((s1 + 148) * 3) r)
      with (EstimatedFeeValue ((s1 + 148) * 3) r).
    change (fees.EstimateFeeValue ((s2 + 148) * 3) r)
      with (EstimatedFeeValue ((s2 + 148) * 3) r).
    lia.
Qed.

Lemma fee_at_zero_rate (s : Z) (sign : bool) :
  0 <= s < 2 ^ 64 -> EstimatedFeeValue s (S754_zero sign) = 0.
Proof.
  intros Hs. pose proof (of_int_uint64_finite s Hs) as Hfin.
  unfold EstimatedFeeValue.
  destruct (of_int s) as [s0 | s0 | | s0 p e]; try discriminate Hfin; reflexivity.
Qed.

Lemma SFeqb_zero (r : float64) :
  SFeqb r (S754_zero false) = true -> exists sign, r = S754_zero sign.
Proof.
  destruct r as [s | s | | s p e]; intros H.
  - exists s. reflexivity.
  - destruct s; discriminate H.
  - discriminate H.
  - destruct s; discriminate H.
Qed.

Lemma fee_within_dust (s : Z) (r : float64) :
  nonneg r = true -> 0 <= s -> (s + fees.DustInputSize) * 3 < 2 ^ 63 ->
  representable (Ceil (mul (of_int ((s + fees.DustInputSize) * 3)) r)) ->
  fees.EstimateFeeValue s r <= fees.DustLimit s r.
Proof.
  intros Hr Hs Hover Hrep. rewrite DustLimit_eq.
  destruct (SFeqb r (S754_zero false)) eqn:Hzero.
  - destruct (SFeqb_zero r Hzero) as [sign ->].
    change (fees.EstimateFeeValue s (S754_zero sign))
      with (EstimatedFeeValue s (S754_zero sign)).
    unfold fees.DustInputSize in Hover.
    rewrite fee_at_zero_rate by lia. lia.
  - unfold fees.DustInputSize in *.
    rewrite (i64_id (s + 148)) by (unfold is_i64; lia).
    rewrite (i64_id ((s + 148) * 3)) by (unfold is_i64; lia).
    pose proof (EstimatedFeeValue_mono s ((s + 148) * 3) r ltac:(lia) Hr Hrep) as Hmono.
    change (fees.EstimateFeeValue s r) with (EstimatedFeeValue s r).
    change (fees.EstimateFeeValue ((s + 148) * 3) r)
      with (EstimatedFeeValue ((s + 148) * 3) r).
    lia.
Qed.

Lemma fees_OutputSize_range (lockingScript : Script) :
  len lockingScript < 2 ^ 60 ->
  fees.OutputSize lockingScript
  = 8 + VarIntSerializeSize (len lockingScript) + len lockingScript
  /\ 9 <= fees.OutputSize lockingScript < 2 ^ 60 + 17.
Proof.
  intros Hlen. unfold fees.OutputSize, fees.OutputBaseSize.
  assert (H0 : 0 <= len lockingScript) by (unfold len; lia).
  rewrite (u64_id (len lockingScript)) by (unfold is_u64; lia).
  change (wire.VarIntSerializeSize (len lockingScript))
    with (VarIntSerializeSize (len lockingScript)).
  assert (Hv : 1 <= VarIntSerializeSize (len lockingScript) <= 9).
  { unfold VarIntSerializeSize.
    destruct (len lockingScript <? 253), (len lockingScript <=? 65535),
             (len lockingScript <=? 4294967295); lia. }
  rewrite i64_id by (unfold is_i64; lia). split; [reflexivity | lia].
Qed.

(** X18. At one and the same finite, non-negative rate an output never
    costs more than its dust limit: the fee for a size [s >= 0] is at most
    [fees.DustLimit] of [s], provided [(s + 148) * 3] does not overflow and
    the ceiling of the binary64 product for it is below [2^64].  For a
    locking script shorter than [2^60] bytes the size is
    [8 + VarIntSerializeSize(len) + len], and the fee and the dust limit
    that [OutputFeeForLockingScript], [DustLimitForLockingScript],
    [OutputFeeAndDustForLockingScript] and
    [OutputSizeAndDustForLockingScript] return are so ordered. *)
Theorem output_fee_within_dust (r : float64) :
  nonneg r = true ->
  (forall s, 0 <= s -> (s + fees.DustInputSize) * 3 < 2 ^ 63 ->
     representable (Ceil (mul (of_int ((s + fees.DustInputSize) * 3)) r)) ->
     fees.EstimateFeeValue s r <= fees.DustLimit s r)
  /\ (forall lockingScript,
         len lockingScript < 2 ^ 60 ->
         representable
           (Ceil (mul (of_int ((fees.OutputSize lockingScript + fees.DustInputSize) * 3))
                    r)) ->
         fees.OutputSize lockingScript
         = 8 + VarIntSerializeSize (len lockingScript) + len lockingScript
         /\ fees.OutputFeeForLockingScript lockingScript r
            <= fees.DustLimitForLockingScript lockingScript r
         /\ fst (fees.OutputFeeAndDustForLockingScript lockingScript r r)
            <= snd (fees.OutputFeeAndDustForLockingScript lockingScript r r)
         /\ fees.EstimateFeeValue (fst (fees.OutputSizeAndDustForLockingScript lockingScript r))
              r
            <= snd (fees.OutputSizeAndDustForLockingScript lockingScript r)).
Proof.
  intros Hr. split.
  - intros s Hs Hover Hrep. apply fee_within_dust; assumption.
  - intros lockingScript Hlen Hrep.
    destruct (fees_OutputSize_range lockingScript Hlen) as [Hsize Hrange].
    assert (Hle : fees.EstimateFeeValue (fees.OutputSize lockingScript) r
                  <= fees.DustLimit (fees.OutputSize lockingScript) r).
    { apply fee_within_dust; [exact Hr | lia | unfold fees.DustInputSize; lia | exact Hrep]. }
    split; [exact Hsize |]. split; [exact Hle |]. split; exact Hle.
Qed.

End Dust.

(** ** The two message codecs side by side *)

(** X19. The protocol identifiers are compared as whole byte strings:
    [unlocking_size.Parse] leaves a message written by
    [unlocking_data.Write] untouched and reports nothing, and
    [unlocking_data.Parse] does the same with a message written by
    [unlocking_size.Write], although ["UL"] is a prefix of ["UL_S"]. *)
Theorem protocols_do_not_mix {SN : ScriptNumbers} :
  (forall d : unlocking_data.UnlockingData,
      unlocking_size.Parse (fst (unlocking_data.Write d))
      = (None, fst (unlocking_data.Write d), None))
  /\ (forall d : unlocking_size.UnlockingSize,
         unlocking_data.Parse (fst (unlocking_size.Write d))
         = (None, fst (unlocking_size.Write d), None)).
Proof. split; intros d; reflexivity. Qed.

(** X20. [Parse] takes its own part of an envelope and returns the
    rest: after the protocol identifier and the items that [Write]
    produced, further identifiers and further payload items come back
    unchanged, beside the message that was written, when the version 0
    and the fields of the message are read back as pushed. *)
Theorem Parse_returns_the_rest {SN : ScriptNumbers} :
  ScriptNumberValue (PushNumberScriptItem 0) = (0, None) ->
  (forall (d : unlocking_data.UnlockingData) ids rest,
      reads_back (unlocking_data.Size d) -> reads_back (unlocking_data.Value d) ->
      unlocking_data.Parse
        {| envelope.ProtocolIDs :=
             envelope.ProtocolIDs (fst (unlocking_data.Write d)) ++ ids;
           envelope.Payload := envelope.Payload (fst (unlocking_data.Write d)) ++ rest |}
      = (Some d, {| envelope.ProtocolIDs := ids; envelope.Payload := rest |}, None))
  /\ (forall (d : unlocking_size.UnlockingSize) ids rest,
         reads_back (unlocking_size.UnlockingSize_ d) ->
         unlocking_size.Parse
           {| envelope.ProtocolIDs :=
                envelope.ProtocolIDs (fst (unlocking_size.Write d)) ++ ids;
              envelope.Payload := envelope.Payload (fst (unlocking_size.Write d)) ++ rest |}
         = (Some d, {| envelope.ProtocolIDs := ids; envelope.Payload := rest |}, None)).
Proof.
  intros Hversion. unfold reads_back. split.
  - intros [size value] ids rest Hsize Hvalue. simpl in Hsize, Hvalue.
    unfold unlocking_data.Parse, unlocking_data.Write. simpl.
    unfold unlocking_data.Version. rewrite Hversion. simpl.
    rewrite Hsize, Hvalue. reflexivity.
  - intros [size] ids rest Hsize. simpl in Hsize.
    unfold unlocking_size.Parse, unlocking_size.Write. simpl.
    unfold unlocking_size.Version. rewrite Hversion. simpl.
    rewrite Hsize. reflexivity.
Qed.

(** ** Sizes of the standard templates *)

(** X21. The constants of the package are what its functions compute:
    a P2PK script is unlocked by [MaximumP2PKSigScriptSize] bytes in an
    input of [MaximumP2PKInputSize], a P2PKH script by
    [MaximumP2PKHSigScriptSize] bytes in an input of
    [MaximumP2PKHInputSize], and scripts of the two standard lengths give
    outputs of [P2PKHOutputSize] and [P2PKOutputSize].  A multi-PKH script
    with counts [required <= total] is unlocked by
    [total - required + 109 * required] bytes; with [required > total] the
    [uint32] difference wraps and the size is [2^32] higher. *)
Theorem template_sizes {ST : ScriptTemplates} (fuel : nat) (s : Script) :
  (IsP2PK s = true ->
   UnlockingScriptSize (S fuel) s = Returns (MaximumP2PKSigScriptSize, None)
   /\ InputSize (S fuel) s = Returns (MaximumP2PKInputSize, None))
  /\ (IsP2PK s = false -> IsP2PKH s = true ->
      UnlockingScriptSize (S fuel) s = Returns (MaximumP2PKHSigScriptSize, None)
      /\ InputSize (S fuel) s = Returns (MaximumP2PKHInputSize, None))
  /\ (len s = P2PKHOutputScriptSize -> OutputSize s = P2PKHOutputSize)
  /\ (len s = P2PKOutputScriptSize -> OutputSize s = P2PKOutputSize)
  /\ (forall required total,
         IsP2PK s = false -> IsP2PKH s = false ->
         MultiPKHCounts s = (required, total, None) ->
         0 <= required < 2 ^ 32 -> 0 <= total < 2 ^ 32 ->
         (required <= total ->
          UnlockingScriptSize (S fuel) s
          = Returns (total - required + 109 * required, None))
         /\ (total < required ->
             UnlockingScriptSize (S fuel) s
             = Returns (2 ^ 32 + total - required + 109 * required, None))).
Proof.
  split; [| split; [| split; [| split]]].
  - intros Hpk.
    assert (Hu : UnlockingScriptSize (S fuel) s = Returns (MaximumP2PKSigScriptSize, None)).
    { rewrite UnlockingScriptSize_step, Hpk. reflexivity. }
    split; [exact Hu |]. rewrite InputSize_step, Hu. reflexivity.
  - intros Hpk Hpkh.
    assert (Hu : UnlockingScriptSize (S fuel) s = Returns (MaximumP2PKHSigScriptSize, None)).
    { rewrite UnlockingScriptSize_step, Hpk, Hpkh. reflexivity. }
    split; [exact Hu |]. rewrite InputSize_step, Hu. reflexivity.
  - intros Hlen. unfold OutputSize. rewrite Hlen. reflexivity.
  - intros Hlen. unfold OutputSize. rewrite Hlen. reflexivity.
  - intros required total Hpk Hpkh Hcounts Hr Ht.
    rewrite UnlockingScriptSize_step, Hpk, Hpkh, Hcounts. simpl is_nil. cbv iota.
    change (MaxSignaturesPushDataSize + PublicKeyPushDataSize + 1) with 109.
    rewrite (i64_id required) by (unfold is_i64; lia).
    rewrite (i64_id (required * 109)) by (unfold is_i64; lia).
    split; intros Hcmp; f_equal; f_equal.
    + unfold u32. rewrite Z.mod_small by lia.
      rewrite (i64_id (total - required)) by (unfold is_i64; lia).
      rewrite i64_id by (unfold is_i64; lia). lia.
    + unfold u32.
      replace ((total - required) mod 2 ^ 32) with (2 ^ 32 + total - required).
      * rewrite (i64_id (2 ^ 32 + total - required)) by (unfold is_i64; lia).
        rewrite i64_id by (unfold is_i64; lia). lia.
      * apply Z.mod_unique with (q := -1); lia.
Qed.

(** ** AdjustFee there and back *)

Section RoundTrip.
Context {ST : ScriptTemplates} {PF : Platform} {BD : Builder}.

Lemma with_value_twice (tx : TxBuilder) (k : nat) (out : wire.TxOut) (v1 : Z) :
  wire.TxOut_ (MsgTx tx) !! k = Some out ->
  with_value (with_value tx k out v1) k (set_Value out v1) (wire.Value out) = tx.
Proof.
  intros Hout.
  assert (Hlist : <[k := set_Value (set_Value out v1) (wire.Value out)]>
                    (<[k := set_Value out v1]> (wire.TxOut_ (MsgTx tx)))
                  = wire.TxOut_ (MsgTx tx)).
  { rewrite list_insert_insert_eq.
    assert (Hsame : set_Value (set_Value out v1) (wire.Value out) = out)
      by (destruct out; reflexivity).
    rewrite Hsame. apply list_insert_id. exact Hout. }
  unfold with_value.
  change (wire.TxOut_ (MsgTx (set_TxOut tx (<[k := set_Value out v1]>
                                              (wire.TxOut_ (MsgTx tx))))))
    with (<[k := set_Value out v1]> (wire.TxOut_ (MsgTx tx))).
  rewrite Hlist.
  destruct tx as [[v i o l] ? ? ? ? ? ?]. reflexivity.
Qed.

(** X22. With a change output that stays above its cost, raising the
    fee by an amount and then lowering it by the same amount gives the
    builder back: [AdjustFee(amount)] followed by [AdjustFee(-amount)]
    returns [(false, nil)] twice and the builder as it was. *)
Theorem AdjustFee_round_trip (fuel : nat) (tx : TxBuilder) (amount : Z) (k : nat)
  (out : wire.TxOut) (sup : OutputSupplement) (outputFee inputFee : Z)
  (err : option error) :
  0 < amount -> is_i64 amount ->
  first_change (Outputs tx) k -> Z.of_nat k <> 0xffffffff ->
  Outputs tx !! k = Some sup ->
  wire.TxOut_ (MsgTx tx) !! k = Some out ->
  is_u64 (wire.Value out) ->
  amount <= wire.Value out ->
  OutputTotalCost (wire.LockingScript out) (FeeRate tx) = (outputFee, inputFee, err) ->
  u64 (outputFee + inputFee) <= wire.Value out - amount ->
  exists tx1,
    AdjustFee fuel tx amount = Returns (tx1, (false, None))
    /\ wire.TxOut_ (MsgTx tx1) !! k = Some (set_Value out (wire.Value out - amount))
    /\ AdjustFee fuel tx1 (- amount) = Returns (tx, (false, None)).
Proof.
  intros Hpos Hamount Hfirst Hs Hsup Hout Hvalue Hle Hcost Hkeep.
  exists (with_value tx k out (wire.Value out - amount)).
  split; [| split].
  - rewrite (AdjustFee_increase fuel tx amount k out sup Hpos Hamount Hfirst Hs Hsup Hout
               Hvalue outputFee inputFee err Hle Hcost).
    destruct (Z.ltb_spec (wire.Value out - amount) (u64 (outputFee + inputFee)));
      [lia | reflexivity].
  - simpl. apply list_lookup_insert_eq. apply lookup_lt_Some in Hout. exact Hout.
  - rewrite (AdjustFee_decrease_change fuel (with_value tx k out (wire.Value out - amount))
               (- amount) ltac:(lia) ltac:(unfold is_i64 in *; lia) k
               (set_Value out (wire.Value out - amount)) Hfirst Hs).
    + simpl wire.Value.
      replace (wire.Value out - amount - - amount) with (wire.Value out) by lia.
      rewrite (u64_id _ Hvalue).
      rewrite (with_value_twice tx k out _ Hout). reflexivity.
    + simpl. apply list_lookup_insert_eq. apply lookup_lt_Some in Hout. exact Hout.
Qed.

End RoundTrip.

(** ** The estimated size of a key-hash transaction *)

Section KeyHash.
Context {ST : ScriptTemplates}.

Lemma EstimatedSize_inputs_p2pkh (fuel : nat) (tx : TxBuilder)
  (inputs : list InputSupplement) :
  Forall (fun input => LockingScript input <> []
                       /\ IsP2PK (LockingScript input) = false
                       /\ IsP2PKH (LockingScript input) = true) inputs ->
  forall i r,
    exists r', EstimatedSize_inputs (S fuel) tx i inputs r = Returns r'
               /\ eqm64 r' (r + MaximumP2PKHInputSize * len inputs).
Proof.
  induction inputs as [| input inputs IH]; intros Hall i r.
  - exists r. split; [reflexivity |]. unfold len, eqm64. simpl. f_equal. lia.
  - apply Forall_cons_1 in Hall as [[Hne [Hpk Hpkh]] Hall].
    simpl. unfold EstimatedSize_input.
    destruct (Z.eqb_spec (len (LockingScript input)) 0) as [He | _];
      [apply len_nil_iff in He; contradiction |].
    rewrite InputSize_step, UnlockingScriptSize_step, Hpk, Hpkh. simpl bind.
    destruct (IH Hall (i + 1)
                (i64 (r + i64 (InputBaseSize
                               + VarIntSerializeSize
                                   (u64 (MaxSignaturesPushDataSize + PublicKeyPushDataSize))
                               + (MaxSignaturesPushDataSize + PublicKeyPushDataSize)))))
      as [r' [Hr' Heq]].
    exists r'. split; [exact Hr' |].
    rewrite Heq, !i64_eqm. unfold len. simpl length.
    unfold eqm64. f_equal.
    change (InputBaseSize
            + VarIntSerializeSize (u64 (MaxSignaturesPushDataSize + PublicKeyPushDataSize))
            + (MaxSignaturesPushDataSize + PublicKeyPushDataSize))
      with MaximumP2PKHInputSize.
    lia.
Qed.

Lemma fold_outputs_p2pkh (outs : list wire.TxOut) :
  Forall (fun o => len (wire.LockingScript o) = P2PKHOutputScriptSize) outs ->
  forall r,
    eqm64 (fold_left (fun result output => i64 (result + wire.TxOut_SerializeSize output))
             outs r)
      (r + P2PKHOutputSize * len outs).
Proof.
  induction outs as [| o outs IH]; intros Hall r.
  - unfold len, eqm64. simpl. f_equal. lia.
  - apply Forall_cons_1 in Hall as [Ho Hall]. simpl.
    rewrite (IH Hall), i64_eqm.
    assert (Hs : wire.TxOut_SerializeSize o = P2PKHOutputSize).
    { unfold wire.TxOut_SerializeSize. rewrite Ho. reflexivity. }
    rewrite Hs. unfold len. simpl length. unfold eqm64. f_equal. lia.
Qed.

(** X23. A builder whose inputs are all locked by key hashes and whose
    outputs all carry scripts of the key-hash length is estimated at
    8 bytes, the two count varints, 149 bytes an input and 34 bytes an
    output. *)
Theorem EstimatedSize_p2pkh (fuel : nat) (tx : TxBuilder) :
  Forall (fun input => LockingScript input <> []
                       /\ IsP2PK (LockingScript input) = false
                       /\ IsP2PKH (LockingScript input) = true) (Inputs tx) ->
  Forall (fun o => len (wire.LockingScript o) = P2PKHOutputScriptSize)
    (wire.TxOut_ (MsgTx tx)) ->
  len (wire.TxIn_ (MsgTx tx)) < 2 ^ 32 ->
  len (Inputs tx) < 2 ^ 32 ->
  len (wire.TxOut_ (MsgTx tx)) < 2 ^ 32 ->
  EstimatedSize (S fuel) tx
  = Returns (BaseTxSize
             + wire.VarIntSerializeSize (len (wire.TxIn_ (MsgTx tx)))
             + wire.VarIntSerializeSize (len (wire.TxOut_ (MsgTx tx)))
             + MaximumP2PKHInputSize * len (Inputs tx)
             + P2PKHOutputSize * len (wire.TxOut_ (MsgTx tx))).
Proof.
  intros Hin Hout Hn1 Hn2 Hn3. unfold EstimatedSize.
  assert (Hlen : forall A (l : list A), 0 <= len l) by (intros; unfold len; lia).
  rewrite (u64_id (len (wire.TxIn_ (MsgTx tx))))
    by (pose proof (Hlen _ (wire.TxIn_ (MsgTx tx))); unfold is_u64; lia).
  rewrite (u64_id (len (wire.TxOut_ (MsgTx tx))))
    by (pose proof (Hlen _ (wire.TxOut_ (MsgTx tx))); unfold is_u64; lia).
  set (vi := wire.VarIntSerializeSize (len (wire.TxIn_ (MsgTx tx)))).
  set (vo := wire.VarIntSerializeSize (len (wire.TxOut_ (MsgTx tx)))).
  assert (Hvi : 1 <= vi <= 9).
  { unfold vi, wire.VarIntSerializeSize.
    destruct (_ <? 253); [lia |]. destruct (_ <=? 65535); [lia |].
    destruct (_ <=? 4294967295); lia. }
  assert (Hvo : 1 <= vo <= 9).
  { unfold vo, wire.VarIntSerializeSize.
    destruct (_ <? 253); [lia |]. destruct (_ <=? 65535); [lia |].
    destruct (_ <=? 4294967295); lia. }
  destruct (EstimatedSize_inputs_p2pkh fuel tx (Inputs tx) Hin 0 (i64 (BaseTxSize + vi + vo)))
    as [r' [Hr' Heq]].
  rewrite Hr'. simpl bind. f_equal.
  pose proof (fold_outputs_p2pkh (wire.TxOut_ (MsgTx tx)) Hout r') as Hfold.
  set (result := fold_left _ _ r') in *.
  rewrite Heq, i64_eqm in Hfold.
  assert (Hri : is_i64 result).
  { apply fold_outputs_is_i64.
    apply (EstimatedSize_inputs_i64 _ _ _ _ _ _ (i64_range _) Hr'). }
  pose proof (Hlen _ (Inputs tx)). pose proof (Hlen _ (wire.TxOut_ (MsgTx tx))).
  unfold BaseTxSize, MaximumP2PKHInputSize, P2PKHOutputSize in *.
  change (InputBaseSize + 1 + MaximumP2PKHSigScriptSize) with 149 in *.
  change (OutputBaseSize + 1 + P2PKHOutputScriptSize) with 34 in *.
  assert (Ht : is_i64 (8 + vi + vo + 149 * len (Inputs tx)
                        + 34 * len (wire.TxOut_ (MsgTx tx))))
    by (unfold is_i64; lia).
  assert (He : i64 result
               = i64 (8 + vi + vo + 149 * len (Inputs tx)
                      + 34 * len (wire.TxOut_ (MsgTx tx)))).
  { apply eqm64_i64. rewrite Hfold. unfold eqm64. f_equal; lia. }
  rewrite (i64_id _ Hri), (i64_id _ Ht) in He. exact He.
Qed.

End KeyHash.

(** ** Fees at the edges *)

(** X24. A size of 0 at a finite rate, and a [uint64] size at a rate of
    zero of either sign, cost 0, rounded either way.  At a rate that is
    not a number the products are not numbers and both results are what
    the platform's conversion makes of that. *)
Theorem fee_at_the_edges {PF : Platform} :
  (forall r, is_finite r = true ->
             EstimatedFeeValue 0 r = 0 /\ EstimatedFeeValueDown 0 r = 0)
  /\ (forall s sign, 0 <= s < 2 ^ 64 ->
                     EstimatedFeeValue s (S754_zero sign) = 0
                     /\ EstimatedFeeValueDown s (S754_zero sign) = 0)
  /\ (forall s, EstimatedFeeValue s S754_nan = u64 (unrepresentable_uint64 S754_nan)
                /\ EstimatedFeeValueDown s S754_nan = u64 (unrepresentable_uint64 S754_nan)).
Proof.
  split; [| split].
  - intros [sr | sr | | sr p e] Hfin; try discriminate Hfin; split; reflexivity.
  - intros s sign Hs. pose proof (of_int_uint64_finite s Hs) as Hfin.
    unfold EstimatedFeeValue, EstimatedFeeValueDown.
    destruct (of_int s) as [s0 | s0 | | s0 p e]; try discriminate Hfin; split; reflexivity.
  - intros s. unfold EstimatedFeeValue, EstimatedFeeValueDown.
    destruct (of_int s) as [s0 | s0 | | s0 p e]; split; reflexivity.
Qed.

Lemma EstimatedSize_p2pkh_witness :
  EstimatedSize 1 (funded_with_change 100 false) = Returns (8 + 1 + 1 + 149 * 1 + 34 * 2).
Proof.
  apply (EstimatedSize_p2pkh 0 (funded_with_change 100 false)).
  - repeat constructor. discriminate.
  - repeat constructor.
  - vm_compute. reflexivity.
  - vm_compute. reflexivity.
  - vm_compute. reflexivity.
Defined.

Lemma fee_at_the_edges_witness :
  EstimatedFeeValue 0 f64_0_1 = 0
  /\ EstimatedFeeValueDown 0 f64_0_1 = 0
  /\ EstimatedFeeValue (2 ^ 64 - 1) (S754_zero true) = 0
  /\ EstimatedFeeValueDown (2 ^ 64 - 1) (S754_zero true) = 0.
Proof.
  destruct (fee_at_the_edges (PF := platform)) as [Hsize [Hrate _]].
  destruct (Hsize f64_0_1 eq_refl) as [H1 H2].
  destruct (Hrate (2 ^ 64 - 1) true ltac:(lia)) as [H3 H4].
  repeat split; assumption.
Defined.

Lemma AdjustFee_round_trip_witness :
  exists tx1,
    AdjustFee 1 (tx_with_change 1000 false) 200 = Returns (tx1, (false, None))
    /\ wire.TxOut_ (MsgTx tx1) !! 1%nat = Some (set_Value (p2pkh_output 1000) (1000 - 200))
    /\ AdjustFee 1 tx1 (- 200) = Returns (tx_with_change 1000 false, (false, None)).
Proof.
  apply (AdjustFee_round_trip 1 (tx_with_change 1000 false) 200 1 (p2pkh_output 1000)
           (change_supplement false) 17 75 None);
    [lia | apply i64_small; lia | apply first_change_1 | vm_compute; discriminate
     | reflexivity | reflexivity | apply u64_small; simpl; lia | simpl; lia
     | vm_compute; reflexivity | vm_compute; discriminate].
Defined.

(** ** The statements above on the reference instance *)

Lemma template_sizes_witness :
  InputSize 1 p2pk_script = Returns (MaximumP2PKInputSize, None)
  /\ InputSize 1 p2pkh_script = Returns (MaximumP2PKHInputSize, None)
  /\ OutputSize p2pkh_script = P2PKHOutputSize
  /\ OutputSize p2pk_script = P2PKOutputSize
  /\ @UnlockingScriptSize multi_templates 1 [Byte.xc1; Byte.x02; Byte.x03]
     = Returns (3 - 2 + 109 * 2, None)
  /\ @UnlockingScriptSize multi_templates 1 [Byte.xc1; Byte.x03; Byte.x02]
     = Returns (2 ^ 32 + 2 - 3 + 109 * 3, None).
Proof.
  destruct (template_sizes (ST := templates) 0 p2pk_script) as [Hpk [_ [_ [Hout _]]]].
  destruct (template_sizes (ST := templates) 0 p2pkh_script) as [_ [Hpkh [Hout' _]]].
  destruct (template_sizes (ST := multi_templates) 0 [Byte.xc1; Byte.x02; Byte.x03])
    as [_ [_ [_ [_ Hmulti]]]].
  destruct (template_sizes (ST := multi_templates) 0 [Byte.xc1; Byte.x03; Byte.x02])
    as [_ [_ [_ [_ Hwrap]]]].
  split; [apply Hpk; reflexivity |].
  split; [apply Hpkh; reflexivity |].
  split; [apply Hout'; reflexivity |].
  split; [apply Hout; reflexivity |].
  split.
  - apply (Hmulti 2 3); try reflexivity; lia.
  - apply (Hwrap 3 2); try reflexivity; lia.
Defined.

Lemma OutputValue_partition_witness :
  OutputValue (tx_with_change 100 false) true = Returns 5100
  /\ OutputValue (tx_with_change 100 false) false = Returns 5000
  /\ changeSum (tx_with_change 100 false) = Returns 100
  /\ Remainder (tx_with_change 100 false) = Returns 117
  /\ OutputValue (builder_of [p2pkh_output 5000] [] []) false = Panics
  /\ changeSum (builder_of [p2pkh_output 5000] [] []) = Panics
  /\ Remainder (builder_of [p2pkh_output 5000] [] []) = Panics.
Proof.
  destruct (OutputValue_partition (tx_with_change 100 false)) as [Hall [Hsplit _]].
  destruct (Hsplit ltac:(simpl; lia)) as [pay [chg [Hpay [Hchg [-> [-> [_ Hrem]]]]]]].
  destruct (OutputValue_partition (builder_of [p2pkh_output 5000] [] [])) as [_ [_ Hshort]].
  destruct (Hshort ltac:(simpl; lia)) as [Hp1 [Hp2 Hp3]].
  split; [rewrite Hall; reflexivity |].
  split; [rewrite Hpay; reflexivity |].
  split; [rewrite Hchg; reflexivity |].
  split; [rewrite Hrem; vm_compute; reflexivity |].
  split; [exact Hp1 |]. split; [exact Hp2 | exact Hp3].
Defined.

Lemma Fee_and_ActualFee_witness :
  Fee (funded_with_change 100 false) = Returns 900
  /\ ActualFee (funded_with_change 100 false) = Returns 900
  /\ Fee orphan_builder = Panics
  /\ ActualFee orphan_builder = Panics.
Proof.
  destruct (Fee_and_ActualFee (funded_with_change 100 false)) as [Hret _].
  destruct (Hret 6000 eq_refl) as [_ [Hfee [_ Hactual]]].
  destruct (Fee_and_ActualFee orphan_builder) as [_ Hpanic].
  destruct (Hpanic eq_refl) as [Hp1 Hp2].
  split; [rewrite Hfee; reflexivity |].
  split; [rewrite Hactual; [reflexivity | lia | vm_compute; reflexivity] |].
  split; [exact Hp1 | exact Hp2].
Defined.

Lemma EstimatedSize_reads_scripts_witness :
  EstimatedSize 1 (tx_with_change 100 false) = EstimatedSize 1 (tx_with_change 999 true).
Proof. apply EstimatedSize_reads_scripts; reflexivity. Defined.

Lemma EstimatedSize_with_output_witness :
  EstimatedSize 1 (with_output (tx_without_change p2pkh_script) (p2pkh_output 7)
                     (change_supplement true))
  = Returns (44 + 34)
  /\ EstimatedSize 1 (with_output (builder_of (repeat (p2pkh_output 1) 252) [] [])
                        (p2pkh_output 7) (change_supplement true))
     = Returns (10 + 252 * 34 + 34 + 2).
Proof.
  destruct (EstimatedSize_with_output 1 (tx_without_change p2pkh_script) (p2pkh_output 7)
              (change_supplement true)) as [_ [Hsmall _]].
  destruct (EstimatedSize_with_output 1 (builder_of (repeat (p2pkh_output 1) 252) [] [])
              (p2pkh_output 7) (change_supplement true)) as [_ [_ Hedge]].
  split.
  - rewrite Hsmall by (simpl; lia). reflexivity.
  - rewrite Hedge by reflexivity. vm_compute. reflexivity.
Defined.

Lemma inputs_out_of_step_witness :
  InputValue (funded_with_change 100 false) = Returns 6000
  /\ (exists n, EstimatedSize 1 (funded_with_change 100 false) = Returns n)
  /\ InputValue orphan_builder = Panics
  /\ EstimatedSize 1 orphan_builder = Panics
  /\ EstimatedSize 1 (two_input_builder [funded_input; hostile_input]) = Panics.
Proof.
  destruct (inputs_out_of_step 1 (funded_with_change 100 false))
    as [Hwithin [Hnonzero _]].
  assert (Hparses : parses (wire.TxIn_ (MsgTx (funded_with_change 100 false))))
    by (constructor; [discriminate | constructor]).
  destruct (Hwithin ltac:(simpl; lia) Hparses) as [_ Hsize].
  destruct (inputs_out_of_step 1 orphan_builder) as [_ [_ [Hbeyond _]]].
  destruct (Hbeyond [] unknown_input [] eq_refl ltac:(simpl; lia)) as [Hv Hs].
  destruct (inputs_out_of_step 1 (two_input_builder [funded_input; hostile_input]))
    as [_ [_ [_ [_ Hcallee]]]].
  split.
  - rewrite Hnonzero by (repeat constructor; discriminate). reflexivity.
  - split; [apply Hsize; constructor; [eexists; reflexivity | constructor] |].
    split; [apply Hv; reflexivity |].
    split; [apply Hs; [reflexivity | constructor] |].
    apply (Hcallee [funded_input] hostile_input [] eq_refl);
      [discriminate | reflexivity | constructor; [discriminate | constructor]].
Defined.

Lemma AdjustFee_results_witness :
  AdjustFee 1 (tx_with_change 100 false) 45
  = Returns (with_value (tx_with_change 100 false) 1 (p2pkh_output 100) (100 - 45),
             (false, Some (Wrap ErrInsufficientValue "Not enough change for tx fee")))
  /\ Cause (Wrap ErrInsufficientValue "Not enough change for tx fee") = ErrInsufficientValue.
Proof.
  assert (H : AdjustFee 1 (tx_with_change 100 false) 45
              = Returns (with_value (tx_with_change 100 false) 1 (p2pkh_output 100) (100 - 45),
                         (false,
                          Some (Wrap ErrInsufficientValue "Not enough change for tx fee"))))
    by (vm_compute; reflexivity).
  split; [exact H |].
  destruct (AdjustFee_results 1 (tx_with_change 100 false) 45 _ false _
              (i64_small 45 ltac:(lia)) H) as [_ [Herr _]].
  destruct (Herr _ eq_refl) as [[_ Hc] | [[Hneg _] | [Hneg _]]]; [exact Hc | lia | lia].
Defined.

Lemma AdjustFee_insufficient_witness :
  (exists e, AdjustFee 1 (tx_without_change p2pkh_script) 45
             = Returns (tx_without_change p2pkh_script, (false, Some e))
             /\ Cause e = ErrInsufficientValue)
  /\ (exists e, AdjustFee 1 (tx_with_change 30 false) 45
                = Returns (tx_with_change 30 false, (false, Some e))
                /\ Cause e = ErrInsufficientValue)
  /\ AdjustFee 1 (builder_of [p2pkh_output 5000]
                    [payment_supplement; change_supplement false] p2pkh_script) 45
     = Panics.
Proof.
  destruct (AdjustFee_insufficient 1 (tx_without_change p2pkh_script) 45
              ltac:(lia) (i64_small 45 ltac:(lia))) as [Hnone _].
  destruct (AdjustFee_insufficient 1 (tx_with_change 30 false) 45
              ltac:(lia) (i64_small 45 ltac:(lia))) as [_ [Hshort _]].
  destruct (AdjustFee_insufficient 1
              (builder_of [p2pkh_output 5000]
                 [payment_supplement; change_supplement false] p2pkh_script) 45
              ltac:(lia) (i64_small 45 ltac:(lia))) as [_ [_ Hpanic]].
  split; [apply Hnone, no_change_payment |].
  split.
  - apply (Hshort 1%nat (p2pkh_output 30));
      [apply first_change_1 | vm_compute; discriminate | reflexivity | simpl; lia].
  - apply (Hpanic 1%nat);
      [apply (first_change_at (change_supplement false) [payment_supplement] []);
       [reflexivity | repeat constructor]
      | vm_compute; discriminate | simpl; lia].
Defined.

Lemma first_change_funded (value : Z) (added : bool) :
  first_change (Outputs (funded_with_change value added)) 1.
Proof.
  apply (first_change_at (change_supplement added) [payment_supplement] []);
    [reflexivity | repeat constructor].
Qed.

Lemma AdjustFee_moves_fee_witness :
  ActualFee (funded_with_change 100 false) = Returns 900
  /\ (exists tx', AdjustFee 1 (funded_with_change 100 false) (-50) = Returns (tx', (false, None))
                  /\ ActualFee tx' = Returns 850)
  /\ (exists tx', AdjustFee 1 (funded_with_change 100 true) 45 = Returns (tx', (true, None))
                  /\ ActualFee tx' = Returns 1000).
Proof.
  split; [reflexivity |]. split.
  - eexists. split; [vm_compute; reflexivity |].
    refine (proj1 (AdjustFee_moves_fee 1 (funded_with_change 100 false) (-50) 1
                     (p2pkh_output 100) (change_supplement false) _ false
                     (i64_small (-50) ltac:(lia)) (first_change_funded 100 false)
                     ltac:(vm_compute; discriminate) eq_refl eq_refl
                     (u64_small 100 ltac:(lia)) ltac:(vm_compute; reflexivity)) eq_refl).
  - eexists. split; [vm_compute; reflexivity |].
    refine (proj2 (proj2 (proj2 (proj2
              (AdjustFee_moves_fee 1 (funded_with_change 100 true) 45 1
                 (p2pkh_output 100) (change_supplement true) _ true
                 (i64_small 45 ltac:(lia)) (first_change_funded 100 true)
                 ltac:(vm_compute; discriminate) eq_refl eq_refl
                 (u64_small 100 ltac:(lia)) ltac:(vm_compute; reflexivity))
              ltac:(simpl; lia))))).
Defined.

Lemma CalculateFee_settles_witness :
  exists tx',
    CalculateFee 1 (funded_with_change 100 false) = Returns (tx', None)
    /\ wire.TxOut_ (MsgTx tx') = [p2pkh_output 5000; p2pkh_output 886]
    /\ EstimatedFee 1 tx' = Returns 114
    /\ ActualFee tx' = Returns 114.
Proof.
  eexists. split; [vm_compute; reflexivity |]. split; [reflexivity |].
  destruct (CalculateFee_settles 1 (funded_with_change 100 false) 1
              (p2pkh_output 100) (change_supplement false) _
              (first_change_funded 100 false) ltac:(vm_compute; discriminate)
              eq_refl eq_refl (u64_small 100 ltac:(lia))
              ltac:(vm_compute; reflexivity) eq_refl)
    as [fee [Hfee' [Hfee Hactual]]].
  assert (Hv : fee = 114).
  { assert (H114 : EstimatedFee 1 (funded_with_change 100 false) = Returns 114)
      by (vm_compute; reflexivity).
    rewrite H114 in Hfee. injection Hfee as <-. reflexivity. }
  subst fee. split; [exact Hfee' | exact Hactual].
Defined.

Lemma CalculateFee_creates_change_witness :
  exists tx',
    CalculateFee 1 funded_without_change = Returns (tx', None)
    /\ wire.TxOut_ (MsgTx tx') = [p2pkh_output 5000; p2pkh_output 886]
    /\ EstimatedFee 1 tx' = Returns 114
    /\ ActualFee tx' = Returns 114.
Proof.
  eexists. split; [vm_compute; reflexivity |]. split; [reflexivity |].
  destruct (CalculateFee_creates_change reference_AddOutput_appends 1
              funded_without_change _
              ltac:(intros [| [| j]] sup Hj; simpl in Hj; try discriminate Hj;
                    injection Hj as <-; reflexivity)
              ltac:(simpl; lia) ltac:(vm_compute; reflexivity) eq_refl)
    as [fee [v [sup [Htx [_ [_ [Hfee Hactual]]]]]]].
  assert (Hv : fee = 114).
  { vm_compute in Hfee. injection Hfee as <-. reflexivity. }
  subst fee. split; [vm_compute; reflexivity | exact Hactual].
Defined.

Lemma ZeroizeFee_settles_witness :
  exists tx',
    ZeroizeFee 1 (funded_with_change 100 false) = Returns (tx', None)
    /\ wire.TxOut_ (MsgTx tx') = [p2pkh_output 5000; p2pkh_output 1000]
    /\ ActualFee tx' = Returns 0.
Proof.
  eexists. split; [vm_compute; reflexivity |]. split; [reflexivity |].
  exact (ZeroizeFee_settles 1 (funded_with_change 100 false) 1
           (p2pkh_output 100) (change_supplement false) _
           (first_change_funded 100 false) ltac:(vm_compute; discriminate)
           eq_refl eq_refl (u64_small 100 ltac:(lia))
           ltac:(vm_compute; reflexivity) eq_refl).
Defined.

Lemma EstimateInputSize_cases_witness :
  fees.EstimateInputSize plain_txin p2pkh_script unlocker = Returns (149, None)
  /\ fees.EstimateInputSize plain_txin [Byte.x01] unlocker
     = Returns (0, Some (Wrap ErrUnknownScriptTemplate "unlocking size"))
  /\ fees.EstimateInputSize declared_txin [] unlocker = Returns (149, None)
  /\ fees.EstimateInputSize plain_txin [] unlocker = Returns (0, Some MissingUnlockingData).
Proof.
  destruct (EstimateInputSize_cases plain_txin p2pkh_script unlocker) as [Hknown _].
  destruct (Hknown ltac:(discriminate)) as [Hsize _].
  destruct (EstimateInputSize_cases plain_txin [Byte.x01] unlocker) as [Hunknown _].
  destruct (Hunknown ltac:(discriminate)) as [_ Herr].
  destruct (EstimateInputSize_cases declared_txin [] unlocker) as [_ Hdeclared].
  destruct (Hdeclared eq_refl) as [Hd _].
  destruct (EstimateInputSize_cases plain_txin [] unlocker) as [_ Hmissing].
  destruct (Hmissing eq_refl) as [_ [Hm _]].
  split; [exact (Hsize 108 eq_refl) |].
  split; [exact (Herr 0 ErrUnknownScriptTemplate eq_refl) |].
  split; [| exact (Hm eq_refl)].
  exact (Hd {| unlocking_data.Size := 108; unlocking_data.Value := 5000 |} eq_refl
            (u64_small 108 ltac:(lia))).
Defined.

Lemma same_inputs_spent (b : TxBuilder) :
  length (Inputs b) = length (wire.TxIn_ (MsgTx b)) -> same_inputs b (spent_tx b).
Proof.
  intros Hlen. split; [reflexivity |]. split; [exact Hlen |].
  intros i input Hi. simpl.
  destruct (Z.ltb_spec (Z.of_nat i) 0) as [? | _]; [lia |].
  rewrite Nat2Z.id, Hi. eexists. split; reflexivity.
Qed.

Lemma EstimateSize_agrees_witness :
  fees.EstimateSize (spent_tx (funded_with_change 100 false)) unlocker = Returns (227, None)
  /\ EstimatedSize 1 (funded_with_change 100 false) = Returns 227
  /\ fees.EstimateFee (spent_tx (funded_with_change 100 false)) unlocker
       (of_float32 rate_0_5) = Returns (114, None)
  /\ EstimatedFee 1 (funded_with_change 100 false) = Returns 114
  /\ (exists e, fees.EstimateFee (spent_tx (two_input_builder [funded_input; unknown_input]))
                  unlocker f64_1 = Returns (0, Some e)
                /\ Cause e = MissingUnlockingData).
Proof.
  assert (Hagree : forall inputs b,
            Inputs b = inputs ->
            Forall (fun input => LockingScript input = p2pkh_script
                                 \/ LockingScript input = []) inputs ->
            unlocker_agrees 1 b unlocker).
  { intros inputs b Hb Hall i input Hi. rewrite Hb in Hi.
    destruct (Forall_lookup_1 _ _ _ _ Hall Hi) as [-> | ->]; reflexivity. }
  destruct (EstimateSize_agrees 1 (funded_with_change 100 false)
              (spent_tx (funded_with_change 100 false)) unlocker
              (same_inputs_spent (funded_with_change 100 false) eq_refl)
              (Hagree _ (funded_with_change 100 false) eq_refl
                 ltac:(constructor; [left; reflexivity | constructor])))
    as [Hsize _].
  destruct (Hsize 227 ltac:(vm_compute; reflexivity)) as [Hb Hfee].
  destruct (Hfee ltac:(lia)) as [fee [Hf1 Hf2]].
  assert (Hv : fee = 114) by (vm_compute in Hf1; injection Hf1 as <-; reflexivity).
  subst fee.
  destruct (EstimateSize_agrees 1 (two_input_builder [funded_input; unknown_input])
              (spent_tx (two_input_builder [funded_input; unknown_input])) unlocker
              (same_inputs_spent (two_input_builder [funded_input; unknown_input]) eq_refl)
              (Hagree _ (two_input_builder [funded_input; unknown_input]) eq_refl
                 ltac:(constructor; [left; reflexivity
                                    | constructor; [right; reflexivity | constructor]])))
    as [_ Herr].
  split; [vm_compute; reflexivity |].
  split; [exact Hb |]. split; [exact Hf1 |]. split; [exact Hf2 |].
  eexists. split; [apply (Herr 0); vm_compute; reflexivity | reflexivity].
Defined.

Lemma fees_Fee_of_inputs_witness :
  fees.Fee (spent_tx (funded_with_change 100 false)) = Returns (900, None)
  /\ (exists e, fees.Fee (spent_tx (two_input_builder [funded_input])) = Returns (0, Some e)
                /\ e = Wrap (ErrExternal "missing input") "input 1 output")
  /\ (exists e, fees.Fee (spent_tx (two_input_builder [funded_input; unknown_input]))
                = Returns (0, Some e)
                /\ e = Wrap MissingUnlockingData "input 1 value").
Proof.
  assert (Hknown : forall b, Inputs b !! 0%nat = Some funded_input ->
            spends_first (spent_tx b)
              [{| wire.Value := 6000; wire.LockingScript := p2pkh_script |}]).
  { intros b Hb [| i] o Hi; simpl in Hi; [| discriminate Hi].
    injection Hi as <-. unfold spent_tx. simpl fees.InputOutput.
    destruct (Inputs b) as [| input inputs]; [discriminate Hb |].
    simpl in Hb. injection Hb as ->. reflexivity. }
  assert (Hnz : Forall (fun o => wire.Value o <> 0)
                  [{| wire.Value := 6000; wire.LockingScript := p2pkh_script |}])
    by (repeat constructor; discriminate).
  destruct (fees_Fee_of_inputs (spent_tx (funded_with_change 100 false)) _
              (Hknown (funded_with_change 100 false) eq_refl) Hnz) as [Hall _].
  destruct (Hall eq_refl) as [_ Hfee].
  destruct (fees_Fee_of_inputs (spent_tx (two_input_builder [funded_input])) _
              (Hknown (two_input_builder [funded_input]) eq_refl) Hnz) as [_ [Hfail _]].
  destruct (Hfail plain_txin None (ErrExternal "missing input") eq_refl eq_refl)
    as [_ Hf].
  destruct (fees_Fee_of_inputs (spent_tx (two_input_builder [funded_input; unknown_input])) _
              (Hknown (two_input_builder [funded_input; unknown_input]) eq_refl) Hnz)
    as [_ [_ Hzero]].
  destruct (Hzero plain_txin {| wire.Value := 0; wire.LockingScript := [] |}
              eq_refl eq_refl eq_refl eq_refl) as [_ Hz].
  split; [rewrite Hfee; reflexivity |].
  split; eexists; (split; [eassumption | reflexivity]).
Defined.

Lemma DustLimit_bounds_witness :
  fees.DustLimit 34 f64_1 = 546
  /\ fees.DustLimit 34 f64_0_1 <= fees.DustLimit 44 f64_0_1
  /\ 1 <= fees.DustLimit 0 (S754_finite false 1 (-1074)).
Proof.
  destruct (DustLimit_bounds (PF := platform)) as [Hone [_ Hmono]].
  split; [vm_compute; reflexivity |].
  split; [| apply Hone].
  apply Hmono; [lia | vm_compute; reflexivity | reflexivity |].
  exists 58. split; [vm_compute; reflexivity | lia].
Defined.

Lemma output_fee_within_dust_witness :
  fees.OutputFeeForLockingScript p2pkh_script f64_0_1
  <= fees.DustLimitForLockingScript p2pkh_script f64_0_1
  /\ fees.EstimateFeeValue 34 (S754_zero true) <= fees.DustLimit 34 (S754_zero true).
Proof.
  destruct (output_fee_within_dust (PF := platform) f64_0_1 eq_refl) as [_ Hscript].
  destruct (output_fee_within_dust (PF := platform) (S754_zero true) eq_refl) as [Hsize _].
  split.
  - apply (Hscript p2pkh_script); [vm_compute; reflexivity |].
    exists 55. split; [vm_compute; reflexivity | lia].
  - apply Hsize; [lia | vm_compute; reflexivity |].
    exists 0. split; [vm_compute; reflexivity | lia].
Defined.

Lemma Parse_returns_the_rest_witness :
  unlocking_data.Parse
    {| envelope.ProtocolIDs := [unlocking_data.ProtocolID; unlocking_size.ProtocolID];
       envelope.Payload := [push_number 0; push_number 108; push_number 5000;
                            push_number 0; push_number 77] |}
  = (Some {| unlocking_data.Size := 108; unlocking_data.Value := 5000 |},
     {| envelope.ProtocolIDs := [unlocking_size.ProtocolID];
        envelope.Payload := [push_number 0; push_number 77] |}, None)
  /\ unlocking_size.Parse
       {| envelope.ProtocolIDs := [unlocking_size.ProtocolID];
          envelope.Payload := [push_number 0; push_number 77] |}
     = (Some {| unlocking_size.UnlockingSize_ := 77 |},
        {| envelope.ProtocolIDs := []; envelope.Payload := [] |}, None).
Proof.
  destruct (Parse_returns_the_rest (SN := numbers) eq_refl) as [Hdata Hsize].
  split.
  - exact (Hdata {| unlocking_data.Size := 108; unlocking_data.Value := 5000 |}
             [unlocking_size.ProtocolID] [push_number 0; push_number 77]
             (reference_unsigned_roundtrip 108 ltac:(lia))
             (reference_unsigned_roundtrip 5000 ltac:(lia))).
  - exact (Hsize {| unlocking_size.UnlockingSize_ := 77 |} [] []
             (reference_unsigned_roundtrip 77 ltac:(lia))).
Defined.
